(** * MAPIE: prediction intervals from out-of-fold residuals

    A shallow embedding of [mapie/estimators.py] (class [MapieRegressor]) and
    of the helpers of [mapie/utils.py] that the specification talks about.

    Conventions of the embedding:
    - a floating-point number is the rational ([Q]) that it stands for;
      there is no nan, except where a function tests for it. Sums,
      differences and absolute values of predictions, labels and
      residuals are exact. Where the code rounds a number before a
      discrete decision (the probability [1 - alpha] and the virtual
      index of [np.quantile], which choose the rank that is read; the
      quotients that [check_alpha_and_n_samples] compares with [n]) the
      rounding is that of double precision, module [Binary64];
    - a one-dimensional array is a [list], a two-dimensional one a list of
      rows;
    - a Python exception is a value of [exn]; a function that may raise
      returns a [result];
    - the object [self] is the record [MapieRegressor]; a method that
      assigns to attributes is a function in the monad [M], which threads
      the object and keeps the assignments made before an exception;
    - numpy and scikit-learn are outside the repository: the few functions
      of theirs that the code calls are modelled from their documented
      behaviour in the modules [Np] and [Sk]. *)

From Stdlib Require Import QArith Qround Qabs Qminmax Qpower ZArith Lia Lqa.
From Stdlib Require Import String DecimalString List Permutation Sorted.
From stdpp Require Import base list strings.

Open Scope Q_scope.
Open Scope list_scope.

(** ** Exceptions and results *)

Inductive exn : Type :=
| ValueError (msg : string)
| NotFittedError
| AttributeError (attr : string)
| IndexError
| TypeError
| ZeroDivisionError.

Inductive result (A : Type) : Type :=
| Ok (a : A)
| Raise (e : exn).

Arguments Ok {A} a.
Arguments Raise {A} e.

Definition rbind {A B : Type} (c : result A) (k : A -> result B) : result B :=
  match c with
  | Ok a => k a
  | Raise e => Raise e
  end.

Declare Scope result_scope.
Delimit Scope result_scope with result.
Notation "'let*' x ':=' c 'in' k" := (rbind c (fun x => k))
  (at level 10, x pattern, c at level 100, k at level 200) : result_scope.

Open Scope result_scope.

Fixpoint rmap {A B : Type} (f : A -> result B) (l : list A) : result (list B) :=
  match l with
  | [] => Ok []
  | a :: l' =>
      let* b := f a in
      let* bs := rmap f l' in
      Ok (b :: bs)
  end.

Definition is_ok {A : Type} (r : result A) : bool :=
  match r with Ok _ => true | Raise _ => false end.

(** ** Double precision *)

(** The floats of Python and numpy are IEEE 754 binary64 numbers: 53
    bits of precision, exponents from -1022 to 1023, steps of [2^-1074]
    below [2^-1022]; every operation returns the double nearest to the
    exact result, ties going to the even neighbour. *)
Module Binary64.

(** The integer nearest to [x], ties to even. *)
Definition rne (x : Q) : Z :=
  let f := Qfloor x in
  match Qcompare (x - inject_Z f) (1 # 2) with
  | Lt => f
  | Eq => if Z.even f then f else (f + 1)%Z
  | Gt => (f + 1)%Z
  end.

(** For [0 < x], the exponent [e] with [2^e <= x < 2^(e+1)]. *)
Definition ilog2 (x : Q) : Z :=
  if Qle_bool 1 x then Z.log2 (Qfloor x) else (- Z.log2_up (Qceiling (/ x)))%Z.

(** The exponent of the step between the doubles around [x]. *)
Definition quantum (x : Q) : Z := (Z.max (ilog2 x) (-1022) - 52)%Z.

Definition round_pos (x : Q) : Q :=
  inject_Z (rne (x / 2 ^ quantum x)) * 2 ^ quantum x.

(** The double nearest to [x], as long as it is finite. *)
Definition fl (x : Q) : Q :=
  match Qcompare x 0 with
  | Eq => 0
  | Gt => Qred (round_pos x)
  | Lt => Qred (- round_pos (- x))
  end.

(** A float that may have overflowed. *)
Inductive float : Type :=
| Finite (x : Q)
| PInf
| NInf.

(** Rounding with overflow: from [2^1024 - 2^970] on, the nearest double
    is infinity. *)
Definition round (x : Q) : float :=
  let r := fl x in
  if Qle_bool (2 ^ 1024) r then PInf
  else if Qle_bool r (- 2 ^ 1024) then NInf
  else Finite r.

(** [x - y] and [x * y], for operands whose result cannot overflow. *)
Definition sub (x y : Q) : Q := fl (x - y).
Definition mul (x y : Q) : Q := fl (x * y).

(** [x / y] for [y] other than zero. *)
Definition div (x y : Q) : float := round (x / y).

(** The conversion of a Python int to a float. *)
Definition of_int (z : Z) : Q := fl (inject_Z z).

(** [n < x] for a Python int [n] and a float [x]: Python compares the
    two exactly. *)
Definition int_lt (n : Z) (x : float) : bool :=
  match x with
  | Finite q => negb (Qle_bool q (inject_Z n))
  | PInf => true
  | NInf => false
  end.

End Binary64.

(** ** The part of numpy that the code uses *)

Module Np.

(** [np.abs(a - b)], element by element. *)
Definition abs_diff (a b : list Q) : list Q :=
  zip_with (fun x y => Qabs (x - y)) a b.

(** [np.sort]: ascending order. *)
Fixpoint insert_sorted (x : Q) (l : list Q) : list Q :=
  match l with
  | [] => [x]
  | y :: l' => if Qle_bool x y then x :: l else y :: insert_sorted x l'
  end.

Fixpoint sort (l : list Q) : list Q :=
  match l with
  | [] => []
  | x :: l' => insert_sorted x (sort l')
  end.

(** The two interpolation modes of [np.quantile] that the code asks for. *)
Inductive interpolation : Type := lower | higher.

(** The virtual index [q * (Nx - 1)] of [np.quantile] for an array of
    [Nx] elements: a product of doubles. An array has fewer than [2^53]
    elements, so that [Nx - 1] is a double and the product is not above
    it for [q <= 1]; the minimum says so for the lists of the embedding,
    whose length has no bound. *)
Definition virtual_index (Nx : nat) (q : Q) : Q :=
  Qmin (Binary64.mul q (Binary64.of_int (Z.of_nat Nx - 1)))
       (inject_Z (Z.of_nat Nx - 1)).

(** The rank that [np.quantile] reads in the sorted array: the virtual
    index, rounded down for ["lower"], up for ["higher"]. *)
Definition rank (n : nat) (q : Q) (i : interpolation) : Z :=
  match i with
  | lower => Qfloor (virtual_index n q)
  | higher => Qceiling (virtual_index n q)
  end.

(** [np.quantile(a, q, interpolation=i)] on a one-dimensional array.
    A [q] outside [0, 1] is refused. On an empty array numpy has no number
    to give (nan); the embedding has no nan and reports it as an error. *)
Definition quantile (a : list Q) (q : Q) (i : interpolation) : result Q :=
  if negb (Qle_bool 0 q && Qle_bool q 1) then
    Raise (ValueError "Quantiles must be in the range [0, 1]")
  else
    match sort a !! Z.to_nat (rank (length a) q i) with
    | Some v => Ok v
    | None => Raise IndexError
    end.

(** [np.quantile(A, q, axis=1, interpolation=i)]: one quantile per row. *)
Definition quantile_axis1 (A : list (list Q)) (q : Q) (i : interpolation)
  : result (list Q) :=
  rmap (fun row => quantile row q i) A.

(** [np.median] of a one-dimensional array. *)
Definition median (a : list Q) : result Q :=
  let s := sort a in
  let n := length a in
  if Nat.even n then
    match s !! (n / 2 - 1)%nat, s !! (n / 2)%nat with
    | Some u, Some v => Ok ((u + v) / 2)
    | _, _ => Raise IndexError
    end
  else
    match s !! (n / 2)%nat with
    | Some v => Ok v
    | None => Raise IndexError
    end.

Definition median_axis1 (A : list (list Q)) : result (list Q) :=
  rmap median A.

(** [np.min] and [np.max] of a one-dimensional array; numpy refuses the
    empty array. *)
Definition min (a : list Q) : result Q :=
  match a with
  | [] => Raise (ValueError "zero-size array to reduction operation minimum which has no identity")
  | x :: a' => Ok (fold_left Qmin a' x)
  end.

Definition max (a : list Q) : result Q :=
  match a with
  | [] => Raise (ValueError "zero-size array to reduction operation maximum which has no identity")
  | x :: a' => Ok (fold_left Qmax a' x)
  end.

(** [np.min(A, axis=1, keepdims=True)]: a column, one singleton row per
    row of [A]. *)
Definition min_axis1_keepdims (A : list (list Q)) : result (list (list Q)) :=
  rmap (fun row => let* v := min row in Ok [v]) A.

Definition max_axis1_keepdims (A : list (list Q)) : result (list (list Q)) :=
  rmap (fun row => let* v := max row in Ok [v]) A.

(** Broadcasting of a binary operation between one row of a matrix and a
    vector: equal lengths pair up, a length of one is stretched, anything
    else is refused. *)
Definition broadcast_row (f : Q -> Q -> Q) (row v : list Q) : result (list Q) :=
  if (length row =? length v)%nat then Ok (zip_with f row v)
  else
    match row, v with
    | [x], _ => Ok (map (f x) v)
    | _, [y] => Ok (map (fun x => f x y) row)
    | _, _ => Raise (ValueError "operands could not be broadcast together")
    end.

(** [A - v] and [A + v] for a matrix [A] and a vector [v]. *)
Definition sub_matrix_vector (A : list (list Q)) (v : list Q) : result (list (list Q)) :=
  rmap (fun row => broadcast_row Qminus row v) A.

Definition add_matrix_vector (A : list (list Q)) (v : list Q) : result (list (list Q)) :=
  rmap (fun row => broadcast_row Qplus row v) A.

(** [np.stack(arrays, axis=1)] of one-dimensional arrays: the arrays
    become the columns. All must have the same length and there must be
    one at least. *)
Definition stack_axis1 (arrays : list (list Q)) : result (list (list Q)) :=
  match arrays with
  | [] => Raise (ValueError "need at least one array to stack")
  | a :: _ =>
      if forallb (fun b => (length b =? length a)%nat) arrays then
        Ok (map (fun i => map (fun b => default 0 (b !! i)) arrays) (seq 0 (length a)))
      else Raise (ValueError "all input arrays must have the same shape")
  end.

(** An index into an axis of length [n], as numpy reads it: a negative
    index counts from the end, anything outside is refused. *)
Definition normalize_index (n : nat) (i : Z) : result nat :=
  if (0 <=? i)%Z && (i <? Z.of_nat n)%Z then Ok (Z.to_nat i)
  else if (- Z.of_nat n <=? i)%Z && (i <? 0)%Z then Ok (Z.to_nat (Z.of_nat n + i))
  else Raise IndexError.

(** [a[idx]] for a list of indices [idx]. *)
Definition take_idx {A : Type} (a : list A) (idx : list nat) : result (list A) :=
  rmap (fun i => match a !! i with Some v => Ok v | None => Raise IndexError end) idx.

(** [A[:, idx]] for an integer array [idx]: the columns of [A] picked in
    the order of [idx]. *)
Definition take_columns (A : list (list Q)) (idx : list Z) : result (list (list Q)) :=
  rmap (fun row =>
          rmap (fun i => let* j := normalize_index (length row) i in
                         match row !! j with
                         | Some v => Ok v
                         | None => Raise IndexError
                         end) idx) A.

(** [a[idx] = v] for a scalar [v]. *)
Fixpoint setitem_scalar {A : Type} (a : list A) (idx : list nat) (v : A) : result (list A) :=
  match idx with
  | [] => Ok a
  | i :: idx' =>
      if (i <? length a)%nat then setitem_scalar (<[i := v]> a) idx' v
      else Raise IndexError
  end.

(** [a[idx] = vs] for an array [vs] of the length of [idx]. *)
Fixpoint setitem_zip {A : Type} (a : list A) (idx : list nat) (vs : list A) : result (list A) :=
  match idx, vs with
  | i :: idx', v :: vs' =>
      if (i <? length a)%nat then setitem_zip (<[i := v]> a) idx' vs'
      else Raise IndexError
  | _, _ => Ok a
  end.

Definition setitem_array {A : Type} (a : list A) (idx : list nat) (vs : list A) : result (list A) :=
  if (length vs =? length idx)%nat then setitem_zip a idx vs
  else
    match vs with
    | [v] => setitem_scalar a idx v
    | _ => Raise (ValueError "shape mismatch: value array could not be broadcast to indexing result")
    end.

End Np.

Example quantile_higher_example :
  Np.quantile [3; 1; 2; 5; 4] (1 - (1#10)) Np.higher = Ok 5.
Proof. reflexivity. Qed.

Example quantile_lower_example :
  Np.quantile [3; 1; 2; 5; 4] (1#10) Np.lower = Ok 1.
Proof. reflexivity. Qed.

Example median_example : Np.median [4; 1; 3; 2] = Ok ((2 + 3) / 2).
Proof. reflexivity. Qed.

(** Where double precision shows. With alpha = 0.7 the difference
    1 - alpha is the double just above 0.3, and among 11 values the rank
    read from above is 4, not the ceiling 3 of 0.3 * 10. With alpha = 0.3
    the difference is the double just below 0.7 and the rank is 7, while
    the exact difference, which is above 0.7, would give 8. *)
Example rank_in_double_precision :
  Np.rank 11 (Binary64.sub 1 (Binary64.fl (7 # 10))) Np.higher = 4%Z
  /\ Qceiling ((1 - (7 # 10)) * 10) = 3%Z
  /\ Np.rank 11 (Binary64.sub 1 (Binary64.fl (3 # 10))) Np.higher = 7%Z
  /\ Qceiling ((1 - Binary64.fl (3 # 10)) * 10) = 8%Z.
Proof. repeat split; vm_compute; reflexivity. Qed.

(** ** The words of the specification for quantiles, minima and maxima *)




Definition is_min (a : list Q) (v : Q) : Prop := v ∈ a /\ Forall (fun x => v <= x) a.
Definition is_max (a : list Q) (v : Q) : Prop := v ∈ a /\ Forall (fun x => x <= v) a.

(** ** What the code needs from its surroundings *)

(** The base regressor of scikit-learn: [hyper] is an unfitted estimator
    (its hyper-parameters, which is all that [clone] keeps), [model] a
    fitted one. [est_fit e X y] is [clone(e).fit(X, y)], which may raise;
    [est_predict] gives one number per row. [LinearRegression] is the
    ordinary-least-squares default. *)
Class Regressor (features hyper model : Type) : Type := {
  est_fit : hyper -> list features -> list Q -> result model;
  est_predict : model -> list features -> list Q;
  est_predict_length :
    forall (m : model) (X : list features), length (est_predict m X) = length X;
  LinearRegression : hyper
}.

(** What the run-time supplies and the code does not control: the
    permutation that the random generator given by [random_state] draws
    for [n] indices in this run (for [None] it is the global generator),
    and the contents of the arrays that [np.empty_like] hands out without
    initialising them. *)
Class Runtime : Type := {
  rng_permutation : option Z -> nat -> list nat;
  rng_permutation_perm :
    forall (seed : option Z) (n : nat), Permutation (rng_permutation seed n) (seq 0 n);
  empty_float : nat -> Q;
  empty_int : nat -> Z
}.

(** ** The part of scikit-learn that the code uses *)

Module Sk.

Section Validation.
Context {features : Type}.

(** [check_X_y(X, y, force_all_finite=False, ...)]: at least one sample,
    and as many labels as rows. *)
Definition check_X_y (X : list features) (y : list Q) : result (list features * list Q) :=
  if (length X =? 0)%nat then
    Raise (ValueError "Found array with 0 sample(s) while a minimum of 1 is required.")
  else if (length X =? length y)%nat then Ok (X, y)
  else Raise (ValueError "Found input variables with inconsistent numbers of samples").

(** [check_array(X, force_all_finite=False, ...)]: at least one sample. *)
Definition check_array (X : list features) : result (list features) :=
  if (length X =? 0)%nat then
    Raise (ValueError "Found array with 0 sample(s) while a minimum of 1 is required.")
  else Ok X.

End Validation.

(** [clone(estimator)] keeps the hyper-parameters; [None] is no estimator. *)
Definition clone {hyper : Type} (e : option hyper) : result hyper :=
  match e with
  | Some h => Ok h
  | None => Raise TypeError
  end.

Inductive cross_validator : Type :=
| KFold (n_splits : Z) (shuffle : bool) (random_state : option Z)
| LeaveOneOut.

(** The constructor [KFold(n_splits=..., shuffle=..., random_state=...)]:
    it wants two folds at least, and refuses a seed without shuffling
    (which [_select_cv] never passes: it erases the seed first). *)
Definition make_KFold (n_splits : Z) (shuffle : bool) (random_state : option Z)
  : result cross_validator :=
  if (n_splits <=? 1)%Z then
    Raise (ValueError "k-fold cross-validation requires at least one train/test split")
  else if negb shuffle && match random_state with Some _ => true | None => false end then
    Raise (ValueError "Setting a random_state has no effect since shuffle is False.")
  else Ok (KFold n_splits shuffle random_state).

Definition mem (i : nat) (l : list nat) : bool := existsb (Nat.eqb i) l.

(** From the test indices of a fold to its (train, test) pair: both are
    read off the boolean mask, so both come in increasing order. *)
Definition train_test (n : nat) (test : list nat) : list nat * list nat :=
  (List.filter (fun i => negb (mem i test)) (seq 0 n),
   List.filter (fun i => mem i test) (seq 0 n)).

(** The first [n mod n_splits] folds have one element more. *)
Definition fold_sizes (n n_splits : nat) : list nat :=
  map (fun i => (n / n_splits + (if i <? n mod n_splits then 1 else 0))%nat)
      (seq 0 n_splits).

(** Consecutive slices of [l] of the given sizes. *)
Fixpoint chunks (sizes : list nat) (l : list nat) : list (list nat) :=
  match sizes with
  | [] => []
  | s :: sizes' => take s l :: chunks sizes' (drop s l)
  end.

(** [cv.split(X)] for [n] rows, as the list of its (train, test) pairs. *)
Definition split `{Runtime} (cv : cross_validator) (n : nat)
  : result (list (list nat * list nat)) :=
  match cv with
  | KFold n_splits shuffle random_state =>
      if (Z.of_nat n <? n_splits)%Z then
        Raise (ValueError "Cannot have number of splits greater than the number of samples")
      else
        let indices := if shuffle then rng_permutation random_state n else seq 0 n in
        Ok (map (train_test n) (chunks (fold_sizes n (Z.to_nat n_splits)) indices))
  | LeaveOneOut =>
      if (n <=? 1)%nat then
        Raise (ValueError "Cannot perform LeaveOneOut with n_samples <= 1")
      else Ok (map (fun i => train_test n [i]) (seq 0 n))
  end.

End Sk.

(** What the code relies on from a splitter over [n] rows: every test
    fold lies inside the rows and has no repetition, the train fold is its
    complement, the test folds are pairwise disjoint and cover the rows. *)
Definition partition_folds (n : nat) (folds : list (list nat * list nat)) : Prop :=
  (forall k tr val, folds !! k = Some (tr, val) ->
     NoDup val /\ NoDup tr
     /\ (forall i, i ∈ val -> (i < n)%nat)
     /\ (forall i, i ∈ tr <-> (i < n)%nat /\ i ∉ val))
  /\ (forall k k' tr val tr' val' i,
        folds !! k = Some (tr, val) -> folds !! k' = Some (tr', val') ->
        i ∈ val -> i ∈ val' -> k = k')
  /\ (forall i, (i < n)%nat -> exists k tr val, folds !! k = Some (tr, val) /\ i ∈ val).

(** A splitter that its constructor accepts. *)
Definition constructed (cv : Sk.cross_validator) : Prop :=
  match cv with
  | Sk.KFold n_splits _ _ => (1 < n_splits)%Z
  | Sk.LeaveOneOut => True
  end.

(** ** Strings and comparisons *)

Definition Qlt_bool (x y : Q) : bool := negb (Qle_bool y x).

Definition startswith (s p : string) : bool := String.prefix p s.

Definition endswith (s p : string) : bool :=
  (String.length p <=? String.length s)%nat
  && String.eqb (substring (String.length s - String.length p) (String.length p) s) p.

Definition str_in (s : string) (l : list string) : bool := existsb (String.eqb s) l.

(** ** mapie/estimators.py *)

Section Estimators.

Context {features hyper model : Type}.
Context `{Reg : Regressor features hyper model}.
Context `{RT : Runtime}.

(** The object: the seven constructor arguments, then the attributes that
    [fit] creates ([None] while the attribute does not exist). *)
Record MapieRegressor : Type := {
  estimator : option hyper;
  alpha : Q;
  method : string;
  n_splits : Z;
  shuffle : bool;
  return_pred : string;
  random_state : option Z;
  single_estimator_ : option model;
  estimators_ : option (list model);
  k_ : option (list Z);
  residuals_ : option (list Q)
}.

Definition valid_methods : list string :=
  ["naive"; "jackknife"; "jackknife_plus"; "jackknife_minmax"; "cv"; "cv_plus"; "cv_minmax"]%string.

Definition valid_return_preds : list string := ["single"; "median"]%string.

Definition __init__ (estimator : option hyper) (alpha : Q) (method : string)
  (n_splits : Z) (shuffle : bool) (return_pred : string) (random_state : option Z)
  : MapieRegressor :=
  {| estimator := estimator; alpha := alpha; method := method; n_splits := n_splits;
     shuffle := shuffle; return_pred := return_pred; random_state := random_state;
     single_estimator_ := None; estimators_ := None; k_ := None; residuals_ := None |}.

(** Attribute assignment. *)
Definition set_estimator (v : option hyper) (self : MapieRegressor) : MapieRegressor :=
  {| estimator := v; alpha := alpha self; method := method self;
     n_splits := n_splits self; shuffle := shuffle self; return_pred := return_pred self;
     random_state := random_state self; single_estimator_ := single_estimator_ self;
     estimators_ := estimators_ self; k_ := k_ self; residuals_ := residuals_ self |}.

Definition set_alpha (v : Q) (self : MapieRegressor) : MapieRegressor :=
  {| estimator := estimator self; alpha := v; method := method self;
     n_splits := n_splits self; shuffle := shuffle self; return_pred := return_pred self;
     random_state := random_state self; single_estimator_ := single_estimator_ self;
     estimators_ := estimators_ self; k_ := k_ self; residuals_ := residuals_ self |}.

Definition set_method (v : string) (self : MapieRegressor) : MapieRegressor :=
  {| estimator := estimator self; alpha := alpha self; method := v;
     n_splits := n_splits self; shuffle := shuffle self; return_pred := return_pred self;
     random_state := random_state self; single_estimator_ := single_estimator_ self;
     estimators_ := estimators_ self; k_ := k_ self; residuals_ := residuals_ self |}.

Definition set_random_state (v : option Z) (self : MapieRegressor) : MapieRegressor :=
  {| estimator := estimator self; alpha := alpha self; method := method self;
     n_splits := n_splits self; shuffle := shuffle self; return_pred := return_pred self;
     random_state := v; single_estimator_ := single_estimator_ self;
     estimators_ := estimators_ self; k_ := k_ self; residuals_ := residuals_ self |}.

Definition set_single_estimator_ (v : model) (self : MapieRegressor) : MapieRegressor :=
  {| estimator := estimator self; alpha := alpha self; method := method self;
     n_splits := n_splits self; shuffle := shuffle self; return_pred := return_pred self;
     random_state := random_state self; single_estimator_ := Some v;
     estimators_ := estimators_ self; k_ := k_ self; residuals_ := residuals_ self |}.

Definition set_estimators_ (v : list model) (self : MapieRegressor) : MapieRegressor :=
  {| estimator := estimator self; alpha := alpha self; method := method self;
     n_splits := n_splits self; shuffle := shuffle self; return_pred := return_pred self;
     random_state := random_state self; single_estimator_ := single_estimator_ self;
     estimators_ := Some v; k_ := k_ self; residuals_ := residuals_ self |}.

Definition set_k_ (v : list Z) (self : MapieRegressor) : MapieRegressor :=
  {| estimator := estimator self; alpha := alpha self; method := method self;
     n_splits := n_splits self; shuffle := shuffle self; return_pred := return_pred self;
     random_state := random_state self; single_estimator_ := single_estimator_ self;
     estimators_ := estimators_ self; k_ := Some v; residuals_ := residuals_ self |}.

Definition set_residuals_ (v : list Q) (self : MapieRegressor) : MapieRegressor :=
  {| estimator := estimator self; alpha := alpha self; method := method self;
     n_splits := n_splits self; shuffle := shuffle self; return_pred := return_pred self;
     random_state := random_state self; single_estimator_ := single_estimator_ self;
     estimators_ := estimators_ self; k_ := k_ self; residuals_ := Some v |}.

(** Attribute access: a missing attribute raises. *)
Definition getattr {A : Type} (name : string) (field : option A) : result A :=
  match field with
  | Some v => Ok v
  | None => Raise (AttributeError name)
  end.

(** The monad of the methods that assign to [self]. *)
Definition M (A : Type) : Type := MapieRegressor -> result A * MapieRegressor.

Definition ret {A : Type} (a : A) : M A := fun self => (Ok a, self).

Definition bind {A B : Type} (c : M A) (k : A -> M B) : M B :=
  fun self =>
    match c self with
    | (Ok a, self') => k a self'
    | (Raise e, self') => (Raise e, self')
    end.

Definition lift {A : Type} (r : result A) : M A := fun self => (r, self).

Definition read {A : Type} (f : MapieRegressor -> A) : M A := fun self => (Ok (f self), self).

Definition assign (f : MapieRegressor -> MapieRegressor) : M unit :=
  fun self => (Ok tt, f self).

End Estimators.

Arguments MapieRegressor : clear implicits.

Declare Scope mapie_scope.
Delimit Scope mapie_scope with mapie.
Notation "'do' x '<-' c ';' k" := (bind c (fun x => k))
  (at level 10, x pattern, c at level 100, k at level 200) : mapie_scope.
Notation "'exec' c ';' k" := (bind c (fun _ => k))
  (at level 10, c at level 100, k at level 200) : mapie_scope.

Section Methods.

Context {features hyper model : Type}.
Context `{Reg : Regressor features hyper model}.
Context `{RT : Runtime}.

Local Open Scope mapie_scope.

Abbreviation self_t := (MapieRegressor hyper model).
Abbreviation Meth := (@M hyper model).

Definition raise {A : Type} (e : exn) : Meth A := lift (Raise e).

(** [MapieRegressor._check_parameters] *)
Definition _check_parameters : Meth unit :=
  do a <- read alpha;
  if negb (Qlt_bool 0 a && Qlt_bool a 1) then
    raise (ValueError "Invalid alpha. Please choose an alpha value between 0 and 1.")
  else
    do m <- read method;
    if negb (str_in m valid_methods) then raise (ValueError "Invalid method.")
    else
      do rp <- read return_pred;
      if negb (str_in rp valid_return_preds) then
        raise (ValueError "Invalid return_pred argument.")
      else
        do e <- read estimator;
        match e with
        | None => assign (set_estimator (Some LinearRegression))
        | Some _ => ret tt
        end.

(** [MapieRegressor._select_cv] *)
Definition _select_cv : Meth Sk.cross_validator :=
  do m <- read method;
  if startswith m "cv" then
    do sh <- read shuffle;
    exec (if negb sh then assign (set_random_state None) else ret tt);
    do ns <- read n_splits;
    do sh' <- read shuffle;
    do rs <- read random_state;
    lift (Sk.make_KFold ns sh' rs)
  else if startswith m "jackknife" then ret Sk.LeaveOneOut
  else raise (ValueError "Invalid method.").

(** The body of the loop of [fit] for fold number [k]; [y_pred] is the
    local array of out-of-fold predictions. *)
Definition fit_fold (X : list features) (y : list Q) (k : nat)
  (fold : list nat * list nat) (y_pred : list Q) : Meth (list Q) :=
  let '(train_fold, val_fold) := fold in
  do ks <- (fun self => (getattr "k_" (k_ self), self));
  do ks' <- lift (Np.setitem_scalar ks val_fold (Z.of_nat k));
  exec assign (set_k_ ks');
  do est <- read estimator;
  do h <- lift (Sk.clone est);
  do X_train <- lift (Np.take_idx X train_fold);
  do y_train <- lift (Np.take_idx y train_fold);
  do e <- lift (est_fit h X_train y_train);
  do es <- (fun self => (getattr "estimators_" (estimators_ self), self));
  exec assign (set_estimators_ (es ++ [e]));
  do X_val <- lift (Np.take_idx X val_fold);
  lift (Np.setitem_array y_pred val_fold (est_predict e X_val)).

(** The loop [for k, (train_fold, val_fold) in enumerate(cv.split(X))],
    from fold number [k] on. *)
Fixpoint fit_folds (X : list features) (y : list Q) (k : nat)
  (folds : list (list nat * list nat)) (y_pred : list Q) : Meth (list Q) :=
  match folds with
  | [] => ret y_pred
  | fold :: folds' =>
      do y_pred' <- fit_fold X y k fold y_pred;
      fit_folds X y (S k) folds' y_pred'
  end.

(** [np.empty_like(y, dtype=float)] and [np.empty_like(y, dtype=int)]. *)
Definition empty_like_float (y : list Q) : list Q := map empty_float (seq 0 (length y)).
Definition empty_like_int (y : list Q) : list Z := map empty_int (seq 0 (length y)).

(** [MapieRegressor.fit]; the object it returns is the final [self]. *)
Definition fit (X : list features) (y : list Q) : Meth unit :=
  exec _check_parameters;
  do Xy <- lift (Sk.check_X_y X y);
  let '(X, y) := Xy in
  do est <- read estimator;
  do h <- lift (Sk.clone est);
  do single <- lift (est_fit h X y);
  exec assign (set_single_estimator_ single);
  do m <- read method;
  do y_pred <-
    (if String.eqb m "naive" then
       do s <- (fun self => (getattr "single_estimator_" (single_estimator_ self), self));
       ret (est_predict s X)
     else
       do cv <- _select_cv;
       exec assign (set_estimators_ []);
       let y_pred := empty_like_float y in
       exec assign (set_k_ (empty_like_int y));
       do folds <- lift (Sk.split cv (length X));
       fit_folds X y 0 folds y_pred);
  assign (set_residuals_ (Np.abs_diff y y_pred)).

(** [check_is_fitted(self, ["single_estimator_"])] *)
Definition check_is_fitted (self : self_t) : result unit :=
  match single_estimator_ self with
  | Some _ => Ok tt
  | None => Raise NotFittedError
  end.

(** Pieces of [MapieRegressor.predict], in the order of the code. *)

(** [np.stack([e.predict(X) for e in self.estimators_], axis=1)] *)
Definition predict_multi (self : self_t) (X : list features) : result (list (list Q)) :=
  let* es := getattr "estimators_" (estimators_ self) in
  Np.stack_axis1 (map (fun e => est_predict e X) es).

(** The re-indexing of the columns, done for ["cv_plus"] only. *)
Definition reindex (self : self_t) (y_pred_multi : list (list Q)) : result (list (list Q)) :=
  if String.eqb (method self) "cv_plus" then
    let* ks := getattr "k_" (k_ self) in
    Np.take_columns y_pred_multi ks
  else Ok y_pred_multi.

(** [lower_bounds] and [upper_bounds]. *)
Definition bounds (self : self_t) (y_pred_multi : list (list Q))
  : result (list (list Q) * list (list Q)) :=
  if endswith (method self) "plus" then
    let* r := getattr "residuals_" (residuals_ self) in
    let* lower_bounds := Np.sub_matrix_vector y_pred_multi r in
    let* r' := getattr "residuals_" (residuals_ self) in
    let* upper_bounds := Np.add_matrix_vector y_pred_multi r' in
    Ok (lower_bounds, upper_bounds)
  else if endswith (method self) "minmax" then
    let* mins := Np.min_axis1_keepdims y_pred_multi in
    let* r := getattr "residuals_" (residuals_ self) in
    let* lower_bounds := Np.sub_matrix_vector mins r in
    let* maxs := Np.max_axis1_keepdims y_pred_multi in
    let* r' := getattr "residuals_" (residuals_ self) in
    let* upper_bounds := Np.add_matrix_vector maxs r' in
    Ok (lower_bounds, upper_bounds)
  else Raise (ValueError "Invalid method.").

(** [MapieRegressor.predict]: the rows of the table are
    [[center; lower; upper]]. *)
Definition predict (self : self_t) (X : list features) : result (list (list Q)) :=
  let* _ := check_is_fitted self in
  let* X := Sk.check_array X in
  let* single := getattr "single_estimator_" (single_estimator_ self) in
  let y_pred := est_predict single X in
  let* columns :=
    if str_in (method self) ["naive"; "jackknife"; "cv"]%string then
      let* r := getattr "residuals_" (residuals_ self) in
      let* quantile := Np.quantile r (Binary64.sub 1 (alpha self)) Np.higher in
      let y_pred_low := map (fun c => c - quantile) y_pred in
      let y_pred_up := map (fun c => c + quantile) y_pred in
      Ok (y_pred, y_pred_low, y_pred_up)
    else
      let* y_pred_multi := predict_multi self X in
      let* y_pred :=
        if String.eqb (return_pred self) "median" then Np.median_axis1 y_pred_multi
        else Ok y_pred in
      let* y_pred_multi := reindex self y_pred_multi in
      let* lu := bounds self y_pred_multi in
      let '(lower_bounds, upper_bounds) := lu in
      let* y_pred_low := Np.quantile_axis1 lower_bounds (alpha self) Np.lower in
      let* y_pred_up :=
        Np.quantile_axis1 upper_bounds (Binary64.sub 1 (alpha self)) Np.higher in
      Ok (y_pred, y_pred_low, y_pred_up) in
  let '(y_pred, y_pred_low, y_pred_up) := columns in
  Np.stack_axis1 [y_pred; y_pred_low; y_pred_up].

End Methods.

(** ** Vocabulary for the state that [fit] leaves *)

Section FittedState.

Context {features hyper model : Type}.
Context `{Reg : Regressor features hyper model}.

(** The attributes that the loop of [fit] never assigns. *)
Definition frame (s s' : MapieRegressor hyper model) : Prop :=
  estimator s' = estimator s /\ alpha s' = alpha s /\ method s' = method s
  /\ n_splits s' = n_splits s /\ shuffle s' = shuffle s
  /\ return_pred s' = return_pred s /\ random_state s' = random_state s
  /\ single_estimator_ s' = single_estimator_ s /\ residuals_ s' = residuals_ s.

(** [e] is the model of [fold]: a clone of the estimator [h] fitted on the
    training rows of the fold, and on those only. *)
Definition fold_model (X : list features) (y : list Q) (h : hyper)
  (fold : list nat * list nat) (e : model) : Prop :=
  exists X_train y_train,
    Np.take_idx X (fst fold) = Ok X_train
    /\ Np.take_idx y (fst fold) = Ok y_train
    /\ est_fit h X_train y_train = Ok e.

(** On the validation rows of [fold], [y_pred] holds the predictions of
    [e] for those rows. *)
Definition out_of_fold (X : list features) (fold : list nat * list nat) (e : model)
  (y_pred : list Q) : Prop :=
  exists X_val,
    Np.take_idx X (snd fold) = Ok X_val
    /\ forall p i, snd fold !! p = Some i -> y_pred !! i = est_predict e X_val !! p.

(** The models [es], the fold assignment [ks] and the out-of-fold
    predictions [y_pred] that the loop of [fit] leaves for [folds]: one
    model per fold, in the order of the folds; every validation row is
    assigned the number of its fold. *)
Definition trained_folds (X : list features) (y : list Q) (h : hyper)
  (folds : list (list nat * list nat)) (es : list model) (ks : list Z)
  (y_pred : list Q) : Prop :=
  length es = length folds /\ length ks = length y /\ length y_pred = length y
  /\ forall j fold, folds !! j = Some fold ->
       exists e, es !! j = Some e
                 /\ fold_model X y h fold e
                 /\ out_of_fold X fold e y_pred
                 /\ forall i, i ∈ snd fold -> ks !! i = Some (Z.of_nat j).

(** The configuration passes [_check_parameters]. *)
Definition valid_parameters (s : MapieRegressor hyper model) : Prop :=
  0 < alpha s /\ alpha s < 1
  /\ str_in (method s) valid_methods = true
  /\ str_in (return_pred s) valid_return_preds = true.

(** The splitter that [_select_cv] builds from the configuration, given
    the [random_state] that it leaves in the object. *)
Definition selected_cv (s : MapieRegressor hyper model) (rs : option Z) : Sk.cross_validator :=
  if startswith (method s) "cv" then Sk.KFold (n_splits s) (shuffle s) rs
  else Sk.LeaveOneOut.

(** What a successful [fit X y] has done to the object: [self] before,
    [self'] after. *)
Definition fitted `{Runtime} (X : list features) (y : list Q)
  (self self' : MapieRegressor hyper model) : Prop :=
  valid_parameters self /\ X <> [] /\ length X = length y
  /\ exists h single,
      h = default LinearRegression (estimator self)
      /\ estimator self' = Some h
      /\ alpha self' = alpha self /\ method self' = method self
      /\ n_splits self' = n_splits self /\ shuffle self' = shuffle self
      /\ return_pred self' = return_pred self
      /\ est_fit h X y = Ok single /\ single_estimator_ self' = Some single
      /\ if String.eqb (method self) "naive" then
           random_state self' = random_state self
           /\ estimators_ self' = estimators_ self /\ k_ self' = k_ self
           /\ residuals_ self' = Some (Np.abs_diff y (est_predict single X))
         else
           random_state self'
           = (if startswith (method self) "cv" && negb (shuffle self) then None
              else random_state self)
           /\ exists folds es ks y_pred,
               Sk.split (selected_cv self (random_state self')) (length X) = Ok folds
               /\ partition_folds (length X) folds
               /\ estimators_ self' = Some es /\ k_ self' = Some ks
               /\ residuals_ self' = Some (Np.abs_diff y y_pred)
               /\ trained_folds X y h folds es ks y_pred.

(** The estimator [h] can be fitted on every non-empty selection of the
    rows. *)
Definition trainable (h : hyper) (X : list features) (y : list Q) : Prop :=
  forall idx X_train y_train,
    idx <> [] ->
    Np.take_idx X idx = Ok X_train -> Np.take_idx y idx = Ok y_train ->
    exists e, est_fit h X_train y_train = Ok e.

(** The configuration can split [n] rows: nothing to split for "naive",
    between 2 and [n] folds for the "cv" methods, 2 rows at least for the
    "jackknife" methods. *)
Definition splittable (s : MapieRegressor hyper model) (n : nat) : Prop :=
  method s = "naive"%string
  \/ (startswith (method s) "cv" = true /\ (2 <= n_splits s <= Z.of_nat n)%Z)
  \/ (startswith (method s) "cv" = false /\ startswith (method s) "jackknife" = true
      /\ (2 <= n)%nat).

End FittedState.

(** ** Vocabulary for the role of the seed *)

Section SeedVocabulary.

Context {hyper model : Type}.

(** Two objects with shuffle off that differ at most in [random_state]. *)
Definition same_but_seed (s1 s2 : MapieRegressor hyper model) : Prop :=
  shuffle s1 = false /\ set_random_state None s1 = set_random_state None s2.

(** A method that cannot tell two such objects apart. *)
Definition seed_blind {A : Type} (c : @M hyper model A) : Prop :=
  forall s1 s2, same_but_seed s1 s2 ->
    fst (c s1) = fst (c s2) /\ same_but_seed (snd (c s1)) (snd (c s2)).

End SeedVocabulary.

(** ** Vocabulary for the variants of a method *)

Section VariantVocabulary.

Context {hyper model : Type}.

(** Two valid methods other than "naive" that are both "cv" methods or
    both "jackknife" methods. *)
Definition same_family (m1 m2 : string) : Prop :=
  str_in m1 valid_methods = true /\ str_in m2 valid_methods = true
  /\ String.eqb m1 "naive" = false /\ String.eqb m2 "naive" = false
  /\ startswith m1 "cv" = startswith m2 "cv".

(** The second object is the first one with [m2] for its method [m1]. *)
Definition same_but_method (m1 m2 : string) (s1 s2 : MapieRegressor hyper model) : Prop :=
  method s1 = m1 /\ s2 = set_method m2 s1.

(** A method that does the same on two such objects. *)
Definition variant_blind (m1 m2 : string) {A : Type} (c : @M hyper model A) : Prop :=
  forall s1 s2, same_but_method m1 m2 s1 s2 ->
    fst (c s1) = fst (c s2) /\ same_but_method m1 m2 (snd (c s1)) (snd (c s2)).

End VariantVocabulary.

(** ** Vocabulary for the role of alpha *)

Section AlphaVocabulary.

Context {hyper model : Type}.

(** The second object is the first one with [a2] for its alpha [a1]. *)
Definition same_but_alpha (a1 a2 : Q) (s1 s2 : MapieRegressor hyper model) : Prop :=
  alpha s1 = a1 /\ s2 = set_alpha a2 s1.

(** A method that does the same on two such objects. *)
Definition alpha_blind (a1 a2 : Q) {A : Type} (c : @M hyper model A) : Prop :=
  forall s1 s2, same_but_alpha a1 a2 s1 s2 ->
    fst (c s1) = fst (c s2) /\ same_but_alpha a1 a2 (snd (c s1)) (snd (c s2)).

End AlphaVocabulary.

(** ** mapie/utils.py *)

Module Utils.

(** Python's [a / b] on floats: a division by zero raises, a quotient
    too large for a double is infinite. *)
Definition truediv (a b : Q) : result Binary64.float :=
  if Qeq_bool b 0 then Raise ZeroDivisionError else Ok (Binary64.div a b).

Definition too_low : string :=
  "Number of samples of the score is too low, 1/alpha (or 1/(1 - alpha)) must be lower than the number of samples.".

(** [check_alpha_and_n_samples]; the [or] of the test evaluates its second
    operand only when the first is false. *)
Fixpoint check_alpha_and_n_samples (alphas : list Q) (n : Z) : result unit :=
  match alphas with
  | [] => Ok tt
  | alpha :: alphas' =>
      let* a := truediv 1 alpha in
      if Binary64.int_lt n a then Raise (ValueError too_low)
      else
        let* b := truediv 1 (Binary64.sub 1 alpha) in
        if Binary64.int_lt n b then Raise (ValueError too_low)
        else check_alpha_and_n_samples alphas' n
  end.

(** A float that may be nan: [None] is nan. *)
Definition isnan (X : list (list (option Q))) : list (list bool) :=
  map (map (fun c => match c with None => true | Some _ => false end)) X.

(** [np.all(B, axis=1)] and [np.any(b, axis=0)]. *)
Definition all_axis1 (B : list (list bool)) : list bool := map (forallb id) B.
Definition any_axis0 (b : list bool) : bool := existsb id b.

Definition at_least_one_point : string :=
  "WARNING: at least one point of training set belongs to every resamplings. Increase the number of resamplings".

(** [check_nan_in_aposteriori_prediction]: the value it returns (nothing,
    or the exception it raises) and the warnings it has emitted. *)
Definition check_nan_in_aposteriori_prediction (X : list (list (option Q)))
  : result unit * list string :=
  if any_axis0 (all_axis1 (isnan X)) then (Ok tt, [at_least_one_point])
  else (Ok tt, []).

(** The entries of [a] at the places where [mask] is true. *)
Definition kept {A : Type} (a : list A) (mask : list bool) : list A :=
  map fst (List.filter snd (zip a mask)).

(** [a[mask]] for a boolean array [mask], which must be as long as [a]. *)
Definition take_mask {A : Type} (a : list A) (mask : list bool) : result (list A) :=
  if (length mask =? length a)%nat then Ok (kept a mask) else Raise IndexError.

(** [w != 0] *)
Definition non_null (w : Q) : bool := negb (Qeq_bool w 0).

(** The argument [sample_weight] when it is not [None]: a number or a
    one-dimensional array. *)
Inductive weights : Type :=
| Number (w : Q)
| Weights (ws : list Q).

(** The shape [(n,)] of a one-dimensional array, as Python prints it. *)
Definition shape1 (n : nat) : string :=
  ("(" ++ NilEmpty.string_of_uint (Nat.to_uint n) ++ ",)")%string.

Definition no_sample : string :=
  "Found array with 0 sample(s) (shape=(0,)) while a minimum of 1 is required.".

(** [_check_sample_weight(sample_weight, X)] of scikit-learn: a number is
    repeated for every row; an array must hold one weight at least, and
    one weight per row. *)
Definition _check_sample_weight {features : Type} (sample_weight : weights)
  (X : list features) : result (list Q) :=
  match sample_weight with
  | Number w => Ok (repeat w (length X))
  | Weights ws =>
      if (length ws =? 0)%nat then Raise (ValueError no_sample)
      else if (length ws =? length X)%nat then Ok ws
      else
        Raise (ValueError ("sample_weight.shape == " ++ shape1 (length ws)
                           ++ ", expected " ++ shape1 (length X) ++ "!"))
  end.

(** [check_null_weight] *)
Definition check_null_weight {features : Type} (sample_weight : option weights)
  (X : list features) (y : list Q)
  : result (option (list Q) * list features * list Q) :=
  match sample_weight with
  | None => Ok (None, X, y)
  | Some sw =>
      let* sample_weight := _check_sample_weight sw X in
      let non_null_weight := map non_null sample_weight in
      let* X' := take_mask X non_null_weight in
      let* y' := take_mask y non_null_weight in
      let* sample_weight' := take_mask sample_weight non_null_weight in
      Ok (Some sample_weight', X', y')
  end.

(** What [check_alpha] looks at in the array [alpha_np]: the number of its
    dimensions, the type of its elements and, for an array of floats, its
    elements ([None] is nan). *)
Inductive dtype : Type := float64 | float32 | int64 | other_dtype.

Record ndarray : Type := {
  ndim : nat;
  dtype_of : dtype;
  values : list (option Q)
}.

(** The argument of [check_alpha]: [None], a float, an Iterable (given by
    the array that [np.array] makes of it) or anything else, such as an
    int. *)
Inductive alpha_arg : Type :=
| ANone
| AFloat (x : option Q)
| AIterable (alpha_np : ndarray)
| AOther.

(** [x <= 0] and [x >= 1] on floats: a comparison with nan is false. *)
Definition le_zero (x : option Q) : bool :=
  match x with Some q => Qle_bool q 0 | None => false end.

Definition ge_one (x : option Q) : bool :=
  match x with Some q => Qle_bool 1 q | None => false end.

Definition is_float (d : dtype) : bool :=
  match d with float64 | float32 => true | _ => false end.

(** [check_alpha] *)
Definition check_alpha (alpha : alpha_arg) : result (option ndarray) :=
  match alpha with
  | ANone => Ok None
  | _ =>
      let* alpha_np :=
        match alpha with
        | AFloat x => Ok {| ndim := 1; dtype_of := float64; values := [x] |}
        | AIterable a => Ok a
        | _ => Raise (ValueError "Invalid alpha. Allowed values are float or Iterable.")
        end in
      if negb (ndim alpha_np =? 1)%nat then
        Raise (ValueError "Invalid alpha. Please provide a one-dimensional list of values.")
      else if negb (is_float (dtype_of alpha_np)) then
        Raise (ValueError "Invalid alpha. Allowed values are Iterable of floats.")
      else if existsb (fun x => le_zero x || ge_one x) (values alpha_np) then
        Raise (ValueError "Invalid alpha. Allowed values are between 0 and 1.")
      else Ok (Some alpha_np)
  end.

(** The product of two floats: nan as soon as one of them is nan. *)
Definition fmul (a b : option Q) : option Q :=
  match a, b with
  | Some x, Some y => Some (x * y)
  | _, _ => None
  end.

(** Broadcasting of a binary operation between two one-dimensional
    arrays, as [Np.broadcast_row] has it. *)
Definition broadcast {A : Type} (f : A -> A -> A) (u v : list A) : result (list A) :=
  if (length u =? length v)%nat then Ok (zip_with f u v)
  else
    match u, v with
    | [x], _ => Ok (map (f x) v)
    | _, [y] => Ok (map (fun x => f x y) u)
    | _, _ => Raise (ValueError "operands could not be broadcast together")
    end.

(** [x * B] for a vector [x] and a matrix [B]. *)
Definition mul_vector_matrix (x : list (option Q)) (B : list (list (option Q)))
  : result (list (list (option Q))) :=
  rmap (fun row => broadcast fmul x row) B.

(** [phi1D]; [fun] is any function from matrices to vectors, and it may
    raise. *)
Definition phi1D (x : list (option Q)) (B : list (list (option Q)))
  (fun_ : list (list (option Q)) -> result (list (option Q))) : result (list (option Q)) :=
  let* xB := mul_vector_matrix x B in
  fun_ xB.

(** [buff[ind] = res] in [np.apply_along_axis]: the result for a row goes
    into a row of the length of the first result, stretched if it is a
    single value. *)
Definition store_row {A : Type} (n : nat) (res : list A) : result (list A) :=
  if (length res =? n)%nat then Ok res
  else
    match res with
    | [v] => Ok (repeat v n)
    | _ => Raise (ValueError "could not broadcast input array")
    end.

(** [np.apply_along_axis(func1d, axis=1, arr=arr)] for a matrix [arr] and
    a function that returns vectors: the first result fixes the length
    of the rows. *)
Definition apply_along_axis1 {A B : Type} (func1d : list A -> result (list B))
  (arr : list (list A)) : result (list (list B)) :=
  match arr with
  | [] => Raise (ValueError "Cannot apply_along_axis when any iteration dimensions are 0")
  | x0 :: rest =>
      let* res := func1d x0 in
      let* buff := rmap (fun x => let* r := func1d x in store_row (length res) r) rest in
      Ok (res :: buff)
  end.

(** [phi2D] *)
Definition phi2D (A B : list (list (option Q)))
  (fun_ : list (list (option Q)) -> result (list (option Q)))
  : result (list (list (option Q))) :=
  apply_along_axis1 (fun x => phi1D x B fun_) A.

(** [lambda x: np.nanmean(x, axis=1)], the aggregation of the docstrings:
    the mean of the entries of a row that are not nan, nan when there is
    none. *)
Definition nanmean (row : list (option Q)) : option Q :=
  match omap id row with
  | [] => None
  | vs => Some (Qred (fold_right Qplus 0 vs / inject_Z (Z.of_nat (length vs))))
  end.

Definition nanmean_axis1 (X : list (list (option Q))) : result (list (option Q)) :=
  Ok (map nanmean X).

End Utils.

(** ** Concrete surroundings, to run the code on examples *)

Module Toy.

(** Two regressors on one feature: [Mean] predicts the mean of the
    training labels (scikit-learn's [DummyRegressor]); [OLS] is ordinary
    least squares with an intercept (scikit-learn's [LinearRegression]). *)
Inductive hyper : Type := Mean | OLS.

Definition sum (l : list Q) : Q := fold_right Qplus 0 l.

Definition mean (l : list Q) : Q := sum l / inject_Z (Z.of_nat (length l)).

(** A fitted model is a line, [(slope, intercept)]. *)
Definition fit_line (h : hyper) (X : list Q) (y : list Q) : result (Q * Q) :=
  match X with
  | [] => Raise (ValueError "Found array with 0 sample(s) while a minimum of 1 is required.")
  | _ =>
      match h with
      | Mean => Ok (0, Qred (mean y))
      | OLS =>
          let mx := mean X in
          let my := mean y in
          let sxx := sum (map (fun x => (x - mx) * (x - mx)) X) in
          let sxy := sum (zip_with (fun x v => (x - mx) * (v - my)) X y) in
          let slope := if Qeq_bool sxx 0 then 0 else Qred (sxy / sxx) in
          Ok (slope, Qred (my - slope * mx))
      end
  end.

Definition predict_line (m : Q * Q) (X : list Q) : list Q :=
  map (fun x => Qred (snd m + fst m * x)) X.

#[export] Instance regressor : Regressor Q hyper (Q * Q) := {|
  est_fit := fit_line;
  est_predict := predict_line;
  est_predict_length := fun m X => length_map _ X;
  LinearRegression := OLS
|}.

(** A run-time whose generator leaves the indices in order, and one whose
    generator reverses them; both hand out zeroed arrays. *)
Definition in_order : Runtime := {|
  rng_permutation := fun _ n => seq 0 n;
  rng_permutation_perm := fun _ n => Permutation_refl (seq 0 n);
  empty_float := fun _ => 0;
  empty_int := fun _ => 0%Z
|}.

Definition reversing : Runtime := {|
  rng_permutation := fun _ n => rev (seq 0 n);
  rng_permutation_perm := fun _ n => Permutation_sym (Permutation_rev (seq 0 n));
  empty_float := fun _ => 0;
  empty_int := fun _ => 0%Z
|}.

(** The example of the docstring of [MapieRegressor]. *)
Definition X_toy : list Q := [0; 1; 2; 3; 4; 5].
Definition y_toy : list Q := [5; 75 # 10; 95 # 10; 105 # 10; 125 # 10; 15].

Definition pireg : MapieRegressor hyper (Q * Q) :=
  __init__ (Some OLS) (Binary64.fl (1 # 10)) "jackknife_plus" 5 true "single" None.

(** The same data with the method "naive". *)
Definition naive : MapieRegressor hyper (Q * Q) :=
  __init__ (Some OLS) (Binary64.fl (1 # 10)) "naive" 5 true "single" None.

(** [MapieRegressor()] with every argument at its default. *)
Definition by_default : MapieRegressor hyper (Q * Q) :=
  __init__ None (Binary64.fl (1 # 10)) "cv_plus" 5 true "single" None.

(** Five training samples. *)
Definition X_five : list Q := [0; 1; 2; 3; 4].
Definition y_five : list Q := [1; 3; 2; 5; 4].

(** Two flat halves: the two fold models of an unshuffled 2-fold split are
    the constants 1 and 0, while the line through all four points climbs. *)
Definition X_steps : list Q := [0; 1; 2; 3].
Definition y_steps : list Q := [0; 0; 1; 1].

(** The defaults, but two folds and no shuffling. *)
Definition two_folds : MapieRegressor hyper (Q * Q) :=
  __init__ None (Binary64.fl (1 # 10)) "cv_plus" 2 false "single" None.

Definition jackknife_minmax_median : MapieRegressor hyper (Q * Q) :=
  __init__ (Some OLS) (Binary64.fl (1 # 10)) "jackknife_minmax" 5 true "median" None.

(** A k-fold configuration without shuffling, with a seed and without an
    estimator. *)
Definition unshuffled : MapieRegressor hyper (Q * Q) :=
  __init__ None (Binary64.fl (1 # 10)) "cv_plus" 2 false "single" (Some 42%Z).

(** Eleven training rows whose labels have mean 0 and absolute values
    0, 1, 1, 2, 3, 4, 4, 5, 5, 5, 6 in ascending order, and the method
    "naive" on the mean regressor with alpha = 0.7. *)
Definition X_eleven : list Q := [0; 1; 2; 3; 4; 5; 6; 7; 8; 9; 10].
Definition y_eleven : list Q := [0; 1; -1; 2; -3; 4; -4; 5; -5; 6; -5].

Definition naive_seven_tenths : MapieRegressor hyper (Q * Q) :=
  __init__ (Some Mean) (Binary64.fl (7 # 10)) "naive" 5 true "single" None.

End Toy.

(** The code as run on the toy regressors, generator in order. *)
Abbreviation toy_fit := (@fit Q Toy.hyper (Q * Q) Toy.regressor Toy.in_order).
Abbreviation toy_predict := (@predict Q Toy.hyper (Q * Q) Toy.regressor).
Abbreviation toy_predict_multi := (@predict_multi Q Toy.hyper (Q * Q) Toy.regressor).

(** * Properties *)

(** ** Results *)

Lemma rbind_ok {A B : Type} (c : result A) (k : A -> result B) (b : B) :
  rbind c k = Ok b -> exists a, c = Ok a /\ k a = Ok b.
Proof. destruct c as [a|e]; simpl; [eauto | discriminate]. Qed.

Ltac inv_result :=
  repeat match goal with
  | H : rbind _ _ = Ok _ |- _ =>
      let a := fresh "a" in
      let Ha := fresh "Ha" in
      apply rbind_ok in H; destruct H as (a & Ha & H)
  | H : Ok _ = Ok _ |- _ => injection H as H; try subst
  | H : Raise _ = Ok _ |- _ => discriminate H
  | H : Ok _ = Raise _ |- _ => discriminate H
  end.

Lemma rmap_Forall2 {A B : Type} (f : A -> result B) (l : list A) (l' : list B) :
  rmap f l = Ok l' <-> Forall2 (fun a b => f a = Ok b) l l'.
Proof.
  revert l'. induction l as [|a l IH]; intros l'; simpl.
  - split; intros H.
    + injection H as <-. constructor.
    + inversion H. reflexivity.
  - split; intros H.
    + inv_result. constructor; [assumption | now apply IH].
    + inversion H as [|? b ? bs Hab Hl]; subst.
      rewrite Hab. simpl. apply IH in Hl. rewrite Hl. reflexivity.
Qed.

Lemma rmap_length {A B : Type} (f : A -> result B) (l : list A) (l' : list B) :
  rmap f l = Ok l' -> length l' = length l.
Proof. intros H. apply rmap_Forall2 in H. symmetry. eapply Forall2_length, H. Qed.

Lemma rmap_lookup {A B : Type} (f : A -> result B) (l : list A) (l' : list B) (i : nat) (a : A) :
  rmap f l = Ok l' -> l !! i = Some a -> exists b, l' !! i = Some b /\ f a = Ok b.
Proof.
  intros H Ha. apply rmap_Forall2 in H.
  destruct (Forall2_lookup_l _ _ _ _ _ H Ha) as (b & Hb & Hf). eauto.
Qed.

Lemma rmap_lookup_r {A B : Type} (f : A -> result B) (l : list A) (l' : list B) (i : nat) (b : B) :
  rmap f l = Ok l' -> l' !! i = Some b -> exists a, l !! i = Some a /\ f a = Ok b.
Proof.
  intros H Hb. apply rmap_Forall2 in H.
  destruct (Forall2_lookup_r _ _ _ _ _ H Hb) as (a & Ha & Hf). eauto.
Qed.

Lemma rmap_total {A B : Type} (f : A -> result B) (l : list A) :
  Forall (fun a => exists b, f a = Ok b) l -> exists l', rmap f l = Ok l'.
Proof.
  induction 1 as [|a l (b & Hb) _ (l' & Hl')]; simpl.
  - eauto.
  - rewrite Hb, Hl'. simpl. eauto.
Qed.

Lemma rmap_ext {A B : Type} (f g : A -> result B) (l : list A) :
  Forall (fun a => f a = g a) l -> rmap f l = rmap g l.
Proof.
  induction 1 as [|a l Ha _ IH]; simpl; [reflexivity|].
  rewrite Ha, IH. reflexivity.
Qed.

Lemma rmap_pure {A B : Type} (f : A -> B) (l : list A) :
  rmap (fun a => Ok (f a)) l = Ok (map f l).
Proof. induction l as [|a l IH]; simpl; [reflexivity|]. rewrite IH. reflexivity. Qed.

(** ** Double precision *)

Module Binary64Facts.
Import Binary64.

Lemma pow2_pos (e : Z) : 0 < 2 ^ e.
Proof. apply Qpower_0_lt. reflexivity. Qed.

Lemma pow2_nonzero (e : Z) : ~ 2 ^ e == 0.
Proof. pose proof (pow2_pos e). lra. Qed.

Lemma pow2_plus (a b : Z) : 2 ^ (a + b) == 2 ^ a * 2 ^ b.
Proof. apply Qpower_plus. discriminate. Qed.

Lemma pow2_le (a b : Z) : (a <= b)%Z -> 2 ^ a <= 2 ^ b.
Proof. intros H. apply Qpower_le_compat_l; [exact H | discriminate]. Qed.

Lemma pow2_lt (a b : Z) : (a < b)%Z -> 2 ^ a < 2 ^ b.
Proof. intros H. apply Qpower_lt_compat_l; [exact H | reflexivity]. Qed.

Lemma pow2_Z (k : Z) : (0 <= k)%Z -> inject_Z (2 ^ k) == 2 ^ k.
Proof. intros H. now rewrite Zpower_Qpower. Qed.

(** *** Rounding to the nearest integer *)

Lemma rne_bounds (x : Q) : (Qfloor x <= rne x <= Qfloor x + 1)%Z.
Proof.
  unfold rne. destruct (Qcompare _ _); [destruct (Z.even _)| |]; lia.
Qed.

Lemma rne_Z (k : Z) : rne (inject_Z k) = k.
Proof.
  unfold rne. rewrite Qfloor_Z.
  destruct (Qcompare_spec (inject_Z k - inject_Z k) (1 # 2)) as [H|H|H];
    [lra | reflexivity | lra].
Qed.

Lemma rne_comp (x y : Q) : x == y -> rne x = rne y.
Proof.
  intros H. unfold rne. rewrite (Qfloor_comp _ _ H).
  assert (E : x - inject_Z (Qfloor y) == y - inject_Z (Qfloor y)) by (rewrite H; reflexivity).
  now rewrite (Qcompare_comp _ _ E (1 # 2) (1 # 2) (Qeq_refl _)).
Qed.

Lemma rne_monotone (x y : Q) : x <= y -> (rne x <= rne y)%Z.
Proof.
  intros H.
  pose proof (Qfloor_resp_le _ _ H) as Hf.
  pose proof (rne_bounds x) as Hx. pose proof (rne_bounds y) as Hy.
  destruct (Z.eq_dec (Qfloor x) (Qfloor y)) as [E|E]; [|lia].
  unfold rne in *. rewrite <- E in *.
  destruct (Qcompare_spec (x - inject_Z (Qfloor x)) (1 # 2)) as [H1|H1|H1];
    destruct (Qcompare_spec (y - inject_Z (Qfloor x)) (1 # 2)) as [H2|H2|H2];
    try lia; try lra; destruct (Z.even (Qfloor x)); lia.
Qed.

Lemma rne_ge (k : Z) (x : Q) : inject_Z k <= x -> (k <= rne x)%Z.
Proof. intros H. rewrite <- (rne_Z k). now apply rne_monotone. Qed.

Lemma rne_le (k : Z) (x : Q) : x <= inject_Z k -> (rne x <= k)%Z.
Proof. intros H. rewrite <- (rne_Z k). now apply rne_monotone. Qed.

(** *** The binade of a positive rational *)

Lemma ilog2_spec (x : Q) : 0 < x -> 2 ^ ilog2 x <= x /\ x < 2 ^ (ilog2 x + 1).
Proof.
  intros Hx. unfold ilog2.
  destruct (Qle_bool 1 x) eqn:E.
  - apply Qle_bool_iff in E.
    assert (Hf : (1 <= Qfloor x)%Z).
    { change 1%Z with (Qfloor 1). now apply Qfloor_resp_le. }
    destruct (Z.log2_spec (Qfloor x) ltac:(lia)) as [Hlo Hhi].
    pose proof (Z.log2_nonneg (Qfloor x)) as Hk.
    split.
    + rewrite <- pow2_Z by exact Hk.
      eapply Qle_trans; [|apply Qfloor_le]. now rewrite <- Zle_Qle.
    + rewrite <- pow2_Z by lia.
      eapply Qlt_le_trans; [apply Qlt_floor|]. rewrite <- Zle_Qle.
      change (Z.succ (Z.log2 (Qfloor x))) with (Z.log2 (Qfloor x) + 1)%Z in Hhi. lia.
  - assert (Hx1 : x < 1).
    { apply Qnot_le_lt. intros H. apply Qle_bool_iff in H. congruence. }
    assert (Hy : 1 < / x).
    { apply Qlt_shift_inv_l; [exact Hx | lra]. }
    set (c := Qceiling (/ x)).
    assert (Hc : (1 < c)%Z).
    { rewrite Zlt_Qlt. eapply Qlt_le_trans; [exact Hy | apply Qle_ceiling]. }
    destruct (Z.log2_up_spec c Hc) as [Hlo Hhi].
    pose proof (Z.log2_up_pos c Hc) as Hk.
    set (k := Z.log2_up c) in *.
    assert (Hinv : x * / x == 1) by (apply Qmult_inv_r; lra).
    split.
    + rewrite Qpower_opp.
      apply Qle_shift_inv_r; [apply pow2_pos|].
      assert (Hle : / x <= 2 ^ k).
      { eapply Qle_trans; [apply Qle_ceiling|]. fold c.
        rewrite <- pow2_Z by lia. now rewrite <- Zle_Qle. }
      assert (0 < / x) by lra. nra.
    + replace (- k + 1)%Z with (- (k - 1))%Z by lia. rewrite Qpower_opp.
      apply Qlt_shift_inv_l; [apply pow2_pos|].
      assert (Hlt : 2 ^ (k - 1) < / x).
      { eapply Qle_lt_trans; [|apply Qceiling_lt]. fold c.
        rewrite <- pow2_Z by lia. rewrite <- Zle_Qle.
        change (Z.pred k) with (k - 1)%Z in Hlo. lia. }
      pose proof (pow2_pos (k - 1)). nra.
Qed.

Lemma ilog2_unique (x : Q) (e : Z) :
  2 ^ e <= x -> x < 2 ^ (e + 1) -> ilog2 x = e.
Proof.
  intros Hlo Hhi.
  assert (Hx : 0 < x) by (pose proof (pow2_pos e); lra).
  destruct (ilog2_spec x Hx) as [Hlo' Hhi'].
  assert (H1 : (e < ilog2 x + 1)%Z).
  { apply (Qpower_lt_compat_l_inv 2); [lra | reflexivity]. }
  assert (H2 : (ilog2 x < e + 1)%Z).
  { apply (Qpower_lt_compat_l_inv 2); [lra | reflexivity]. }
  lia.
Qed.

Lemma ilog2_monotone (x y : Q) : 0 < x -> x <= y -> (ilog2 x <= ilog2 y)%Z.
Proof.
  intros Hx Hxy.
  destruct (ilog2_spec x Hx) as [Hlo _].
  destruct (ilog2_spec y ltac:(lra)) as [_ Hhi].
  assert (H : (ilog2 x < ilog2 y + 1)%Z).
  { apply (Qpower_lt_compat_l_inv 2); [lra | reflexivity]. }
  lia.
Qed.

Lemma ilog2_comp (x y : Q) : x == y -> ilog2 x = ilog2 y.
Proof.
  intros H. unfold ilog2.
  assert (E : Qle_bool 1 x = Qle_bool 1 y).
  { destruct (Qle_bool 1 x) eqn:Ex, (Qle_bool 1 y) eqn:Ey; try reflexivity.
    - apply Qle_bool_iff in Ex. rewrite H in Ex. apply Qle_bool_iff in Ex. congruence.
    - apply Qle_bool_iff in Ey. rewrite <- H in Ey. apply Qle_bool_iff in Ey. congruence. }
  rewrite E, (Qfloor_comp _ _ H).
  assert (Hi : / x == / y) by (now rewrite H).
  now rewrite (Qceiling_comp _ _ Hi).
Qed.


(** *** Rounding to a double *)

Lemma quantum_comp (x y : Q) : x == y -> quantum x = quantum y.
Proof. intros H. unfold quantum. now rewrite (ilog2_comp _ _ H). Qed.

Lemma round_pos_comp (x y : Q) : x == y -> round_pos x == round_pos y.
Proof.
  intros H. unfold round_pos. rewrite (quantum_comp _ _ H).
  assert (E : x / 2 ^ quantum y == y / 2 ^ quantum y) by (now rewrite H).
  now rewrite (rne_comp _ _ E).
Qed.

Lemma fl_comp (x y : Q) : x == y -> fl x = fl y.
Proof.
  intros H. unfold fl.
  rewrite (Qcompare_comp _ _ H 0 0 (Qeq_refl 0)).
  destruct (Qcompare y 0); [reflexivity | |]; apply Qred_complete.
  - apply Qopp_comp, round_pos_comp. now rewrite H.
  - now apply round_pos_comp.
Qed.

Lemma round_pos_nonneg (x : Q) : 0 < x -> 0 <= round_pos x.
Proof.
  intros Hx. unfold round_pos.
  pose proof (pow2_pos (quantum x)) as Hs.
  assert (H : (0 <= rne (x / 2 ^ quantum x))%Z).
  { apply rne_ge. apply Qle_shift_div_l; [exact Hs|]. change (inject_Z 0) with 0. lra. }
  rewrite Zle_Qle in H. change (inject_Z 0) with 0 in H. nra.
Qed.

(** A positive number rounds to at most the next power of two. *)
Lemma round_pos_upper (x : Q) :
  0 < x -> round_pos x <= 2 ^ (Z.max (ilog2 x) (-1022) + 1).
Proof.
  intros Hx. unfold round_pos, quantum.
  set (E := Z.max (ilog2 x) (-1022)).
  destruct (ilog2_spec x Hx) as [_ Hhi].
  pose proof (pow2_pos (E - 52)) as Hs.
  assert (Hx' : x <= 2 ^ (E + 1)).
  { eapply Qle_trans; [apply Qlt_le_weak, Hhi|]. apply pow2_le. unfold E. lia. }
  assert (Hsplit : 2 ^ (E + 1) == 2 ^ 53 * 2 ^ (E - 52)).
  { rewrite <- pow2_plus. now replace (53 + (E - 52))%Z with (E + 1)%Z by lia. }
  assert (H : (rne (x / 2 ^ (E - 52)) <= 2 ^ 53)%Z).
  { apply rne_le. rewrite (pow2_Z 53) by lia.
    apply Qle_shift_div_r; [exact Hs|]. now rewrite <- Hsplit. }
  rewrite Zle_Qle, (pow2_Z 53) in H by lia.
  rewrite Hsplit. apply Qmult_le_compat_r; [exact H | lra].
Qed.

(** A positive number above the subnormal range rounds to at least the
    power of two below it. *)
Lemma round_pos_lower (x : Q) :
  0 < x -> (-1022 <= ilog2 x)%Z -> 2 ^ ilog2 x <= round_pos x.
Proof.
  intros Hx He. unfold round_pos, quantum.
  rewrite Z.max_l by lia.
  set (e := ilog2 x) in *.
  destruct (ilog2_spec x Hx) as [Hlo _]. fold e in Hlo.
  pose proof (pow2_pos (e - 52)) as Hs.
  assert (Hsplit : 2 ^ e == 2 ^ 52 * 2 ^ (e - 52)).
  { rewrite <- pow2_plus. now replace (52 + (e - 52))%Z with e by lia. }
  assert (H : (2 ^ 52 <= rne (x / 2 ^ (e - 52)))%Z).
  { apply rne_ge. rewrite (pow2_Z 52) by lia.
    apply Qle_shift_div_l; [exact Hs|]. now rewrite <- Hsplit. }
  rewrite Zle_Qle, (pow2_Z 52) in H by lia.
  rewrite Hsplit. apply Qmult_le_compat_r; [exact H | lra].
Qed.

Lemma round_pos_monotone (x y : Q) : 0 < x -> x <= y -> round_pos x <= round_pos y.
Proof.
  intros Hx Hxy.
  assert (Hy : 0 < y) by lra.
  pose proof (ilog2_monotone x y Hx Hxy) as He.
  destruct (Z.eq_dec (Z.max (ilog2 x) (-1022)) (Z.max (ilog2 y) (-1022))) as [E|E].
  - unfold round_pos, quantum. rewrite E.
    set (s := 2 ^ (Z.max (ilog2 y) (-1022) - 52)).
    assert (Hs : 0 < s) by apply pow2_pos.
    assert (H : (rne (x / s) <= rne (y / s))%Z).
    { apply rne_monotone. apply Qle_shift_div_l; [exact Hs|].
      unfold Qdiv. rewrite <- Qmult_assoc, (Qmult_comm (/ s)), Qmult_inv_r by lra. lra. }
    rewrite Zle_Qle in H. apply Qmult_le_compat_r; [exact H | lra].
  - eapply Qle_trans; [apply (round_pos_upper x Hx)|].
    eapply Qle_trans; [|apply (round_pos_lower y Hy); lia].
    apply pow2_le. lia.
Qed.

Lemma fl_monotone (x y : Q) : x <= y -> fl x <= fl y.
Proof.
  intros H. unfold fl.
  destruct (Qcompare_spec x 0) as [Hx|Hx|Hx], (Qcompare_spec y 0) as [Hy|Hy|Hy];
    try lra; rewrite ?Qred_correct.
  - pose proof (round_pos_nonneg y Hy). lra.
  - pose proof (round_pos_nonneg (- x) ltac:(lra)). lra.
  - pose proof (round_pos_monotone (- y) (- x) ltac:(lra) ltac:(lra)). lra.
  - pose proof (round_pos_nonneg (- x) ltac:(lra)).
    pose proof (round_pos_nonneg y Hy). lra.
  - now apply round_pos_monotone.
Qed.

Lemma fl_0 : fl 0 = 0.
Proof. reflexivity. Qed.

Lemma fl_1 : fl 1 = 1.
Proof. reflexivity. Qed.

Lemma fl_half : fl (1 # 2) = 1 # 2.
Proof. reflexivity. Qed.

Lemma fl_nonneg (x : Q) : 0 <= x -> 0 <= fl x.
Proof. intros H. rewrite <- fl_0. now apply fl_monotone. Qed.

(** The integers up to 2^53 are doubles. *)
Lemma fl_Z (z : Z) : (0 <= z <= 2 ^ 53)%Z -> fl (inject_Z z) == inject_Z z.
Proof.
  intros [H0 H1].
  destruct (Z.eq_dec z 0%Z) as [->|Hz]; [reflexivity|].
  destruct (Z.eq_dec z (2 ^ 53)%Z) as [->|Hz']; [reflexivity|].
  assert (Hpos : 0 < inject_Z z).
  { change 0 with (inject_Z 0). rewrite <- Zlt_Qlt. lia. }
  unfold fl. destruct (Qcompare_spec (inject_Z z) 0) as [H|H|H]; [lra | lra|].
  rewrite Qred_correct. unfold round_pos, quantum.
  assert (He : (0 <= ilog2 (inject_Z z) <= 52)%Z).
  { unfold ilog2.
    assert (E : Qle_bool 1 (inject_Z z) = true).
    { apply Qle_bool_iff. change 1 with (inject_Z 1). rewrite <- Zle_Qle. lia. }
    rewrite E, Qfloor_Z. split; [apply Z.log2_nonneg|].
    assert (Hl : (Z.log2 z < 53)%Z) by (apply Z.log2_lt_pow2; lia). lia. }
  rewrite Z.max_l by lia.
  set (e := ilog2 (inject_Z z)) in *.
  assert (Hs : 2 ^ (e - 52) == / inject_Z (2 ^ (52 - e))).
  { rewrite pow2_Z by lia. rewrite <- Qpower_opp. now replace (- (52 - e))%Z with (e - 52)%Z by lia. }
  assert (Hk : inject_Z z / 2 ^ (e - 52) == inject_Z (z * 2 ^ (52 - e))).
  { rewrite Hs, inject_Z_mult. unfold Qdiv. now rewrite Qinv_involutive. }
  rewrite (rne_comp _ _ Hk), rne_Z, inject_Z_mult, Hs.
  assert (Hp : 0 < inject_Z (2 ^ (52 - e))).
  { rewrite pow2_Z by lia. apply pow2_pos. }
  field. lra.
Qed.

(** A double below 1 is at least 2^-53 away from 1, so that its
    difference to 1 does not round to zero. *)
Lemma fl_one_minus_pos (a : Q) : fl a == a -> a < 1 -> 0 < fl (1 - a).
Proof.
  intros Ha H1.
  destruct (Qlt_le_dec (1 # 2) a) as [Hhalf|Hhalf].
  - assert (He : ilog2 a = (-1)%Z).
    { apply ilog2_unique; [change (2 ^ (-1)) with (1 # 2); lra|].
      change (2 ^ (-1 + 1)) with 1. exact H1. }
    assert (Hgrid : a == inject_Z (rne (a / 2 ^ (-53))) * 2 ^ (-53)).
    { rewrite <- Ha at 1. unfold fl.
      destruct (Qcompare_spec a 0) as [H|H|H]; [lra | lra|].
      rewrite Qred_correct. unfold round_pos, quantum. rewrite He. reflexivity. }
    set (k := rne (a / 2 ^ (-53))) in *.
    assert (Hk : (k <= 2 ^ 53 - 1)%Z).
    { assert (Hlt : inject_Z k < inject_Z (2 ^ 53)).
      { rewrite (pow2_Z 53) by lia.
        assert (E : 2 ^ 53 * 2 ^ (-53) == 1) by reflexivity.
        pose proof (pow2_pos (-53)). nra. }
      rewrite <- Zlt_Qlt in Hlt. lia. }
    assert (Hgap : 2 ^ (-53) <= 1 - a).
    { assert (Hk' : (k + 1 <= 2 ^ 53)%Z) by lia.
      rewrite Zle_Qle, inject_Z_plus, (pow2_Z 53) in Hk' by lia.
      change (inject_Z 1) with 1 in Hk'.
      assert (E : 2 ^ 53 * 2 ^ (-53) == 1) by reflexivity.
      pose proof (pow2_pos (-53)). nra. }
    eapply Qlt_le_trans; [|apply fl_monotone, Hgap].
    reflexivity.
  - eapply Qlt_le_trans; [|apply (fl_monotone (1 # 2)); lra].
    reflexivity.
Qed.

End Binary64Facts.

(** ** numpy *)

Module NpFacts.

Lemma insert_sorted_perm (x : Q) (l : list Q) :
  Permutation (Np.insert_sorted x l) (x :: l).
Proof.
  induction l as [|y l IH]; simpl; [reflexivity|].
  destruct (Qle_bool x y); [reflexivity|].
  rewrite IH. apply perm_swap.
Qed.

Lemma sort_perm (l : list Q) : Permutation (Np.sort l) l.
Proof.
  induction l as [|x l IH]; simpl; [reflexivity|].
  rewrite insert_sorted_perm, IH. reflexivity.
Qed.

Lemma sort_length (l : list Q) : length (Np.sort l) = length l.
Proof. apply Permutation_length, sort_perm. Qed.

Lemma sort_elem_of (l : list Q) (x : Q) : x ∈ Np.sort l <-> x ∈ l.
Proof. now rewrite (sort_perm l). Qed.

Lemma insert_sorted_Sorted (x : Q) (l : list Q) :
  Sorted Qle l -> Sorted Qle (Np.insert_sorted x l).
Proof.
  induction 1 as [|y l Hl IH Hy]; simpl.
  - repeat constructor.
  - destruct (Qle_bool x y) eqn:Exy.
    + apply Qle_bool_iff in Exy. repeat constructor; assumption.
    + assert (Hyx : y <= x).
      { destruct (Qlt_le_dec y x) as [Hlt|Hle].
        - apply Qlt_le_weak, Hlt.
        - apply Qle_bool_iff in Hle. congruence. }
      constructor; [exact IH|].
      destruct Hy as [|z l Hyz]; simpl.
      * constructor. exact Hyx.
      * destruct (Qle_bool x z); constructor; assumption.
Qed.

Lemma sort_Sorted (l : list Q) : Sorted Qle (Np.sort l).
Proof.
  induction l as [|x l IH]; simpl; [constructor|].
  apply insert_sorted_Sorted, IH.
Qed.

(** The virtual index of a probability that is not negative lies inside
    the array. *)
Lemma virtual_index_range (n : nat) (q : Q) :
  (0 < n)%nat -> 0 <= q ->
  0 <= Np.virtual_index n q /\ Np.virtual_index n q <= inject_Z (Z.of_nat n - 1).
Proof.
  intros Hn Hq. unfold Np.virtual_index, Binary64.mul, Binary64.of_int.
  set (m := (Z.of_nat n - 1)%Z).
  assert (Hm : 0 <= inject_Z m).
  { change 0 with (inject_Z 0). rewrite <- Zle_Qle. unfold m. lia. }
  split; [|apply Q.le_min_r].
  apply Q.min_glb; [|exact Hm].
  apply Binary64Facts.fl_nonneg, Qmult_le_0_compat; [exact Hq|].
  now apply Binary64Facts.fl_nonneg.
Qed.

(** It grows with the probability. *)
Lemma virtual_index_monotone (n : nat) (q1 q2 : Q) :
  (0 < n)%nat -> q1 <= q2 -> Np.virtual_index n q1 <= Np.virtual_index n q2.
Proof.
  intros Hn Hq. unfold Np.virtual_index, Binary64.mul, Binary64.of_int.
  set (m := (Z.of_nat n - 1)%Z).
  assert (Hm : 0 <= inject_Z m).
  { change 0 with (inject_Z 0). rewrite <- Zle_Qle. unfold m. lia. }
  apply Q.min_le_compat_r, Binary64Facts.fl_monotone.
  apply Qmult_le_compat_r; [exact Hq|]. now apply Binary64Facts.fl_nonneg.
Qed.

(** For the sizes that arrays have, the virtual index is the rounded
    product and nothing else: [Nx - 1] is a double and the minimum does
    nothing. *)
Lemma virtual_index_feasible (n : nat) (q : Q) :
  (0 < n)%nat -> (Z.of_nat n - 1 <= 2 ^ 53)%Z -> 0 <= q -> q <= 1 ->
  Np.virtual_index n q == Binary64.fl (q * inject_Z (Z.of_nat n - 1)).
Proof.
  intros Hn Hsize Hq0 Hq1. unfold Np.virtual_index, Binary64.mul, Binary64.of_int.
  set (m := (Z.of_nat n - 1)%Z) in *.
  assert (Hfl : Binary64.fl (inject_Z m) == inject_Z m)
    by (apply Binary64Facts.fl_Z; unfold m; lia).
  assert (Hm : 0 <= inject_Z m).
  { change 0 with (inject_Z 0). rewrite <- Zle_Qle. unfold m. lia. }
  assert (E : q * Binary64.fl (inject_Z m) == q * inject_Z m) by (now rewrite Hfl).
  rewrite (Binary64Facts.fl_comp _ _ E).
  apply Q.min_l.
  rewrite <- Hfl at 2. apply Binary64Facts.fl_monotone.
  rewrite <- (Qmult_1_l (inject_Z m)) at 2.
  apply Qmult_le_compat_r; assumption.
Qed.

(** The rank read by a quantile lies inside the array. *)
Lemma rank_range (n : nat) (q : Q) (i : Np.interpolation) :
  (0 < n)%nat -> 0 <= q -> q <= 1 ->
  (0 <= Np.rank n q i <= Z.of_nat n - 1)%Z.
Proof.
  intros Hn Hq0 Hq1. unfold Np.rank.
  destruct (virtual_index_range n q Hn Hq0) as [Hlo Hhi].
  set (m := (Z.of_nat n - 1)%Z) in *.
  change 0 with (inject_Z 0) in Hlo.
  destruct i.
  - split.
    + rewrite <- (Qfloor_Z 0). apply Qfloor_resp_le, Hlo.
    + rewrite <- (Qfloor_Z m). apply Qfloor_resp_le, Hhi.
  - split.
    + rewrite <- (Qceiling_Z 0). apply Qceiling_resp_le, Hlo.
    + rewrite <- (Qceiling_Z m). apply Qceiling_resp_le, Hhi.
Qed.

(** The rank grows with the probability. *)
Lemma rank_monotone (n : nat) (q1 q2 : Q) (i : Np.interpolation) :
  (0 < n)%nat -> q1 <= q2 -> (Np.rank n q1 i <= Np.rank n q2 i)%Z.
Proof.
  intros Hn Hq. pose proof (virtual_index_monotone n q1 q2 Hn Hq) as H.
  unfold Np.rank. destruct i; [now apply Qfloor_resp_le | now apply Qceiling_resp_le].
Qed.

(** A quantile of a non-empty array at a probability of [0, 1] exists,
    and it is one of the values of the array. *)
Lemma quantile_total (a : list Q) (q : Q) (i : Np.interpolation) :
  a <> [] -> 0 <= q -> q <= 1 ->
  exists v, Np.quantile a q i = Ok v.
Proof.
  intros Ha Hq0 Hq1. unfold Np.quantile.
  apply Qle_bool_iff in Hq0 as Hb0. apply Qle_bool_iff in Hq1 as Hb1.
  rewrite Hb0, Hb1. simpl.
  assert (Hn : (0 < length a)%nat) by (destruct a; [congruence | simpl; lia]).
  pose proof (rank_range (length a) q i Hn Hq0 Hq1) as Hr.
  destruct (Np.sort a !! Z.to_nat (Np.rank (length a) q i)) as [v|] eqn:Hv; [eauto|].
  apply lookup_ge_None in Hv. rewrite sort_length in Hv. lia.
Qed.

Lemma quantile_ok (a : list Q) (q : Q) (i : Np.interpolation) (v : Q) :
  Np.quantile a q i = Ok v ->
  0 <= q /\ q <= 1 /\ Np.sort a !! Z.to_nat (Np.rank (length a) q i) = Some v.
Proof.
  unfold Np.quantile. intros H.
  destruct (Qle_bool 0 q) eqn:Hb0; simpl in H; [|discriminate].
  destruct (Qle_bool q 1) eqn:Hb1; simpl in H; [|discriminate].
  apply Qle_bool_iff in Hb0, Hb1.
  destruct (Np.sort a !! _) eqn:Hv; [|discriminate].
  injection H as <-. auto.
Qed.

Lemma quantile_elem_of (a : list Q) (q : Q) (i : Np.interpolation) (v : Q) :
  Np.quantile a q i = Ok v -> v ∈ a.
Proof.
  intros H. apply quantile_ok in H as (_ & _ & H).
  apply sort_elem_of. eapply list_elem_of_lookup_2, H.
Qed.

End NpFacts.

Module IndexFacts.

Lemma take_idx_Forall2 {A : Type} (a : list A) (idx : list nat) (vs : list A) :
  Np.take_idx a idx = Ok vs <-> Forall2 (fun i v => a !! i = Some v) idx vs.
Proof.
  unfold Np.take_idx. rewrite rmap_Forall2.
  split; intros H; eapply Forall2_impl; try exact H; simpl; intros i v Hi.
  - destruct (a !! i); congruence.
  - rewrite Hi. reflexivity.
Qed.

Lemma take_idx_total {A : Type} (a : list A) (idx : list nat) :
  Forall (fun i => (i < length a)%nat) idx -> exists vs, Np.take_idx a idx = Ok vs.
Proof.
  intros H. apply rmap_total. eapply Forall_impl; [exact H|].
  intros i Hi. simpl in Hi. apply lookup_lt_is_Some_2 in Hi as [v Hv].
  rewrite Hv. eauto.
Qed.

Lemma take_idx_length {A : Type} (a : list A) (idx : list nat) (vs : list A) :
  Np.take_idx a idx = Ok vs -> length vs = length idx.
Proof. apply rmap_length. Qed.

Lemma take_idx_bound {A : Type} (a : list A) (idx : list nat) (vs : list A) :
  Np.take_idx a idx = Ok vs -> Forall (fun i => (i < length a)%nat) idx.
Proof.
  intros H. apply take_idx_Forall2 in H.
  induction H as [|i v idx vs Hi _ IH]; constructor; [|exact IH].
  eapply lookup_lt_Some, Hi.
Qed.

(** Assignment of a scalar at a list of indices. *)
Lemma setitem_scalar_ok {A : Type} (idx : list nat) (v : A) :
  forall (a a' : list A),
  Np.setitem_scalar a idx v = Ok a' ->
  length a' = length a
  /\ Forall (fun i => (i < length a)%nat) idx
  /\ (forall i, i ∈ idx -> a' !! i = Some v)
  /\ (forall i, i ∉ idx -> a' !! i = a !! i).
Proof.
  induction idx as [|j idx IH]; intros a a' H; simpl in H.
  - injection H as <-. split; [reflexivity|]. split; [constructor|].
    split; [|reflexivity]. intros i Hi. inversion Hi.
  - destruct (j <? length a)%nat eqn:Hj; [|discriminate].
    apply Nat.ltb_lt in Hj.
    apply IH in H as (Hlen & Hall & Hin & Hout).
    rewrite length_insert in Hlen, Hall.
    split; [|split; [|split]].
    + exact Hlen.
    + constructor; assumption.
    + intros i Hi.
      destruct (decide (i ∈ idx)) as [Hi'|Hi']; [now apply Hin|].
      apply elem_of_cons in Hi as [->|Hi]; [|contradiction].
      rewrite (Hout _ Hi'). now apply list_lookup_insert_eq.
    + intros i Hi. apply not_elem_of_cons in Hi as [Hne Hi].
      rewrite (Hout _ Hi). now apply list_lookup_insert_ne.
Qed.

Lemma setitem_scalar_total {A : Type} (idx : list nat) (v : A) :
  forall (a : list A),
  Forall (fun i => (i < length a)%nat) idx -> exists a', Np.setitem_scalar a idx v = Ok a'.
Proof.
  induction idx as [|j idx IH]; intros a H; simpl; [eauto|].
  inversion H as [|? ? Hj Hidx]; subst.
  apply Nat.ltb_lt in Hj as Hb. rewrite Hb.
  apply IH. now rewrite length_insert.
Qed.

(** Assignment of an array at a list of distinct indices. *)
Lemma setitem_zip_ok {A : Type} (idx : list nat) :
  forall (vs a a' : list A),
  Np.setitem_zip a idx vs = Ok a' ->
  length vs = length idx ->
  NoDup idx ->
  length a' = length a
  /\ Forall (fun i => (i < length a)%nat) idx
  /\ (forall p i, idx !! p = Some i -> a' !! i = vs !! p)
  /\ (forall i, i ∉ idx -> a' !! i = a !! i).
Proof.
  induction idx as [|j idx IH]; intros vs a a' H Hlen Hnd.
  - destruct vs; [|discriminate]. simpl in H. injection H as <-.
    split; [reflexivity|]. split; [constructor|].
    split; [|reflexivity]. intros p i Hp. inversion Hp.
  - destruct vs as [|v vs]; [discriminate|]. simpl in H, Hlen.
    destruct (j <? length a)%nat eqn:Hj; [|discriminate].
    apply Nat.ltb_lt in Hj.
    apply NoDup_cons in Hnd as [Hj' Hnd].
    apply IH in H as (Hlen' & Hall & Hin & Hout); [|lia|assumption].
    rewrite length_insert in Hlen', Hall.
    split; [|split; [|split]].
    + exact Hlen'.
    + constructor; assumption.
    + intros [|p] i Hp; simpl in Hp |- *.
      * injection Hp as ->. rewrite (Hout _ Hj').
        now apply list_lookup_insert_eq.
      * now apply Hin.
    + intros i Hi. apply not_elem_of_cons in Hi as [Hne Hi].
      rewrite (Hout _ Hi). now apply list_lookup_insert_ne.
Qed.

Lemma setitem_zip_total {A : Type} (idx : list nat) :
  forall (vs a : list A),
  Forall (fun i => (i < length a)%nat) idx -> exists a', Np.setitem_zip a idx vs = Ok a'.
Proof.
  induction idx as [|j idx IH]; intros vs a H; simpl; [eauto|].
  destruct vs as [|v vs]; [eauto|].
  inversion H as [|? ? Hj Hidx]; subst.
  apply Nat.ltb_lt in Hj as Hb. rewrite Hb.
  apply IH. now rewrite length_insert.
Qed.

Lemma setitem_array_ok {A : Type} (idx : list nat) (vs a a' : list A) :
  Np.setitem_array a idx vs = Ok a' ->
  length vs = length idx ->
  NoDup idx ->
  length a' = length a
  /\ Forall (fun i => (i < length a)%nat) idx
  /\ (forall p i, idx !! p = Some i -> a' !! i = vs !! p)
  /\ (forall i, i ∉ idx -> a' !! i = a !! i).
Proof.
  unfold Np.setitem_array. intros H Hlen Hnd.
  apply Nat.eqb_eq in Hlen as Hb. rewrite Hb in H.
  now apply setitem_zip_ok.
Qed.

Lemma setitem_array_total {A : Type} (idx : list nat) (vs a : list A) :
  length vs = length idx ->
  Forall (fun i => (i < length a)%nat) idx -> exists a', Np.setitem_array a idx vs = Ok a'.
Proof.
  unfold Np.setitem_array. intros Hlen H.
  apply Nat.eqb_eq in Hlen as Hb. rewrite Hb.
  now apply setitem_zip_total.
Qed.

End IndexFacts.

(** ** scikit-learn: the folds of [KFold] and [LeaveOneOut] *)

Module SkFacts.

Lemma mem_elem_of (i : nat) (l : list nat) : Sk.mem i l = true <-> i ∈ l.
Proof.
  unfold Sk.mem. rewrite existsb_exists. split.
  - intros (j & Hj & Hij). apply Nat.eqb_eq in Hij. subst j.
    now apply list_elem_of_In.
  - intros Hi. exists i. split; [now apply list_elem_of_In | apply Nat.eqb_refl].
Qed.

Lemma train_test_val (n : nat) (test : list nat) (i : nat) :
  i ∈ snd (Sk.train_test n test) <-> (i < n)%nat /\ i ∈ test.
Proof.
  simpl. rewrite list_elem_of_In, filter_In, <- list_elem_of_In, elem_of_seq, mem_elem_of.
  intuition lia.
Qed.

Lemma train_test_train (n : nat) (test : list nat) (i : nat) :
  i ∈ fst (Sk.train_test n test) <-> (i < n)%nat /\ i ∉ snd (Sk.train_test n test).
Proof.
  rewrite train_test_val. simpl.
  rewrite list_elem_of_In, filter_In, <- list_elem_of_In, elem_of_seq.
  rewrite negb_true_iff, <- not_true_iff_false, mem_elem_of.
  intuition lia.
Qed.

Lemma train_test_NoDup (n : nat) (test : list nat) :
  NoDup (fst (Sk.train_test n test)) /\ NoDup (snd (Sk.train_test n test)).
Proof.
  unfold Sk.train_test; simpl.
  split; apply NoDup_ListNoDup, List.NoDup_filter, NoDup_ListNoDup, NoDup_seq.
Qed.

(** Test sets that partition the rows give folds that partition them. *)
Lemma train_test_partition (n : nat) (tests : list (list nat)) :
  (forall k k' t t' i, tests !! k = Some t -> tests !! k' = Some t' ->
     i ∈ t -> i ∈ t' -> k = k') ->
  (forall i, (i < n)%nat -> exists k t, tests !! k = Some t /\ i ∈ t) ->
  partition_folds n (map (Sk.train_test n) tests).
Proof.
  intros Hdisj Hcover. split; [|split].
  - intros k tr val Hk. apply list_lookup_fmap_Some in Hk as (t & Ht & Hk).
    pose proof (train_test_NoDup n t) as [Hnd1 Hnd2].
    pose proof (train_test_val n t) as Hv.
    pose proof (train_test_train n t) as Htr.
    rewrite <- Ht in Hnd1, Hnd2, Hv, Htr. simpl in Hnd1, Hnd2, Hv, Htr.
    split; [exact Hnd2|]. split; [exact Hnd1|]. split.
    + intros i Hi. now apply Hv in Hi.
    + intros i. apply Htr.
  - intros k k' tr val tr' val' i Hk Hk' Hi Hi'.
    apply list_lookup_fmap_Some in Hk as (t & Ht & Hk).
    apply list_lookup_fmap_Some in Hk' as (t' & Ht' & Hk').
    pose proof (train_test_val n t i) as Hv. rewrite <- Ht in Hv.
    pose proof (train_test_val n t' i) as Hv'. rewrite <- Ht' in Hv'.
    simpl in Hv, Hv'. apply Hv in Hi. apply Hv' in Hi'.
    eapply Hdisj; [exact Hk | exact Hk' | apply Hi | apply Hi'].
  - intros i Hi. destruct (Hcover i Hi) as (k & t & Hk & Hit).
    exists k, (fst (Sk.train_test n t)), (snd (Sk.train_test n t)). split.
    + rewrite list_lookup_fmap, Hk. simpl. reflexivity.
    + now apply train_test_val.
Qed.

(** Slices whose sizes add up to the length give the list back. *)
Lemma chunks_concat (sizes l : list nat) :
  sum_list sizes = length l -> concat (Sk.chunks sizes l) = l.
Proof.
  revert l. induction sizes as [|s sizes IH]; intros l Hsum; simpl in *.
  - symmetry. now apply nil_length_inv.
  - rewrite IH; [apply take_drop|]. rewrite length_drop. lia.
Qed.

Lemma sum_indicator (c r K : nat) :
  sum_list (map (fun i => (c + (if i <? r then 1 else 0))%nat) (seq 0 K))
  = (K * c + Nat.min r K)%nat.
Proof.
  induction K as [|K IH]; [simpl; lia|].
  rewrite seq_S, map_app, sum_list_with_app, IH. simpl.
  destruct (K <? r)%nat eqn:HK.
  - apply Nat.ltb_lt in HK. lia.
  - apply Nat.ltb_ge in HK. lia.
Qed.

Lemma fold_sizes_sum (n K : nat) : (0 < K)%nat -> sum_list (Sk.fold_sizes n K) = n.
Proof.
  intros HK. unfold Sk.fold_sizes. rewrite sum_indicator.
  pose proof (Nat.mod_upper_bound n K ltac:(lia)) as Hr.
  pose proof (Nat.div_mod_eq n K) as Hd. lia.
Qed.

Lemma NoDup_concat_lookup (L : list (list nat)) :
  NoDup (concat L) ->
  forall k k' c c' i, L !! k = Some c -> L !! k' = Some c' -> i ∈ c -> i ∈ c' -> k = k'.
Proof.
  induction L as [|c0 L IH]; intros Hnd k k' c c' i Hk Hk' Hi Hi'.
  - inversion Hk.
  - simpl in Hnd. apply NoDup_app in Hnd as (_ & Hsep & Hnd).
    assert (Hsub : forall j d, L !! j = Some d -> i ∈ d -> i ∈ concat L).
    { intros j d Hj Hd. apply list_elem_of_In, in_concat. exists d.
      split; apply list_elem_of_In; [eapply list_elem_of_lookup_2, Hj | exact Hd]. }
    destruct k as [|k], k' as [|k']; simpl in Hk, Hk'.
    + reflexivity.
    + injection Hk as <-. exfalso. eapply Hsep; eauto.
    + injection Hk' as <-. exfalso. eapply Hsep; eauto.
    + f_equal. eapply IH; eauto.
Qed.

Lemma kfold_tests_partition (n K : nat) (indices : list nat) :
  (0 < K)%nat -> Permutation indices (seq 0 n) ->
  let tests := Sk.chunks (Sk.fold_sizes n K) indices in
  (forall k k' t t' i, tests !! k = Some t -> tests !! k' = Some t' ->
     i ∈ t -> i ∈ t' -> k = k')
  /\ (forall i, (i < n)%nat -> exists k t, tests !! k = Some t /\ i ∈ t).
Proof.
  intros HK Hperm tests.
  assert (Hcat : concat tests = indices).
  { unfold tests. apply chunks_concat.
    rewrite fold_sizes_sum by assumption.
    rewrite (Permutation_length Hperm). now rewrite length_seq. }
  split.
  - apply NoDup_concat_lookup. rewrite Hcat, Hperm. apply NoDup_seq.
  - intros i Hi.
    assert (Hin : i ∈ concat tests).
    { rewrite Hcat, Hperm. apply elem_of_seq. lia. }
    apply list_elem_of_In, in_concat in Hin as (t & Ht & Hit).
    apply list_elem_of_In, list_elem_of_lookup in Ht as (k & Hk).
    exists k, t. split; [exact Hk | now apply list_elem_of_In].
Qed.

Lemma loo_tests_partition (n : nat) :
  let tests := map (fun i => [i]) (seq 0 n) in
  (forall k k' t t' i, tests !! k = Some t -> tests !! k' = Some t' ->
     i ∈ t -> i ∈ t' -> k = k')
  /\ (forall i, (i < n)%nat -> exists k t, tests !! k = Some t /\ i ∈ t).
Proof.
  intros tests. split.
  - intros k k' t t' i Hk Hk' Hi Hi'.
    apply list_lookup_fmap_Some in Hk as (j & -> & Hk).
    apply list_lookup_fmap_Some in Hk' as (j' & -> & Hk').
    apply lookup_seq in Hk as [-> _]. apply lookup_seq in Hk' as [-> _].
    apply list_elem_of_singleton in Hi, Hi'. lia.
  - intros i Hi. exists i, [i]. split.
    + unfold tests. rewrite list_lookup_fmap, lookup_seq_lt by assumption. reflexivity.
    + now apply list_elem_of_singleton.
Qed.

Lemma make_KFold_constructed (n_splits : Z) (shuffle : bool) (random_state : option Z)
  (cv : Sk.cross_validator) :
  Sk.make_KFold n_splits shuffle random_state = Ok cv -> constructed cv.
Proof.
  unfold Sk.make_KFold. destruct (n_splits <=? 1)%Z eqn:HK; [discriminate|].
  destruct (_ && _); [discriminate|]. intros Hcv. injection Hcv as <-.
  simpl. lia.
Qed.

(** The folds that [split] yields partition the rows. *)
Lemma split_partition `{Runtime} (cv : Sk.cross_validator) (n : nat)
  (folds : list (list nat * list nat)) :
  constructed cv -> Sk.split cv n = Ok folds -> partition_folds n folds.
Proof.
  destruct cv as [K sh rs|]; simpl; intros Hwf.
  - destruct (Z.of_nat n <? K)%Z eqn:HK; [discriminate|].
    intros Hf. injection Hf as <-.
    assert (Hperm : Permutation (if sh then rng_permutation rs n else seq 0 n) (seq 0 n)).
    { destruct sh; [apply rng_permutation_perm | reflexivity]. }
    destruct (kfold_tests_partition n (Z.to_nat K) _ ltac:(lia) Hperm) as [Hd Hc].
    now apply train_test_partition.
  - destruct (n <=? 1)%nat; [discriminate|].
    intros Hf. injection Hf as <-.
    rewrite <- (map_map (fun i => [i]) (Sk.train_test n)).
    destruct (loo_tests_partition n) as [Hd Hc].
    now apply train_test_partition.
Qed.

End SkFacts.

(** ** The monad of the methods *)

Lemma getattr_ok {A : Type} (name : string) (field : option A) (v : A) :
  getattr name field = Ok v -> field = Some v.
Proof. destruct field; simpl; congruence. Qed.

Section MonadFacts.

Context {hyper model : Type}.

Lemma bind_ok {A B : Type} (c : @M hyper model A) (k : A -> @M hyper model B)
  (s s' : MapieRegressor hyper model) (b : B) :
  bind c k s = (Ok b, s') ->
  exists a s1, c s = (Ok a, s1) /\ k a s1 = (Ok b, s').
Proof.
  unfold bind. destruct (c s) as [[a|e] s1]; [eauto | discriminate].
Qed.

Lemma bind_raise {A B : Type} (c : @M hyper model A) (k : A -> @M hyper model B)
  (s s' : MapieRegressor hyper model) (e : exn) :
  bind c k s = (Raise e, s') ->
  c s = (Raise e, s') \/ exists a s1, c s = (Ok a, s1) /\ k a s1 = (Raise e, s').
Proof.
  unfold bind. destruct (c s) as [[a|e'] s1]; [eauto|].
  intros H. injection H as -> ->. now left.
Qed.

Lemma lift_ok {A : Type} (r : result A) (s s' : MapieRegressor hyper model) (a : A) :
  lift r s = (Ok a, s') -> r = Ok a /\ s' = s.
Proof. unfold lift. intros H. injection H as -> ->. auto. Qed.

Lemma read_ok {A : Type} (f : MapieRegressor hyper model -> A)
  (s s' : MapieRegressor hyper model) (a : A) :
  read f s = (Ok a, s') -> a = f s /\ s' = s.
Proof. unfold read. intros H. injection H as <- <-. auto. Qed.

Lemma assign_ok (f : MapieRegressor hyper model -> MapieRegressor hyper model)
  (s s' : MapieRegressor hyper model) (u : unit) :
  assign f s = (Ok u, s') -> s' = f s.
Proof. unfold assign. intros H. now injection H as _ <-. Qed.

Lemma ret_ok {A : Type} (a b : A) (s s' : MapieRegressor hyper model) :
  ret a s = (Ok b, s') -> b = a /\ s' = s.
Proof. unfold ret. intros H. injection H as <- <-. auto. Qed.

End MonadFacts.

(** Inversion of a successful run of a method, one statement at a time. *)
Ltac inv_M :=
  repeat match goal with
  | H : bind _ _ _ = (Ok _, _) |- _ =>
      let a := fresh "a" in
      let s := fresh "s" in
      let Hc := fresh "Hc" in
      apply bind_ok in H; destruct H as (a & s & Hc & H); cbv beta in Hc
  | H : lift _ _ = (Ok _, _) |- _ =>
      let Hr := fresh "Hr" in
      apply lift_ok in H; destruct H as [Hr ->]
  | H : read _ _ = (Ok _, _) |- _ => apply read_ok in H; destruct H as [-> ->]
  | H : assign _ _ = (Ok _, _) |- _ => apply assign_ok in H; subst
  | H : ret _ _ = (Ok _, _) |- _ => apply ret_ok in H; destruct H as [-> ->]
  | H : (getattr _ _, _) = (Ok _, _) |- _ =>
      let Hr := fresh "Hr" in
      injection H as Hr <-
  | H : getattr _ _ = Ok _ |- _ => apply getattr_ok in H
  end.

Ltac no_raise H :=
  try unfold raise in H; try unfold lift in H; simpl in H; discriminate H.

Section FitFacts.

Context {features hyper model : Type}.
Context `{Reg : Regressor features hyper model}.
Context `{RT : Runtime}.

Abbreviation self_t := (MapieRegressor hyper model).

Lemma frame_refl (s : self_t) : frame s s.
Proof. repeat split. Qed.

Lemma frame_trans (s1 s2 s3 : self_t) : frame s1 s2 -> frame s2 s3 -> frame s1 s3.
Proof. unfold frame. intuition congruence. Qed.

(** One turn of the loop of [fit]. *)
Lemma fit_fold_ok (X : list features) (y : list Q) (k : nat) (fold : list nat * list nat)
  (y_pred y_pred' : list Q) (self self' : self_t) (ks : list Z) (es : list model) :
  fit_fold X y k fold y_pred self = (Ok y_pred', self') ->
  NoDup (snd fold) ->
  k_ self = Some ks -> estimators_ self = Some es ->
  exists ks' h e,
    frame self self'
    /\ k_ self' = Some ks' /\ estimators_ self' = Some (es ++ [e])
    /\ Sk.clone (estimator self) = Ok h
    /\ fold_model X y h fold e
    /\ out_of_fold X fold e y_pred'
    /\ length ks' = length ks /\ length y_pred' = length y_pred
    /\ (forall i, i ∈ snd fold -> ks' !! i = Some (Z.of_nat k))
    /\ (forall i, i ∉ snd fold -> ks' !! i = ks !! i /\ y_pred' !! i = y_pred !! i).
Proof.
  destruct fold as [train_fold val_fold]. unfold fit_fold. simpl.
  intros H Hnd Hks Hes. inv_M. simpl in *.
  repeat match goal with
  | H1 : ?f = Some ?u, H2 : ?f = Some ?v |- _ =>
      lazymatch u with v => fail | _ => idtac end;
      rewrite H1 in H2; injection H2 as <-
  end.
  match goal with
  | Hs : Np.setitem_scalar _ _ _ = Ok ?ks', Hc : Sk.clone _ = Ok ?h,
    Hf : est_fit _ ?Xt ?yt = Ok ?e, Hv : Np.take_idx X val_fold = Ok ?Xv,
    Ha : Np.setitem_array _ _ _ = Ok _ |- _ =>
      apply IndexFacts.setitem_scalar_ok in Hs as (Hlen & _ & Hin & Hout);
      pose proof (IndexFacts.take_idx_length _ _ _ Hv) as Hlv;
      apply IndexFacts.setitem_array_ok in Ha as (Hlen' & _ & Hin' & Hout');
        [|now rewrite est_predict_length|assumption];
      exists ks', h, e;
      split; [unfold frame; simpl; repeat split|];
      split; [reflexivity|]; split; [reflexivity|]; split; [assumption|];
      split; [exists Xt, yt; auto|]; split; [exists Xv; auto|]
  end.
  split; [assumption|]. split; [assumption|]. split; [assumption|].
  intros i Hi. split; [now apply Hout | now apply Hout'].
Qed.

(** The whole loop, over folds whose validation sets are disjoint. *)
Lemma fit_folds_ok (X : list features) (y : list Q) (folds : list (list nat * list nat)) :
  forall (k : nat) (y_pred y_pred' : list Q) (self self' : self_t)
         (ks : list Z) (es : list model),
  fit_folds X y k folds y_pred self = (Ok y_pred', self') ->
  Forall (fun fold => NoDup (snd fold)) folds ->
  (forall j j' f f' i, folds !! j = Some f -> folds !! j' = Some f' ->
     i ∈ snd f -> i ∈ snd f' -> j = j') ->
  k_ self = Some ks -> estimators_ self = Some es ->
  exists ks' es',
    frame self self'
    /\ k_ self' = Some ks' /\ estimators_ self' = Some (es ++ es')
    /\ length es' = length folds /\ length ks' = length ks
    /\ length y_pred' = length y_pred
    /\ (forall j fold, folds !! j = Some fold ->
          exists h e,
            Sk.clone (estimator self) = Ok h /\ es' !! j = Some e
            /\ fold_model X y h fold e /\ out_of_fold X fold e y_pred'
            /\ forall i, i ∈ snd fold -> ks' !! i = Some (Z.of_nat (k + j)))
    /\ (forall i, (forall fold, fold ∈ folds -> i ∉ snd fold) ->
          ks' !! i = ks !! i /\ y_pred' !! i = y_pred !! i).
Proof.
  induction folds as [|f folds IH]; intros k y_pred y_pred' self self' ks es H Hnd Hdisj Hks Hes.
  - simpl in H. apply ret_ok in H as [-> ->].
    exists ks, []. rewrite app_nil_r.
    split; [apply frame_refl|]. repeat (split; [assumption || reflexivity|]).
    split; [|auto]. intros j fold Hj. inversion Hj.
  - simpl in H. apply bind_ok in H as (y1 & s1 & Hf & H).
    apply Forall_cons in Hnd as [Hndf Hnd].
    destruct (fit_fold_ok _ _ _ _ _ _ _ _ _ _ Hf Hndf Hks Hes)
      as (ks1 & h & e & Hfr1 & Hks1 & Hes1 & Hh & Hmodel & Hoof & Hlk1 & Hly1 & Hin1 & Hout1).
    assert (Hdisj' : forall j j' f0 f' i, folds !! j = Some f0 -> folds !! j' = Some f' ->
              i ∈ snd f0 -> i ∈ snd f' -> j = j').
    { intros j j' f0 f' i Hj Hj' Hi Hi'.
      assert (S j = S j') as [= ->] by (eapply Hdisj; eauto). reflexivity. }
    destruct (IH _ _ _ _ _ _ _ H Hnd Hdisj' Hks1 Hes1)
      as (ks' & es' & Hfr & Hks' & Hes' & Hle & Hlk & Hly & Hfolds & Hrest).
    assert (Hlater : forall i, i ∈ snd f -> forall fold, fold ∈ folds -> i ∉ snd fold).
    { intros i Hi fold Hfold Hi'. apply list_elem_of_lookup in Hfold as (j & Hj).
      assert (0%nat = S j) by (eapply (Hdisj 0%nat (S j)); eauto). discriminate. }
    exists ks', (e :: es').
    split; [eapply frame_trans; eassumption|].
    split; [assumption|].
    split; [now rewrite Hes', <- app_assoc|].
    split; [simpl; now rewrite Hle|].
    split; [congruence|]. split; [congruence|]. split.
    + intros [|j] fold Hj; simpl in Hj.
      * injection Hj as <-. exists h, e.
        split; [assumption|]. split; [reflexivity|]. split; [assumption|]. split.
        -- destruct Hoof as (X_val & HX & Hp). exists X_val. split; [assumption|].
           intros p i Hpi. rewrite <- (Hp p i Hpi).
           apply Hrest, Hlater. eapply list_elem_of_lookup_2, Hpi.
        -- intros i Hi. rewrite Nat.add_0_r, <- (Hin1 i Hi).
           apply Hrest, Hlater, Hi.
      * destruct (Hfolds j fold Hj) as (h' & e' & Hh' & He' & Hm' & Ho' & Hk').
        exists h', e'. destruct Hfr1 as (Hest & _). rewrite Hest in Hh'.
        split; [assumption|]. split; [assumption|]. split; [assumption|].
        split; [assumption|]. intros i Hi. rewrite (Hk' i Hi). do 2 f_equal. lia.
    + intros i Hi.
      assert (Hi0 : i ∉ snd f) by (apply Hi; left).
      assert (Hi1 : forall fold, fold ∈ folds -> i ∉ snd fold) by (intros; apply Hi; now right).
      destruct (Hrest i Hi1) as [-> ->]. now apply Hout1.
Qed.

Lemma Qlt_bool_iff (x y : Q) : Qlt_bool x y = true <-> x < y.
Proof.
  unfold Qlt_bool. rewrite negb_true_iff, <- not_true_iff_false, Qle_bool_iff.
  split; [apply Qnot_le_lt | apply Qlt_not_le].
Qed.

Lemma _check_parameters_ok (self self' : self_t) (u : unit) :
  _check_parameters self = (Ok u, self') ->
  valid_parameters self
  /\ self' = match estimator self with
            | None => set_estimator (Some LinearRegression) self
            | Some _ => self
            end.
Proof.
  unfold _check_parameters, valid_parameters, raise. intros H.
  apply bind_ok in H as (a & s & Ha & H). apply read_ok in Ha as [-> ->].
  destruct (Qlt_bool 0 (alpha self) && Qlt_bool (alpha self) 1) eqn:Ealpha;
    cbn [negb] in H; [|no_raise H].
  apply andb_true_iff in Ealpha as [H0 H1]. apply Qlt_bool_iff in H0, H1.
  apply bind_ok in H as (m & s & Hm & H). apply read_ok in Hm as [-> ->].
  destruct (str_in (method self) valid_methods) eqn:Em; cbn [negb] in H; [|no_raise H].
  apply bind_ok in H as (rp & s & Hrp & H). apply read_ok in Hrp as [-> ->].
  destruct (str_in (return_pred self) valid_return_preds) eqn:Erp; cbn [negb] in H; [|no_raise H].
  apply bind_ok in H as (e & s & He & H). apply read_ok in He as [-> ->].
  repeat (split; [assumption || reflexivity|]).
  destruct (estimator self).
  - now apply ret_ok in H as [_ ->].
  - now apply assign_ok in H.
Qed.

Lemma _select_cv_ok (self self' : self_t) (cv : Sk.cross_validator) :
  _select_cv self = (Ok cv, self') ->
  constructed cv
  /\ cv = selected_cv self (random_state self')
  /\ self' = (if startswith (method self) "cv" && negb (shuffle self)
             then set_random_state None self else self).
Proof.
  unfold _select_cv, selected_cv, raise. intros H.
  apply bind_ok in H as (m & s & Hm & H). apply read_ok in Hm as [-> ->].
  destruct (startswith (method self) "cv") eqn:Ecv; simpl.
  - apply bind_ok in H as (sh & s & Hsh & H). apply read_ok in Hsh as [-> ->].
    apply bind_ok in H as (u & s & Hu & H).
    assert (Hs : s = if negb (shuffle self) then set_random_state None self else self).
    { destruct (shuffle self); simpl in Hu |- *.
      - now apply ret_ok in Hu as [_ ->].
      - now apply assign_ok in Hu. }
    clear Hu. inv_M.
    split; [eapply SkFacts.make_KFold_constructed; eassumption|].
    unfold Sk.make_KFold in *.
    destruct (n_splits s <=? 1)%Z; [discriminate|].
    destruct (_ && _); [discriminate|].
    match goal with Hk : Ok _ = Ok cv |- _ => injection Hk as <- end.
    subst s. destruct (shuffle self) eqn:Esh; simpl; rewrite ?Esh; auto.
  - destruct (startswith (method self) "jackknife"); [|no_raise H].
    apply ret_ok in H as [-> ->]. simpl. auto.
Qed.

Lemma check_X_y_ok (X X' : list features) (y y' : list Q) :
  Sk.check_X_y X y = Ok (X', y') ->
  X' = X /\ y' = y /\ X <> [] /\ length X = length y.
Proof.
  unfold Sk.check_X_y.
  destruct (length X =? 0)%nat eqn:E0; [discriminate|].
  destruct (length X =? length y)%nat eqn:El; [|discriminate].
  intros H. injection H as <- <-.
  apply Nat.eqb_neq in E0. apply Nat.eqb_eq in El.
  repeat split; try assumption. intros ->. now apply E0.
Qed.

Lemma empty_like_float_length (y : list Q) : length (empty_like_float y) = length y.
Proof. unfold empty_like_float. now rewrite length_map, length_seq. Qed.

Lemma empty_like_int_length (y : list Q) : length (empty_like_int y) = length y.
Proof. unfold empty_like_int. now rewrite length_map, length_seq. Qed.

Lemma partition_folds_NoDup (n : nat) (folds : list (list nat * list nat)) :
  partition_folds n folds -> Forall (fun fold => NoDup (snd fold)) folds.
Proof.
  intros (Hf & _ & _). apply Forall_lookup. intros j [tr val] Hj.
  now destruct (Hf j tr val Hj) as (Hnd & _).
Qed.

Lemma partition_folds_disjoint (n : nat) (folds : list (list nat * list nat)) :
  partition_folds n folds ->
  forall j j' f f' i, folds !! j = Some f -> folds !! j' = Some f' ->
    i ∈ snd f -> i ∈ snd f' -> j = j'.
Proof.
  intros (_ & Hd & _) j j' [tr val] [tr' val'] i Hj Hj' Hi Hi'. eapply Hd; eauto.
Qed.

(** What a successful [fit] leaves. *)
Lemma fit_ok (X : list features) (y : list Q) (self self' : self_t) (u : unit) :
  fit X y self = (Ok u, self') -> fitted X y self self'.
Proof.
  unfold fit. intros H.
  apply bind_ok in H as (u0 & s0 & Hcheck & H).
  apply _check_parameters_ok in Hcheck as [Hvalid Hs0].
  apply bind_ok in H as ([X' y'] & s & HXy & H).
  apply lift_ok in HXy as [HXy ->].
  apply check_X_y_ok in HXy as (-> & -> & HX & Hlen).
  apply bind_ok in H as (est & s & Hest & H). apply read_ok in Hest as [-> ->].
  apply bind_ok in H as (h & s & Hh & H). apply lift_ok in Hh as [Hh ->].
  apply bind_ok in H as (single & s & Hsingle & H). apply lift_ok in Hsingle as [Hsingle ->].
  apply bind_ok in H as (u1 & s & Hassign & H). apply assign_ok in Hassign as ->.
  apply bind_ok in H as (m & s & Hm & H). apply read_ok in Hm as [-> ->].
  apply bind_ok in H as (y_pred & s1 & Hpred & H). apply assign_ok in H as ->.
  assert (Hh' : estimator s0 = Some h /\ h = default LinearRegression (estimator self)
                /\ alpha s0 = alpha self /\ method s0 = method self
                /\ n_splits s0 = n_splits self /\ shuffle s0 = shuffle self
                /\ return_pred s0 = return_pred self
                /\ random_state s0 = random_state self
                /\ estimators_ s0 = estimators_ self /\ k_ s0 = k_ self).
  { subst s0.
    destruct (estimator self) as [e|] eqn:Ee; simpl in Hh; rewrite ?Ee in Hh;
      simpl in Hh; injection Hh as <-; simpl; rewrite ?Ee; repeat split. }
  clear Hs0 Hh.
  destruct Hh' as (He0 & Hdef & Ha0 & Hm0 & Hn0 & Hsh0 & Hrp0 & Hrs0 & Hes0 & Hk0).
  simpl in Hpred.
  split; [assumption|]. split; [assumption|]. split; [assumption|].
  exists h, single. split; [assumption|].
  rewrite <- Hm0.
  destruct (String.eqb (method s0) "naive") eqn:Enaive.
  - apply bind_ok in Hpred as (sg & s & Hsg & Hpred).
    injection Hsg as Hsg <-. simpl in Hsg. subst sg.
    apply ret_ok in Hpred as [-> ->]. simpl.
    repeat (split; [assumption || reflexivity|]). reflexivity.
  - apply bind_ok in Hpred as (cv & s & Hcv & Hpred).
    apply _select_cv_ok in Hcv as (Hcons & Hcv & Hs). simpl in Hcv, Hs.
    apply bind_ok in Hpred as (u2 & s2 & Hassign & Hpred). apply assign_ok in Hassign as ->.
    apply bind_ok in Hpred as (u3 & s3 & Hassign & Hpred). apply assign_ok in Hassign as ->.
    apply bind_ok in Hpred as (folds & s4 & Hsplit & Hpred). apply lift_ok in Hsplit as [Hsplit ->].
    pose proof (SkFacts.split_partition _ _ _ Hcons Hsplit) as Hpart.
    destruct (fit_folds_ok _ _ _ _ _ _ _ _ _ [] Hpred
                (partition_folds_NoDup _ _ Hpart) (partition_folds_disjoint _ _ Hpart)
                eq_refl eq_refl)
      as (ks' & es' & Hfr & Hks' & Hes' & Hle & Hlk & Hly & Hfolds & _).
    destruct Hfr as (Fe & Fa & Fm & Fn & Fsh & Frp & Frs & Fsingle & Fres).
    simpl in Fe, Fa, Fm, Fn, Fsh, Frp, Frs, Fsingle, Fres, Hfolds.
    assert (Hs' : estimator s = estimator s0 /\ alpha s = alpha s0 /\ method s = method s0
                  /\ n_splits s = n_splits s0 /\ shuffle s = shuffle s0
                  /\ return_pred s = return_pred s0
                  /\ single_estimator_ s = Some single
                  /\ random_state s
                     = (if startswith (method s0) "cv" && negb (shuffle s0) then None
                        else random_state s0)).
    { subst s. destruct (startswith (method s0) "cv" && negb (shuffle s0)); repeat split. }
    destruct Hs' as (Se & Sa & Sm & Sn & Ssh & Srp & Ssg & Srs).
    simpl.
    split; [congruence|]. split; [congruence|]. split; [congruence|].
    split; [congruence|]. split; [congruence|]. split; [congruence|].
    split; [assumption|]. split; [congruence|].
    split; [rewrite Frs, Srs, Hsh0, Hrs0; reflexivity|].
    exists folds, es', ks', y_pred.
    split.
    { rewrite Frs. unfold selected_cv in Hcv |- *. simpl in Hcv.
      rewrite <- Hm0, <- Hn0, <- Hsh0. subst cv. exact Hsplit. }
    split; [exact Hpart|]. split; [exact Hes'|]. split; [exact Hks'|].
    split; [reflexivity|].
    split; [exact Hle|]. split; [now rewrite Hlk, empty_like_int_length|].
    split; [now rewrite Hly, empty_like_float_length|].
    intros j fold Hj. destruct (Hfolds j fold Hj) as (h' & e & Hh' & He & Hmod & Hoof & Hk).
    rewrite Se, He0 in Hh'. simpl in Hh'. injection Hh' as <-.
    exists e. repeat (split; [assumption|]). exact Hk.
Qed.

End FitFacts.

(** * The claims of the specification *)

(** ** The nan guard *)

Lemma forallb_isnan (row : list (option Q)) :
  forallb id (map (fun c => match c with None => true | Some _ => false end) row) = true
  <-> Forall (fun c => c = None) row.
Proof.
  induction row as [|c row IH]; simpl.
  - split; [constructor | reflexivity].
  - rewrite andb_true_iff, IH, Forall_cons. destruct c; simpl; intuition congruence.
Qed.

Lemma any_all_isnan (X : list (list (option Q))) :
  Utils.any_axis0 (Utils.all_axis1 (Utils.isnan X)) = true
  <-> Exists (Forall (fun c => c = None)) X.
Proof.
  unfold Utils.any_axis0, Utils.all_axis1, Utils.isnan.
  induction X as [|row X IH]; simpl.
  - split; [discriminate | intros H; inversion H].
  - rewrite orb_true_iff, IH, Exists_cons. unfold id at 1. now rewrite forallb_isnan.
Qed.

(** C9. [check_nan_in_aposteriori_prediction] never raises; it emits its
    warning, once, exactly when some row of the matrix holds nothing but
    nan, and emits nothing otherwise. *)
Theorem nan_guard_warns_iff_all_nan_row (X : list (list (option Q))) :
  fst (Utils.check_nan_in_aposteriori_prediction X) = Ok tt
  /\ (snd (Utils.check_nan_in_aposteriori_prediction X) = [Utils.at_least_one_point]
      <-> Exists (Forall (fun c => c = None)) X)
  /\ (snd (Utils.check_nan_in_aposteriori_prediction X) = []
      <-> ~ Exists (Forall (fun c => c = None)) X).
Proof.
  unfold Utils.check_nan_in_aposteriori_prediction.
  rewrite <- any_all_isnan.
  destruct (Utils.any_axis0 _); simpl.
  - split; [reflexivity|]. split; split; intros H;
      first [reflexivity | discriminate | now contradiction H].
  - split; [reflexivity|]. split; split; intros H;
      first [reflexivity | discriminate].
Qed.

Example nan_guard_example :
  snd (Utils.check_nan_in_aposteriori_prediction [[Some 1; None]; [None; None]])
  = [Utils.at_least_one_point]
  /\ snd (Utils.check_nan_in_aposteriori_prediction [[Some 1; None]; [None; Some 2]]) = [].
Proof. split; reflexivity. Qed.

(** ** The check of the number of samples *)

Lemma truediv_ok (a b : Q) : ~ b == 0 -> Utils.truediv a b = Ok (Binary64.div a b).
Proof.
  intros Hb. unfold Utils.truediv.
  destruct (Qeq_bool b 0) eqn:E; [|reflexivity].
  apply Qeq_bool_iff in E. contradiction.
Qed.

(** A double strictly between 0 and 1 is not zero, and neither is its
    difference to 1 once rounded: the two divisions go through. *)
Lemma check_step (a : Q) (alphas : list Q) (n : Z) :
  Binary64.fl a == a -> 0 < a -> a < 1 ->
  Utils.check_alpha_and_n_samples (a :: alphas) n
  = if Binary64.int_lt n (Binary64.div 1 a)
       || Binary64.int_lt n (Binary64.div 1 (Binary64.sub 1 a))
    then Raise (ValueError Utils.too_low)
    else Utils.check_alpha_and_n_samples alphas n.
Proof.
  intros Hd H0 H1. cbn [Utils.check_alpha_and_n_samples].
  assert (Hna : ~ a == 0) by lra.
  assert (Hnb : ~ Binary64.sub 1 a == 0).
  { pose proof (Binary64Facts.fl_one_minus_pos a Hd H1) as Hpos.
    unfold Binary64.sub. lra. }
  rewrite (truediv_ok 1 a Hna). cbn [rbind].
  destruct (Binary64.int_lt n (Binary64.div 1 a)); [reflexivity|].
  rewrite (truediv_ok 1 _ Hnb). reflexivity.
Qed.

(** More samples: a comparison that fails for [n] fails for every larger
    number. *)
Lemma int_lt_monotone (n n' : Z) (x : Binary64.float) :
  (n <= n')%Z -> Binary64.int_lt n x = false -> Binary64.int_lt n' x = false.
Proof.
  intros Hn. destruct x as [q| |]; simpl; [|discriminate | reflexivity].
  rewrite !negb_false_iff, !Qle_bool_iff. intros H.
  eapply Qle_trans; [exact H|]. now rewrite <- Zle_Qle.
Qed.

(** The two inputs at which the code and the exact quotients part: the
    double nearest to 0.9 gives [1/(1 - alpha)] just above 10, so that 10
    samples do not pass; the double nearest to 1/3 lies below 1/3, yet
    [1/alpha] rounds to 3 and 3 samples pass. A double so small that
    [1/alpha] overflows fails for every number of samples. *)
Example check_rounds_up :
  Utils.check_alpha_and_n_samples [Binary64.fl (9 # 10)] 10 = Raise (ValueError Utils.too_low).
Proof. vm_compute. reflexivity. Qed.

Example check_rounds_down :
  inject_Z 3 < 1 / Binary64.fl (1 # 3)
  /\ Utils.check_alpha_and_n_samples [Binary64.fl (1 # 3)] 3 = Ok tt.
Proof. split; vm_compute; reflexivity. Qed.

Example check_overflows (n : Z) :
  Utils.check_alpha_and_n_samples [Binary64.fl (1 # 10 ^ 310)] n
  = Raise (ValueError Utils.too_low).
Proof.
  cbn [Utils.check_alpha_and_n_samples].
  assert (E : Utils.truediv 1 (Binary64.fl (1 # 10 ^ 310)) = Ok Binary64.PInf)
    by (vm_compute; reflexivity).
  rewrite E. reflexivity.
Qed.

(** C2, as the code has it. For probabilities that are doubles strictly
    between 0 and 1, [check_alpha_and_n_samples] raises its error exactly
    when, for one of them, [n < 1/alpha] or [n < 1/(1 - alpha)], the
    difference and the two quotients being those of double precision;
    otherwise it returns. It never divides by zero. *)
Theorem check_alpha_and_n_samples_spec (alphas : list Q) (n : Z) :
  Forall (fun a => Binary64.fl a == a /\ 0 < a /\ a < 1) alphas ->
  (Exists (fun a => Binary64.int_lt n (Binary64.div 1 a) = true
                    \/ Binary64.int_lt n (Binary64.div 1 (Binary64.sub 1 a)) = true)
          alphas ->
   Utils.check_alpha_and_n_samples alphas n = Raise (ValueError Utils.too_low))
  /\ (~ Exists (fun a => Binary64.int_lt n (Binary64.div 1 a) = true
                         \/ Binary64.int_lt n (Binary64.div 1 (Binary64.sub 1 a)) = true)
               alphas ->
      Utils.check_alpha_and_n_samples alphas n = Ok tt).
Proof.
  induction 1 as [|a alphas (Hd & Ha0 & Ha1) _ [IHr IHo]].
  - split; [intros H; inversion H | reflexivity].
  - rewrite (check_step a alphas n Hd Ha0 Ha1).
    destruct (Binary64.int_lt n (Binary64.div 1 a)) eqn:E1.
    { split; [reflexivity|]. intros Hn. exfalso. apply Hn. left. now left. }
    destruct (Binary64.int_lt n (Binary64.div 1 (Binary64.sub 1 a))) eqn:E2.
    { split; [reflexivity|]. intros Hn. exfalso. apply Hn. left. now right. }
    cbn [orb]. split.
    + intros Hex. apply Exists_cons in Hex as [[Hex|Hex]|Hex]; [congruence | congruence|].
      now apply IHr.
    + intros Hn. apply IHo. intros Hex. apply Hn. now right.
Qed.

Lemma check_alpha_and_n_samples_witness :
  Forall (fun a => Binary64.fl a == a /\ 0 < a /\ a < 1) [Binary64.fl (1 # 10)]
  /\ Utils.check_alpha_and_n_samples [Binary64.fl (1 # 10)] 5
     = Raise (ValueError Utils.too_low).
Proof.
  assert (H : Forall (fun a => Binary64.fl a == a /\ 0 < a /\ a < 1)
                     [Binary64.fl (1 # 10)]).
  { constructor; [|constructor]. split; [|split]; vm_compute; reflexivity. }
  split; [exact H|].
  apply (proj1 (check_alpha_and_n_samples_spec [Binary64.fl (1 # 10)] 5 H)).
  left. left. vm_compute. reflexivity.
Defined.

(** C2, refuted as stated: with five training samples and alpha = 0.1,
    although [5 < 1/alpha], [fit] returns and [predict] returns a table;
    neither calls [check_alpha_and_n_samples]. *)
Lemma five_samples_fit_and_predict :
  inject_Z 5 < 1 / alpha Toy.by_default
  /\ length Toy.X_five = 5%nat
  /\ fst (toy_fit Toy.X_five Toy.y_five Toy.by_default) = Ok tt
  /\ is_ok (toy_predict (snd (toy_fit Toy.X_five Toy.y_five Toy.by_default)) Toy.X_five) = true.
Proof. repeat split; vm_compute; reflexivity. Qed.

(** ** Validation of the configuration *)

Section Validation.

Context {features hyper model : Type}.
Context `{Reg : Regressor features hyper model}.
Context `{RT : Runtime}.

Lemma _check_parameters_invalid (self : MapieRegressor hyper model) :
  ~ valid_parameters self ->
  exists msg, _check_parameters self = (Raise (ValueError msg), self).
Proof.
  intros Hinv. unfold _check_parameters, bind, read, raise, lift.
  destruct (Qlt_bool 0 (alpha self) && Qlt_bool (alpha self) 1) eqn:Ea;
    cbn [negb]; [|eauto].
  destruct (str_in (method self) valid_methods) eqn:Em; cbn [negb]; [|eauto].
  destruct (str_in (return_pred self) valid_return_preds) eqn:Er; cbn [negb]; [|eauto].
  exfalso. apply Hinv. apply andb_true_iff in Ea as [H0 H1].
  apply Qlt_bool_iff in H0, H1. repeat split; assumption.
Qed.

End Validation.

(** C6, as the code has it. When alpha is outside (0, 1), or the method
    or return_pred is not a valid name, [fit] raises a [ValueError] at its
    first statement: no model is trained and the object is left exactly as
    it was. ([predict] validates nothing but the presence of
    [single_estimator_].) *)
Theorem fit_rejects_invalid_parameters {features hyper model : Type}
  `{Reg : Regressor features hyper model} `{RT : Runtime}
  (X : list features) (y : list Q) (self : MapieRegressor hyper model) :
  ~ valid_parameters self ->
  exists msg, fit X y self = (Raise (ValueError msg), self).
Proof.
  intros Hinv. destruct (_check_parameters_invalid self Hinv) as (msg & Hmsg).
  exists msg. unfold fit, bind at 1. rewrite Hmsg. reflexivity.
Qed.

Lemma fit_rejects_invalid_parameters_witness :
  ~ valid_parameters (set_alpha 2 Toy.pireg)
  /\ exists msg,
       toy_fit Toy.X_toy Toy.y_toy (set_alpha 2 Toy.pireg)
       = (Raise (ValueError msg), set_alpha 2 Toy.pireg).
Proof.
  assert (H : ~ valid_parameters (set_alpha 2 Toy.pireg)).
  { intros (_ & H1 & _). vm_compute in H1. discriminate. }
  split; [exact H|].
  exact (fit_rejects_invalid_parameters Toy.X_toy Toy.y_toy (set_alpha 2 Toy.pireg) H).
Defined.

(** C6, refuted as stated: once fitted, an object whose alpha has been set
    to 0 is not rejected by [predict], which returns a table. *)
Lemma predict_does_not_validate :
  ~ valid_parameters (set_alpha 0 (snd (toy_fit Toy.X_toy Toy.y_toy Toy.pireg)))
  /\ is_ok (toy_predict (set_alpha 0 (snd (toy_fit Toy.X_toy Toy.y_toy Toy.pireg))) Toy.X_toy)
     = true.
Proof.
  split.
  - intros (H0 & _). vm_compute in H0. discriminate.
  - vm_compute. reflexivity.
Qed.

(** The only thing that [predict] checks at entry: without
    [single_estimator_] it raises [NotFittedError], whatever the
    configuration. *)
Lemma predict_unfitted {features hyper model : Type}
  `{Reg : Regressor features hyper model}
  (self : MapieRegressor hyper model) (X : list features) :
  single_estimator_ self = None -> predict self X = Raise NotFittedError.
Proof. intros H. unfold predict, check_is_fitted. now rewrite H. Qed.

(** ** What [fit] does to the configuration *)

Lemma cv_is_not_naive (m : string) :
  startswith m "cv" = true -> String.eqb m "naive" = false.
Proof.
  intros Hcv. destruct (String.eqb m "naive") eqn:E; [|reflexivity].
  apply String.eqb_eq in E. subst m. discriminate.
Qed.

(** C10. A successful [fit] writes to the constructor arguments: an
    estimator that was [None] is now the default least-squares regressor,
    and, for a method that starts with "cv" and with shuffle off, the
    random_state is now [None]. *)
Theorem fit_mutates_configuration {features hyper model : Type}
  `{Reg : Regressor features hyper model} `{RT : Runtime}
  (X : list features) (y : list Q) (self self' : MapieRegressor hyper model) (u : unit) :
  fit X y self = (Ok u, self') ->
  (estimator self = None -> estimator self' = Some LinearRegression)
  /\ (startswith (method self) "cv" = true -> shuffle self = false ->
      random_state self' = None).
Proof.
  intros H. apply fit_ok in H as (_ & _ & _ & h & single & Hh & He & _ & _ & _ & _ & _ & _ & _ & Hm).
  split.
  - intros Hnone. rewrite Hnone in Hh. simpl in Hh. congruence.
  - intros Hcv Hsh. rewrite (cv_is_not_naive _ Hcv) in Hm.
    destruct Hm as (Hrs & _). rewrite Hrs, Hcv, Hsh. reflexivity.
Qed.

Lemma fit_mutates_configuration_witness :
  toy_fit Toy.X_toy Toy.y_toy Toy.unshuffled
  = (Ok tt, snd (toy_fit Toy.X_toy Toy.y_toy Toy.unshuffled))
  /\ estimator Toy.unshuffled = None
  /\ random_state Toy.unshuffled = Some 42%Z
  /\ estimator (snd (toy_fit Toy.X_toy Toy.y_toy Toy.unshuffled)) = Some Toy.OLS
  /\ random_state (snd (toy_fit Toy.X_toy Toy.y_toy Toy.unshuffled)) = None.
Proof.
  assert (H : toy_fit Toy.X_toy Toy.y_toy Toy.unshuffled
              = (Ok tt, snd (toy_fit Toy.X_toy Toy.y_toy Toy.unshuffled))).
  { vm_compute. reflexivity. }
  destruct (fit_mutates_configuration _ _ _ _ _ H) as [He Hrs].
  split; [exact H|]. split; [reflexivity|]. split; [reflexivity|].
  split; [exact (He eq_refl) | exact (Hrs eq_refl eq_refl)].
Defined.

(** ** Independence from the seed when shuffle is off *)

Section Seed.

Context {features hyper model : Type}.
Context `{Reg : Regressor features hyper model}.
Context `{RT : Runtime}.

Abbreviation obj := (MapieRegressor hyper model).

Lemma same_but_seed_field {A : Type} (f : obj -> A) (s1 s2 : obj) :
  (forall s, f (set_random_state None s) = f s) ->
  same_but_seed s1 s2 -> f s1 = f s2.
Proof. intros Hf [_ Heq]. rewrite <- (Hf s1), <- (Hf s2), Heq. reflexivity. Qed.

Lemma seed_blind_bind {A B : Type} (c : @M hyper model A) (k : A -> @M hyper model B) :
  seed_blind c -> (forall a, seed_blind (k a)) -> seed_blind (bind c k).
Proof.
  intros Hc Hk s1 s2 Hs. unfold bind.
  destruct (Hc s1 s2 Hs) as [Hfst Hsnd].
  destruct (c s1) as [[a1|e1] s1'], (c s2) as [[a2|e2] s2']; simpl in *;
    try discriminate Hfst.
  - injection Hfst as ->. now apply Hk.
  - injection Hfst as ->. now split.
Qed.

Lemma seed_blind_lift {A : Type} (r : result A) : seed_blind (@lift hyper model A r).
Proof. intros s1 s2 Hs. simpl. auto. Qed.

Lemma seed_blind_ret {A : Type} (a : A) : seed_blind (@ret hyper model A a).
Proof. intros s1 s2 Hs. simpl. auto. Qed.

Lemma seed_blind_read {A : Type} (f : obj -> A) :
  (forall s, f (set_random_state None s) = f s) -> seed_blind (read f).
Proof.
  intros Hf s1 s2 Hs. simpl. split; [|assumption].
  f_equal. now apply same_but_seed_field.
Qed.

Lemma seed_blind_getattr {A : Type} (name : string) (f : obj -> option A) :
  (forall s, f (set_random_state None s) = f s) ->
  seed_blind (fun self => (getattr name (f self), self)).
Proof.
  intros Hf s1 s2 Hs. simpl. split; [|assumption].
  f_equal. now apply same_but_seed_field.
Qed.

Lemma seed_blind_assign (f : obj -> obj) :
  (forall s, set_random_state None (f s) = f (set_random_state None s)) ->
  (forall s, shuffle (f s) = shuffle s) ->
  seed_blind (assign f).
Proof.
  intros Hcomm Hsh s1 s2 [Hs Heq]. simpl. split; [reflexivity|].
  split; [now rewrite Hsh|]. now rewrite !Hcomm, Heq.
Qed.

Ltac seed_blind_steps :=
  repeat first
    [ apply seed_blind_bind; [|intros ?]
    | apply seed_blind_lift
    | apply seed_blind_ret
    | apply seed_blind_read; reflexivity
    | apply seed_blind_getattr; reflexivity
    | apply seed_blind_assign; reflexivity ].

Lemma seed_blind__check_parameters :
  seed_blind (hyper := hyper) (model := model) _check_parameters.
Proof.
  unfold _check_parameters, raise.
  apply seed_blind_bind; [apply seed_blind_read; reflexivity | intros a].
  destruct (negb _); [apply seed_blind_lift|].
  apply seed_blind_bind; [apply seed_blind_read; reflexivity | intros m].
  destruct (negb _); [apply seed_blind_lift|].
  apply seed_blind_bind; [apply seed_blind_read; reflexivity | intros rp].
  destruct (negb _); [apply seed_blind_lift|].
  apply seed_blind_bind; [apply seed_blind_read; reflexivity | intros e].
  destruct e; [apply seed_blind_ret | apply seed_blind_assign; reflexivity].
Qed.

(** The one place where the seed is read: after it has been erased. *)
Lemma seed_blind__select_cv :
  seed_blind (hyper := hyper) (model := model) _select_cv.
Proof.
  intros s1 s2 [Hsh Heq].
  assert (Hm : method s1 = method s2)
    by (apply (same_but_seed_field method); [reflexivity | now split]).
  assert (Hsh2 : shuffle s2 = false)
    by (rewrite <- Hsh; symmetry; apply (same_but_seed_field shuffle); [reflexivity | now split]).
  assert (Hn : n_splits s1 = n_splits s2)
    by (apply (same_but_seed_field n_splits); [reflexivity | now split]).
  unfold _select_cv, bind, read, raise, lift, ret, assign. rewrite <- Hm.
  destruct (startswith (method s1) "cv").
  - rewrite Hsh, Hsh2. simpl. rewrite Hsh, Hsh2, <- Hn, <- Heq.
    split; [reflexivity|]. split; [exact Hsh | reflexivity].
  - destruct (startswith (method s1) "jackknife"); simpl; split; auto; now split.
Qed.

Lemma seed_blind_fit_fold (X : list features) (y : list Q) (k : nat)
  (fold : list nat * list nat) (y_pred : list Q) :
  seed_blind (fit_fold X y k fold y_pred).
Proof. destruct fold as [train_fold val_fold]. unfold fit_fold. seed_blind_steps. Qed.

Lemma seed_blind_fit_folds (X : list features) (y : list Q)
  (folds : list (list nat * list nat)) :
  forall (k : nat) (y_pred : list Q), seed_blind (fit_folds X y k folds y_pred).
Proof.
  induction folds as [|fold folds IH]; intros k y_pred; simpl.
  - apply seed_blind_ret.
  - apply seed_blind_bind; [apply seed_blind_fit_fold | intros y_pred'; apply IH].
Qed.

Lemma seed_blind_fit (X : list features) (y : list Q) : seed_blind (fit X y).
Proof.
  unfold fit.
  apply seed_blind_bind; [apply seed_blind__check_parameters | intros _].
  apply seed_blind_bind; [apply seed_blind_lift | intros [X' y']].
  apply seed_blind_bind; [apply seed_blind_read; reflexivity | intros est].
  apply seed_blind_bind; [apply seed_blind_lift | intros h].
  apply seed_blind_bind; [apply seed_blind_lift | intros single].
  apply seed_blind_bind; [apply seed_blind_assign; reflexivity | intros _].
  apply seed_blind_bind; [apply seed_blind_read; reflexivity | intros m].
  apply seed_blind_bind; [|intros y_pred; apply seed_blind_assign; reflexivity].
  destruct (String.eqb m "naive").
  - seed_blind_steps.
  - apply seed_blind_bind; [apply seed_blind__select_cv | intros cv].
    apply seed_blind_bind; [apply seed_blind_assign; reflexivity | intros _].
    apply seed_blind_bind; [apply seed_blind_assign; reflexivity | intros _].
    apply seed_blind_bind; [apply seed_blind_lift | intros folds].
    apply seed_blind_fit_folds.
Qed.

Lemma predict_ignores_seed (s : obj) (X : list features) :
  predict (set_random_state None s) X = predict s X.
Proof. reflexivity. Qed.

End Seed.

(** C7. With shuffle off the seed does not matter: from the same object,
    given two different values of random_state, [fit] on the same data
    ends the same way (same return or same exception) and the two objects
    it leaves predict the same result on any input. *)
Theorem random_state_irrelevant_without_shuffle {features hyper model : Type}
  `{Reg : Regressor features hyper model} `{RT : Runtime}
  (X : list features) (y : list Q) (X_new : list features)
  (self : MapieRegressor hyper model) (seed1 seed2 : option Z) :
  shuffle self = false ->
  fst (fit X y (set_random_state seed1 self)) = fst (fit X y (set_random_state seed2 self))
  /\ predict (snd (fit X y (set_random_state seed1 self))) X_new
     = predict (snd (fit X y (set_random_state seed2 self))) X_new.
Proof.
  intros Hsh.
  destruct (seed_blind_fit X y (set_random_state seed1 self) (set_random_state seed2 self))
    as [Hfst [_ Hsnd]].
  { split; [exact Hsh | reflexivity]. }
  split; [exact Hfst|].
  rewrite <- (predict_ignores_seed (snd (fit X y (set_random_state seed1 self)))).
  rewrite <- (predict_ignores_seed (snd (fit X y (set_random_state seed2 self)))).
  now rewrite Hsnd.
Qed.

Lemma random_state_irrelevant_without_shuffle_witness :
  shuffle Toy.unshuffled = false
  /\ fst (toy_fit Toy.X_toy Toy.y_toy (set_random_state (Some 1%Z) Toy.unshuffled))
     = fst (toy_fit Toy.X_toy Toy.y_toy (set_random_state (Some 2%Z) Toy.unshuffled))
  /\ toy_predict (snd (toy_fit Toy.X_toy Toy.y_toy (set_random_state (Some 1%Z) Toy.unshuffled)))
       Toy.X_five
     = toy_predict (snd (toy_fit Toy.X_toy Toy.y_toy (set_random_state (Some 2%Z) Toy.unshuffled)))
         Toy.X_five.
Proof.
  split; [reflexivity|].
  exact (random_state_irrelevant_without_shuffle Toy.X_toy Toy.y_toy Toy.X_five
           Toy.unshuffled (Some 1%Z) (Some 2%Z) eq_refl).
Defined.

(** ** Shapes of the arrays of [predict] *)

Module ShapeFacts.

Lemma stack_axis1_ok (arrays : list (list Q)) (m : nat) :
  arrays <> [] -> Forall (fun b => length b = m) arrays ->
  Np.stack_axis1 arrays
  = Ok (map (fun i => map (fun b => default 0 (b !! i)) arrays) (seq 0 m)).
Proof.
  intros Hne Hall. destruct arrays as [|a arrays]; [congruence|].
  unfold Np.stack_axis1.
  assert (Ha : length a = m) by (now inversion Hall).
  rewrite Ha.
  assert (Hb : forallb (fun b => (length b =? m)%nat) (a :: arrays) = true).
  { apply forallb_forall. intros b Hb. apply Nat.eqb_eq.
    rewrite Forall_forall in Hall. apply Hall. now apply list_elem_of_In. }
  now rewrite Hb.
Qed.

Lemma stack_axis1_inv (arrays A : list (list Q)) :
  Np.stack_axis1 arrays = Ok A ->
  exists m, arrays <> [] /\ Forall (fun b => length b = m) arrays
            /\ A = map (fun i => map (fun b => default 0 (b !! i)) arrays) (seq 0 m).
Proof.
  unfold Np.stack_axis1. destruct arrays as [|a arrays]; [discriminate|].
  destruct (forallb _ _) eqn:Hb; [|discriminate].
  intros H. injection H as <-. exists (length a).
  split; [discriminate|]. split; [|reflexivity].
  apply Forall_forall. intros b Hin. apply list_elem_of_In in Hin.
  rewrite forallb_forall in Hb. apply Nat.eqb_eq. now apply Hb.
Qed.

(** The table of [predict] from its three columns. *)
Lemma stack_three (c l u : list Q) :
  length l = length c -> length u = length c ->
  Np.stack_axis1 [c; l; u]
  = Ok (map (fun i => [default 0 (c !! i); default 0 (l !! i); default 0 (u !! i)])
            (seq 0 (length c))).
Proof.
  intros Hl Hu. apply stack_axis1_ok; [discriminate|].
  repeat constructor; assumption.
Qed.

Lemma normalize_index_nat (n k : nat) :
  (k < n)%nat -> Np.normalize_index n (Z.of_nat k) = Ok k.
Proof.
  intros Hk. unfold Np.normalize_index.
  assert (H0 : (0 <=? Z.of_nat k)%Z = true) by (apply Z.leb_le; lia).
  assert (H1 : (Z.of_nat k <? Z.of_nat n)%Z = true) by (apply Z.ltb_lt; lia).
  rewrite H0, H1. simpl. now rewrite Nat2Z.id.
Qed.

(** Picking columns by fold numbers that are all in range. *)
Lemma take_columns_ok (A : list (list Q)) (ks : list Z) (c : nat) :
  Forall (fun row => length row = c) A ->
  Forall (fun kz => exists k, kz = Z.of_nat k /\ (k < c)%nat) ks ->
  exists A',
    Np.take_columns A ks = Ok A'
    /\ length A' = length A
    /\ forall i row row', A !! i = Some row -> A' !! i = Some row' ->
         length row' = length ks
         /\ forall j k, ks !! j = Some (Z.of_nat k) -> row' !! j = row !! k.
Proof.
  intros Hrows Hks.
  assert (Hrow : forall row : list Q, length row = c ->
            exists row',
              rmap (fun i => let* j := Np.normalize_index (length row) i in
                             match row !! j with
                             | Some v => Ok v
                             | None => Raise IndexError
                             end) ks = Ok row'
              /\ length row' = length ks
              /\ forall j k, ks !! j = Some (Z.of_nat k) -> row' !! j = row !! k).
  { intros row Hlen.
    destruct (rmap_total
                (fun i : Z => let* j := Np.normalize_index (length row) i in
                          match row !! j with
                          | Some v => Ok v
                          | None => Raise IndexError
                          end) ks) as (row' & Hrow').
    { eapply Forall_impl; [exact Hks|]. intros kz (k & -> & Hk). simpl.
      rewrite normalize_index_nat by lia. simpl.
      destruct (row !! k) eqn:E; [eauto|].
      apply lookup_ge_None in E. lia. }
    exists row'. split; [exact Hrow'|]. split; [eapply rmap_length, Hrow'|].
    intros j k Hj.
    destruct (rmap_lookup _ _ _ _ _ Hrow' Hj) as (v & Hv & Hf).
    rewrite Forall_forall in Hks.
    destruct (Hks _ (list_elem_of_lookup_2 _ _ _ Hj)) as (k' & Hk' & Hlt).
    apply Nat2Z.inj in Hk'. subst k'.
    rewrite normalize_index_nat in Hf by lia. simpl in Hf.
    destruct (row !! k); [|discriminate]. injection Hf as ->. exact Hv. }
  destruct (rmap_total
              (fun row : list Q => rmap (fun i => let* j := Np.normalize_index (length row) i in
                                         match row !! j with
                                         | Some v => Ok v
                                         | None => Raise IndexError
                                         end) ks) A) as (A' & HA').
  { eapply Forall_impl; [exact Hrows|]. intros row Hlen. simpl.
    destruct (Hrow row Hlen) as (row' & Hr & _). eauto. }
  exists A'. split; [exact HA'|]. split; [eapply rmap_length, HA'|].
  intros i row row' Hi Hi'.
  destruct (rmap_lookup _ _ _ _ _ HA' Hi) as (r & Hr & Hf).
  rewrite Hi' in Hr. injection Hr as <-.
  rewrite Forall_forall in Hrows.
  destruct (Hrow row (Hrows _ (list_elem_of_lookup_2 _ _ _ Hi))) as (r & Hr & Hlen & Hcols).
  rewrite Hf in Hr. injection Hr as <-. auto.
Qed.

End ShapeFacts.

(** ** Residuals and fold assignment after [fit] *)

Lemma abs_diff_length (a b : list Q) :
  length a = length b -> length (Np.abs_diff a b) = length a.
Proof. intros H. unfold Np.abs_diff. rewrite length_zip_with. lia. Qed.

Lemma abs_diff_lookup (a b : list Q) (i : nat) (x p : Q) :
  a !! i = Some x -> b !! i = Some p -> Np.abs_diff a b !! i = Some (Qabs (x - p)).
Proof.
  intros Ha Hb. unfold Np.abs_diff. rewrite lookup_zip_with, Ha. simpl.
  rewrite Hb. reflexivity.
Qed.

Lemma abs_diff_nonneg (a b : list Q) : Forall (fun r => 0 <= r) (Np.abs_diff a b).
Proof.
  unfold Np.abs_diff. revert b.
  induction a as [|x a IH]; intros [|p b]; cbn [zip_with]; constructor.
  - apply Qabs_nonneg.
  - apply IH.
Qed.

Section AfterFit.

Context {features hyper model : Type}.
Context `{Reg : Regressor features hyper model}.
Context `{RT : Runtime}.

(** Every training row has its fold: the row is in the validation set of
    the fold, not in its training set, carries the number of the fold in
    [ks], and the model at that place of [es] is the model of the fold. *)
Lemma trained_row (X : list features) (y : list Q) (h : hyper)
  (folds : list (list nat * list nat)) (es : list model) (ks : list Z) (y_pred : list Q) :
  partition_folds (length X) folds ->
  trained_folds X y h folds es ks y_pred ->
  forall j, (j < length X)%nat ->
    exists k fold e,
      folds !! k = Some fold /\ j ∈ snd fold /\ (j ∉ fst fold)
      /\ ks !! j = Some (Z.of_nat k) /\ es !! k = Some e
      /\ fold_model X y h fold e /\ out_of_fold X fold e y_pred.
Proof.
  intros (Hshape & _ & Hcover) (_ & _ & _ & Htrained) j Hj.
  destruct (Hcover j Hj) as (k & tr & val & Hk & Hin).
  destruct (Hshape k tr val Hk) as (_ & _ & _ & Htr).
  destruct (Htrained k (tr, val) Hk) as (e & He & Hmodel & Hoof & Hks).
  exists k, (tr, val), e. simpl.
  split; [assumption|]. split; [assumption|].
  split; [intros Hc; apply Htr in Hc as [_ Hc]; contradiction|].
  split; [now apply Hks|]. auto.
Qed.

End AfterFit.

(** C8. After a successful [fit] on n rows the stored residuals are n
    numbers, each the absolute difference between the label of its row and
    the out-of-fold prediction for that row, hence non-negative. The
    out-of-fold predictions are those of the single model for "naive",
    and otherwise, for each row, the prediction of the model of the fold
    that holds the row in its validation set and not in its training set. *)
Theorem residuals_after_fit {features hyper model : Type}
  `{Reg : Regressor features hyper model} `{RT : Runtime}
  (X : list features) (y : list Q) (self self' : MapieRegressor hyper model) (u : unit) :
  fit X y self = (Ok u, self') ->
  exists residuals oof,
    residuals_ self' = Some residuals
    /\ length residuals = length X /\ length oof = length X
    /\ (forall i, (i < length X)%nat ->
          exists yi pi, y !! i = Some yi /\ oof !! i = Some pi
                        /\ residuals !! i = Some (Qabs (yi - pi)))
    /\ Forall (fun r => 0 <= r) residuals
    /\ (method self = "naive"%string ->
          exists single, single_estimator_ self' = Some single /\ oof = est_predict single X)
    /\ (method self <> "naive"%string ->
          exists h folds es,
            Sk.split (selected_cv self (random_state self')) (length X) = Ok folds
            /\ estimators_ self' = Some es
            /\ forall i, (i < length X)%nat ->
                 exists k fold e,
                   folds !! k = Some fold /\ i ∈ snd fold /\ (i ∉ fst fold)
                   /\ es !! k = Some e /\ fold_model X y h fold e
                   /\ out_of_fold X fold e oof).
Proof.
  intros H.
  apply fit_ok in H
    as (_ & _ & Hlen & h & single & _ & _ & _ & _ & _ & _ & _ & _ & Hsingle & Hm).
  assert (Hrows : forall oof, length oof = length X ->
            forall i, (i < length X)%nat ->
              exists yi pi, y !! i = Some yi /\ oof !! i = Some pi
                            /\ Np.abs_diff y oof !! i = Some (Qabs (yi - pi))).
  { intros oof Hoof i Hi.
    destruct (lookup_lt_is_Some_2 y i ltac:(lia)) as [yi Hyi].
    destruct (lookup_lt_is_Some_2 oof i ltac:(lia)) as [pi Hpi].
    exists yi, pi. split; [assumption|]. split; [assumption|].
    now apply abs_diff_lookup. }
  destruct (String.eqb (method self) "naive") eqn:Enaive.
  - destruct Hm as (_ & _ & _ & Hres).
    assert (Hoof : length (est_predict single X) = length X) by apply est_predict_length.
    exists (Np.abs_diff y (est_predict single X)), (est_predict single X).
    split; [assumption|].
    split; [rewrite abs_diff_length; lia|]. split; [assumption|].
    split; [now apply Hrows|]. split; [apply abs_diff_nonneg|].
    split; [intros _; eauto|].
    intros Hne. apply String.eqb_eq in Enaive. contradiction.
  - destruct Hm as (_ & folds & es & ks & y_pred & Hsplit & Hpart & Hes & Hks & Hres & Htrained).
    assert (Hoof : length y_pred = length X) by (destruct Htrained as (_ & _ & Hl & _); lia).
    exists (Np.abs_diff y y_pred), y_pred.
    split; [assumption|].
    split; [rewrite abs_diff_length; lia|]. split; [assumption|].
    split; [now apply Hrows|]. split; [apply abs_diff_nonneg|].
    split; [intros Heq; apply String.eqb_neq in Enaive; contradiction|].
    intros _. exists h, folds, es.
    split; [assumption|]. split; [assumption|].
    intros i Hi.
    destruct (trained_row _ _ _ _ _ _ _ Hpart Htrained i Hi)
      as (k & fold & e & Hk & Hin & Hout & _ & He & Hmodel & Hoofk).
    exists k, fold, e. auto 10.
Qed.

Lemma residuals_after_fit_witness :
  toy_fit Toy.X_toy Toy.y_toy Toy.pireg
  = (Ok tt, snd (toy_fit Toy.X_toy Toy.y_toy Toy.pireg))
  /\ exists residuals,
       residuals_ (snd (toy_fit Toy.X_toy Toy.y_toy Toy.pireg)) = Some residuals
       /\ length residuals = length Toy.X_toy
       /\ Forall (fun r => 0 <= r) residuals.
Proof.
  assert (H : toy_fit Toy.X_toy Toy.y_toy Toy.pireg
              = (Ok tt, snd (toy_fit Toy.X_toy Toy.y_toy Toy.pireg))).
  { vm_compute. reflexivity. }
  split; [exact H|].
  destruct (residuals_after_fit _ _ _ _ _ H) as (residuals & oof & Hr & Hl & _ & _ & Hn & _).
  exists residuals. auto.
Defined.

(** ** The matrix of fold predictions *)

Section PredictMulti.

Context {features hyper model : Type}.
Context `{Reg : Regressor features hyper model}.

(** With at least one fold model, [predict_multi] gives one row per test
    sample and one column per fold model, in the order of [estimators_]. *)
Lemma predict_multi_ok (self : MapieRegressor hyper model) (X_new : list features)
  (es : list model) :
  estimators_ self = Some es -> es <> [] ->
  exists P,
    predict_multi self X_new = Ok P
    /\ length P = length X_new
    /\ Forall (fun row => length row = length es) P
    /\ forall i k e, (i < length X_new)%nat -> es !! k = Some e ->
         exists row, P !! i = Some row /\ row !! k = est_predict e X_new !! i.
Proof.
  intros Hes Hne. unfold predict_multi. rewrite Hes. simpl.
  rewrite (ShapeFacts.stack_axis1_ok _ (length X_new)).
  - eexists. split; [reflexivity|].
    split; [now rewrite length_map, length_seq|]. split.
    + apply Forall_forall. intros row Hrow.
      apply list_elem_of_fmap in Hrow as (i & -> & _).
      now rewrite !length_map.
    + intros i k e Hi Hk. eexists. split.
      * rewrite list_lookup_fmap, lookup_seq_lt by assumption. reflexivity.
      * simpl. rewrite !list_lookup_fmap, Hk. simpl.
        destruct (lookup_lt_is_Some_2 (est_predict e X_new) i) as [v Hv].
        { now rewrite est_predict_length. }
        now rewrite Hv.
  - destruct es; [congruence | discriminate].
  - apply Forall_forall. intros b Hb.
    apply list_elem_of_fmap in Hb as (e & -> & _). apply est_predict_length.
Qed.

End PredictMulti.

(** After a successful [fit] with "cv_plus", the matrix of fold
    predictions re-indexed by [k_] has one column per training row, and
    the column of training row j holds the predictions of the model of
    the fold whose validation set contains j, a model fitted on training
    rows that do not include j. *)
Lemma reindexed_columns {features hyper model : Type}
  `{Reg : Regressor features hyper model} `{RT : Runtime}
  (X : list features) (y : list Q) (X_new : list features)
  (self self' : MapieRegressor hyper model) (u : unit) :
  fit X y self = (Ok u, self') ->
  method self = "cv_plus"%string ->
  exists P P' h folds es ks,
    predict_multi self' X_new = Ok P /\ reindex self' P = Ok P'
    /\ Sk.split (selected_cv self (random_state self')) (length X) = Ok folds
    /\ estimators_ self' = Some es /\ k_ self' = Some ks
    /\ length P' = length X_new
    /\ forall j, (j < length X)%nat ->
         exists k fold e,
           folds !! k = Some fold /\ j ∈ snd fold /\ (j ∉ fst fold)
           /\ ks !! j = Some (Z.of_nat k) /\ es !! k = Some e
           /\ fold_model X y h fold e
           /\ forall i, (i < length X_new)%nat ->
                exists row', P' !! i = Some row' /\ length row' = length X
                             /\ row' !! j = est_predict e X_new !! i.
Proof.
  intros H Hcv.
  apply fit_ok in H
    as (_ & HX & Hlen & h & single & _ & _ & _ & Hmeth & _ & _ & _ & _ & _ & Hm).
  rewrite Hcv in Hm. simpl in Hm.
  destruct Hm as (_ & folds & es & ks & y_pred & Hsplit & Hpart & Hes & Hks & _ & Htrained).
  pose proof (trained_row _ _ _ _ _ _ _ Hpart Htrained) as Hrow.
  assert (Hlks : length ks = length X) by (destruct Htrained as (_ & Hl & _); lia).
  assert (Hne : es <> []).
  { destruct X as [|x X]; [congruence|].
    destruct (Hrow 0%nat ltac:(simpl; lia)) as (k & _ & e & _ & _ & _ & _ & He & _).
    intros ->. inversion He. }
  destruct (predict_multi_ok self' X_new es Hes Hne) as (P & HP & HlP & Hrows & Hcell).
  assert (Hrange : Forall (fun kz => exists k, kz = Z.of_nat k /\ (k < length es)%nat) ks).
  { apply Forall_lookup. intros j kz Hj.
    destruct (Hrow j ltac:(apply lookup_lt_Some in Hj; lia))
      as (k & _ & e & _ & _ & _ & Hk & He & _).
    rewrite Hk in Hj. injection Hj as <-. exists k. split; [reflexivity|].
    eapply lookup_lt_Some, He. }
  destruct (ShapeFacts.take_columns_ok P ks (length es) Hrows Hrange)
    as (P' & HP' & HlP' & Hcols).
  exists P, P', h, folds, es, ks.
  split; [exact HP|].
  split; [unfold reindex; rewrite Hmeth, Hcv, Hks; exact HP'|].
  split; [exact Hsplit|]. split; [exact Hes|]. split; [exact Hks|].
  split; [lia|].
  intros j Hj.
  destruct (Hrow j Hj) as (k & fold & e & Hk & Hin & Hout & Hkj & He & Hmodel & _).
  exists k, fold, e. repeat (split; [assumption|]).
  intros i Hi.
  destruct (Hcell i k e Hi He) as (row & Hrowi & Hrk).
  destruct (lookup_lt_is_Some_2 P' i ltac:(lia)) as [row' Hrow'].
  destruct (Hcols i row row' Hrowi Hrow') as [Hlr Hpick].
  exists row'. split; [exact Hrow'|]. split; [lia|].
  rewrite (Hpick j k Hkj). exact Hrk.
Qed.

(** The fold assignment of the toy k-fold run, and the re-indexed matrix:
    the first three training rows are in fold 0, the last three in fold 1,
    and each row of the matrix repeats the prediction of fold model 0
    three times, then that of fold model 1. *)
Example cv_plus_reindexing_example :
  k_ (snd (toy_fit Toy.X_toy Toy.y_toy Toy.unshuffled))
  = Some [0; 0; 0; 1; 1; 1]%Z
  /\ (let* P := toy_predict_multi (snd (toy_fit Toy.X_toy Toy.y_toy Toy.unshuffled)) [0; 1] in
      reindex (snd (toy_fit Toy.X_toy Toy.y_toy Toy.unshuffled)) P)
     = Ok [[11 # 3; 11 # 3; 11 # 3; 61 # 12; 61 # 12; 61 # 12];
           [71 # 12; 71 # 12; 71 # 12; 22 # 3; 22 # 3; 22 # 3]].
Proof. split; vm_compute; reflexivity. Qed.

(** ** Quantiles, minima, maxima and medians against the specification *)

Module RuleFacts.



Lemma fold_left_Qmin_spec (a : list Q) :
  forall x, (fold_left Qmin a x = x \/ fold_left Qmin a x ∈ a)
            /\ fold_left Qmin a x <= x
            /\ Forall (fun z => fold_left Qmin a x <= z) a.
Proof.
  induction a as [|y a IH]; intros x; simpl.
  - split; [now left|]. split; [apply Qle_refl | constructor].
  - destruct (IH (Qmin x y)) as (Hin & Hle & Hall).
    assert (Hxy : Qmin x y = x \/ Qmin x y = y).
    { unfold Qmin, GenericMinMax.gmin. destruct (x ?= y); auto. }
    split; [|split].
    + destruct Hin as [Hin|Hin]; [|right; now right].
      rewrite Hin. destruct Hxy as [->| ->]; [now left | right; left].
    + eapply Qle_trans; [exact Hle | apply Q.le_min_l].
    + constructor; [|exact Hall].
      eapply Qle_trans; [exact Hle | apply Q.le_min_r].
Qed.

Lemma fold_left_Qmax_spec (a : list Q) :
  forall x, (fold_left Qmax a x = x \/ fold_left Qmax a x ∈ a)
            /\ x <= fold_left Qmax a x
            /\ Forall (fun z => z <= fold_left Qmax a x) a.
Proof.
  induction a as [|y a IH]; intros x; simpl.
  - split; [now left|]. split; [apply Qle_refl | constructor].
  - destruct (IH (Qmax x y)) as (Hin & Hle & Hall).
    assert (Hxy : Qmax x y = x \/ Qmax x y = y).
    { unfold Qmax, GenericMinMax.gmax. destruct (x ?= y); auto. }
    split; [|split].
    + destruct Hin as [Hin|Hin]; [|right; now right].
      rewrite Hin. destruct Hxy as [->| ->]; [now left | right; left].
    + eapply Qle_trans; [apply Q.le_max_l | exact Hle].
    + constructor; [|exact Hall].
      eapply Qle_trans; [apply Q.le_max_r | exact Hle].
Qed.

Lemma min_spec (a : list Q) (v : Q) : Np.min a = Ok v -> is_min a v.
Proof.
  destruct a as [|x a]; [discriminate|]. simpl. intros H. injection H as <-.
  destruct (fold_left_Qmin_spec a x) as (Hin & Hle & Hall). split.
  - destruct Hin as [-> | Hin]; [left | now right].
  - constructor; assumption.
Qed.

Lemma max_spec (a : list Q) (v : Q) : Np.max a = Ok v -> is_max a v.
Proof.
  destruct a as [|x a]; [discriminate|]. simpl. intros H. injection H as <-.
  destruct (fold_left_Qmax_spec a x) as (Hin & Hle & Hall). split.
  - destruct Hin as [-> | Hin]; [left | now right].
  - constructor; assumption.
Qed.

Lemma min_total (a : list Q) : a <> [] -> exists v, Np.min a = Ok v.
Proof. destruct a; [congruence | simpl; eauto]. Qed.

Lemma max_total (a : list Q) : a <> [] -> exists v, Np.max a = Ok v.
Proof. destruct a; [congruence | simpl; eauto]. Qed.

(** The median of a non-empty array exists and lies between any lower
    bound and any upper bound of the array. *)
Lemma median_total (a : list Q) : a <> [] -> exists v, Np.median a = Ok v.
Proof.
  intros Ha. unfold Np.median.
  assert (Hn : (0 < length a)%nat) by (destruct a; [congruence | simpl; lia]).
  pose proof (Nat.div_lt (length a) 2 Hn ltac:(lia)) as Hhalf.
  destruct (lookup_lt_is_Some_2 (Np.sort a) (length a / 2)) as [v Hv].
  { rewrite NpFacts.sort_length. lia. }
  destruct (lookup_lt_is_Some_2 (Np.sort a) (length a / 2 - 1)) as [w Hw].
  { rewrite NpFacts.sort_length. lia. }
  rewrite Hv, Hw. destruct (Nat.even (length a)); eauto.
Qed.

Lemma median_between (a : list Q) (v lo hi : Q) :
  Np.median a = Ok v ->
  Forall (fun x => lo <= x) a -> Forall (fun x => x <= hi) a ->
  lo <= v /\ v <= hi.
Proof.
  unfold Np.median. intros H Hlo Hhi.
  assert (Hel : forall i x, Np.sort a !! i = Some x -> lo <= x /\ x <= hi).
  { intros i x Hx. apply list_elem_of_lookup_2 in Hx.
    apply (proj1 (NpFacts.sort_elem_of a x)) in Hx.
    rewrite Forall_forall in Hlo, Hhi. split; [exact (Hlo x Hx) | exact (Hhi x Hx)]. }
  destruct (Nat.even (length a)).
  - destruct (Np.sort a !! (length a / 2 - 1)%nat) as [x|] eqn:Ex; [|discriminate].
    destruct (Np.sort a !! (length a / 2)%nat) as [z|] eqn:Ez; [|discriminate].
    injection H as <-.
    destruct (Hel _ _ Ex) as [Hx1 Hx2]. destruct (Hel _ _ Ez) as [Hz1 Hz2].
    split.
    + apply Qle_shift_div_l; [reflexivity|]. lra.
    + apply Qle_shift_div_r; [reflexivity|]. lra.
  - destruct (Np.sort a !! (length a / 2)%nat) as [z|] eqn:Ez; [|discriminate].
    injection H as <-. now apply (Hel _ _ Ez).
Qed.

Lemma broadcast_row_same (f : Q -> Q -> Q) (row v : list Q) :
  length row = length v -> Np.broadcast_row f row v = Ok (zip_with f row v).
Proof.
  intros H. unfold Np.broadcast_row. apply Nat.eqb_eq in H. now rewrite H.
Qed.

Lemma broadcast_row_single (f : Q -> Q -> Q) (x : Q) (v : list Q) :
  Np.broadcast_row f [x] v = Ok (map (f x) v).
Proof.
  unfold Np.broadcast_row. destruct (length [x] =? length v)%nat eqn:E; [|reflexivity].
  apply Nat.eqb_eq in E. destruct v as [|r [|? ?]]; try discriminate. reflexivity.
Qed.

End RuleFacts.

(** ** [predict] for "naive", "jackknife" and "cv" *)

Lemma table_of_columns (c : list Q) (f g : Q -> Q) :
  Np.stack_axis1 [c; map f c; map g c] = Ok (map (fun x => [x; f x; g x]) c).
Proof.
  rewrite ShapeFacts.stack_three by apply length_map. f_equal.
  apply list_eq. intros i. rewrite !list_lookup_fmap.
  destruct (c !! i) as [x|] eqn:Ex; simpl.
  - rewrite lookup_seq_lt by (eapply lookup_lt_Some, Ex). simpl.
    rewrite !list_lookup_fmap, Ex. reflexivity.
  - rewrite lookup_seq_ge by (now apply lookup_ge_None). reflexivity.
Qed.

Lemma check_array_ok {features : Type} (X : list features) :
  X <> [] -> Sk.check_array X = Ok X.
Proof. destruct X; [congruence | reflexivity]. Qed.

Section Residuals.

Context {features hyper model : Type}.
Context `{Reg : Regressor features hyper model}.
Context `{RT : Runtime}.

(** The residuals that a successful [fit] stores: one per training row,
    none negative. *)
Lemma fitted_residuals (X : list features) (y : list Q)
  (self self' : MapieRegressor hyper model) :
  fitted X y self self' ->
  exists residuals,
    residuals_ self' = Some residuals
    /\ length residuals = length X
    /\ residuals <> []
    /\ Forall (fun r => 0 <= r) residuals.
Proof.
  intros (_ & HX & Hlen & h & single & _ & _ & _ & _ & _ & _ & _ & _ & _ & Hm).
  assert (Hres : exists oof, residuals_ self' = Some (Np.abs_diff y oof)
                             /\ length oof = length y).
  { destruct (String.eqb (method self) "naive").
    - destruct Hm as (_ & _ & _ & Hres). eexists. split; [exact Hres|].
      rewrite est_predict_length. exact Hlen.
    - destruct Hm as (_ & folds & es & ks & y_pred & _ & _ & _ & _ & Hres & _ & _ & Hl & _).
      eauto. }
  destruct Hres as (oof & Hres & Hoof).
  assert (Hl : length (Np.abs_diff y oof) = length X)
    by (rewrite abs_diff_length; lia).
  exists (Np.abs_diff y oof). split; [exact Hres|]. split; [exact Hl|].
  split; [|apply abs_diff_nonneg].
  intros Hnil. rewrite Hnil in Hl. destruct X; [congruence | discriminate].
Qed.

Lemma valid_alpha_range (self : MapieRegressor hyper model) :
  valid_parameters self ->
  0 <= alpha self /\ alpha self <= 1
  /\ 0 <= Binary64.sub 1 (alpha self) /\ Binary64.sub 1 (alpha self) <= 1.
Proof.
  intros (H0 & H1 & _). split; [lra|]. split; [lra|]. unfold Binary64.sub. split.
  - apply Binary64Facts.fl_nonneg. lra.
  - change 1 with (Binary64.fl 1) at 2. apply Binary64Facts.fl_monotone. lra.
Qed.

End Residuals.



(** The "naive" interval of the toy data at alpha = 0.1: the residuals of
    the least-squares line are 2/7, 23/70, 31/70, 31/70, 23/70, 2/7 and
    the band is their largest, 31/70, on each side. *)
Example naive_band_example :
  (let* table := toy_predict (snd (toy_fit Toy.X_toy Toy.y_toy Toy.naive)) [0; 1] in
   Ok (map (map Qred) table))
  = Ok [[37 # 7; 339 # 70; 401 # 70]; [251 # 35; 471 # 70; 533 # 70]].
Proof. vm_compute. reflexivity. Qed.

(** The "naive" interval at alpha = 0.7 on eleven rows: the residuals
    are 0, 1, 1, 2, 3, 4, 4, 5, 5, 5, 6 in ascending order and the band is
    the one of rank 4, which is 3, on each side of the mean 0; the
    ceiling of 0.3 * 10 would have read rank 3, which is 2. *)
Example naive_band_in_double_precision :
  toy_predict (snd (toy_fit Toy.X_eleven Toy.y_eleven Toy.naive_seven_tenths)) [0]
  = Ok [[0; -3; 3]].
Proof. vm_compute. reflexivity. Qed.

(** The example of the docstring of [MapieRegressor]: "jackknife_plus" at
    alpha = 0.1 on six points; the printed table
    [[5.28571429 4.61627907 6.2] [7.17142857 6.51744186 8.] ...] is this
    one in decimals. *)
Example docstring_example :
  (let* table := toy_predict (snd (toy_fit Toy.X_toy Toy.y_toy Toy.pireg)) Toy.X_toy in
   Ok (map (map Qred) table))
  = Ok [[37 # 7; 397 # 86; 31 # 5]; [251 # 35; 1121 # 172; 8];
        [317 # 35; 42 # 5; 49 # 5]; [383 # 35; 51 # 5; 58 # 5];
        [449 # 35; 12; 2319 # 172]; [103 # 7; 69 # 5; 1323 # 86]].
Proof. vm_compute. reflexivity. Qed.

(** ** [predict] for the "plus" and "minmax" methods *)

Lemma ensemble_method_cases (m : string) :
  str_in m ["jackknife_plus"; "cv_plus"; "jackknife_minmax"; "cv_minmax"]%string = true ->
  String.eqb m "naive" = false
  /\ str_in m ["naive"; "jackknife"; "cv"]%string = false
  /\ ((endswith m "plus" = true /\ endswith m "minmax" = false
       /\ (m = "cv_plus"%string
           \/ (String.eqb m "cv_plus" = false /\ startswith m "cv" = false)))
      \/ (endswith m "plus" = false /\ endswith m "minmax" = true
          /\ String.eqb m "cv_plus" = false)).
Proof.
  unfold str_in. simpl. rewrite !orb_true_iff, !String.eqb_eq.
  intros [->|[->|[->|[->|H]]]]; [| | | |discriminate];
    (split; [reflexivity|]); (split; [reflexivity|]).
  - left. split; [reflexivity|]. split; [reflexivity|]. right. split; reflexivity.
  - left. split; [reflexivity|]. split; [reflexivity|]. now left.
  - right. repeat split.
  - right. repeat split.
Qed.

Lemma quantile_axis1_total (A : list (list Q)) (q : Q) (i : Np.interpolation) :
  Forall (fun row => row <> []) A -> 0 <= q -> q <= 1 ->
  exists vs,
    Np.quantile_axis1 A q i = Ok vs
    /\ Forall2 (fun row v => Np.quantile row q i = Ok v) A vs.
Proof.
  intros HA Hq0 Hq1. unfold Np.quantile_axis1.
  destruct (rmap_total (fun row => Np.quantile row q i) A) as (vs & Hvs).
  { eapply Forall_impl; [exact HA|]. intros row Hrow.
    now apply NpFacts.quantile_total. }
  exists vs. split; [exact Hvs | now apply rmap_Forall2].
Qed.

Lemma median_axis1_total (A : list (list Q)) :
  Forall (fun row => row <> []) A ->
  exists vs, Np.median_axis1 A = Ok vs /\ Forall2 (fun row v => Np.median row = Ok v) A vs.
Proof.
  intros HA. unfold Np.median_axis1.
  destruct (rmap_total Np.median A) as (vs & Hvs).
  { eapply Forall_impl; [exact HA|]. intros row Hrow. now apply RuleFacts.median_total. }
  exists vs. split; [exact Hvs | now apply rmap_Forall2].
Qed.

Lemma min_axis1_keepdims_total (A : list (list Q)) :
  Forall (fun row => row <> []) A ->
  exists mins,
    Np.min_axis1_keepdims A = Ok (map (fun v => [v]) mins)
    /\ Forall2 (fun row v => Np.min row = Ok v) A mins.
Proof.
  induction 1 as [|row A Hrow _ (mins & Hmins & Hall)]; unfold Np.min_axis1_keepdims in *; simpl.
  - exists []. split; [reflexivity | constructor].
  - destruct (RuleFacts.min_total row Hrow) as (v & Hv).
    exists (v :: mins). rewrite Hv, Hmins. simpl. split; [reflexivity|].
    now constructor.
Qed.

Lemma max_axis1_keepdims_total (A : list (list Q)) :
  Forall (fun row => row <> []) A ->
  exists maxs,
    Np.max_axis1_keepdims A = Ok (map (fun v => [v]) maxs)
    /\ Forall2 (fun row v => Np.max row = Ok v) A maxs.
Proof.
  induction 1 as [|row A Hrow _ (maxs & Hmaxs & Hall)]; unfold Np.max_axis1_keepdims in *; simpl.
  - exists []. split; [reflexivity | constructor].
  - destruct (RuleFacts.max_total row Hrow) as (v & Hv).
    exists (v :: maxs). rewrite Hv, Hmaxs. simpl. split; [reflexivity|].
    now constructor.
Qed.

(** A column against a vector: every row is stretched along the vector. *)
Lemma column_op_vector (f : Q -> Q -> Q) (col v : list Q) :
  rmap (fun row => Np.broadcast_row f row v) (map (fun x => [x]) col)
  = Ok (map (fun x => map (f x) v) col).
Proof.
  induction col as [|x col IH]; simpl; [reflexivity|].
  rewrite RuleFacts.broadcast_row_single, IH. reflexivity.
Qed.

(** A matrix against a vector of the length of its rows. *)
Lemma matrix_op_vector (f : Q -> Q -> Q) (A : list (list Q)) (v : list Q) :
  Forall (fun row => length row = length v) A ->
  rmap (fun row => Np.broadcast_row f row v) A
  = Ok (map (fun row => zip_with f row v) A).
Proof.
  induction 1 as [|row A Hrow _ IH]; simpl; [reflexivity|].
  rewrite RuleFacts.broadcast_row_same, IH by assumption. reflexivity.
Qed.

Section Bounds.

Context {features hyper model : Type}.
Context `{Reg : Regressor features hyper model}.

Lemma bounds_plus (self : MapieRegressor hyper model) (P : list (list Q)) (residuals : list Q) :
  residuals_ self = Some residuals ->
  endswith (method self) "plus" = true ->
  Forall (fun row => length row = length residuals) P ->
  bounds self P
  = Ok (map (fun row => zip_with Qminus row residuals) P,
        map (fun row => zip_with Qplus row residuals) P).
Proof.
  intros Hres Hplus Hrows. unfold bounds, Np.sub_matrix_vector, Np.add_matrix_vector.
  rewrite Hplus, Hres. simpl.
  rewrite !matrix_op_vector by assumption. reflexivity.
Qed.

Lemma bounds_minmax (self : MapieRegressor hyper model) (P : list (list Q)) (residuals : list Q) :
  residuals_ self = Some residuals ->
  endswith (method self) "plus" = false ->
  endswith (method self) "minmax" = true ->
  Forall (fun row => row <> []) P ->
  exists mins maxs,
    Forall2 (fun row v => Np.min row = Ok v) P mins
    /\ Forall2 (fun row v => Np.max row = Ok v) P maxs
    /\ bounds self P
       = Ok (map (fun mn => map (Qminus mn) residuals) mins,
             map (fun mx => map (Qplus mx) residuals) maxs).
Proof.
  intros Hres Hplus Hminmax Hrows.
  destruct (min_axis1_keepdims_total P Hrows) as (mins & Hmins & Hmin).
  destruct (max_axis1_keepdims_total P Hrows) as (maxs & Hmaxs & Hmax).
  exists mins, maxs. split; [exact Hmin|]. split; [exact Hmax|].
  unfold bounds, Np.sub_matrix_vector, Np.add_matrix_vector.
  rewrite Hplus, Hminmax, Hmins, Hres. simpl.
  rewrite column_op_vector. simpl. rewrite Hmaxs. simpl.
  rewrite column_op_vector. reflexivity.
Qed.

End Bounds.

Section Ensemble.

Context {features hyper model : Type}.
Context `{Reg : Regressor features hyper model}.
Context `{RT : Runtime}.

Lemma loo_split_length (n : nat) (folds : list (list nat * list nat)) :
  Sk.split Sk.LeaveOneOut n = Ok folds -> length folds = n.
Proof.
  simpl. destruct (n <=? 1)%nat; [discriminate|]. intros H. injection H as <-.
  now rewrite length_map, length_seq.
Qed.

(** The matrix of fold predictions of a fitted object, before and after
    the re-indexing. *)
Lemma ensemble_matrix (X : list features) (y : list Q) (X_new : list features)
  (self self' : MapieRegressor hyper model) :
  fitted X y self self' ->
  String.eqb (method self) "naive" = false ->
  exists P0 P,
    predict_multi self' X_new = Ok P0 /\ reindex self' P0 = Ok P
    /\ length P0 = length X_new /\ length P = length X_new
    /\ Forall (fun row => row <> []) P0
    /\ (String.eqb (method self) "cv_plus" = false -> P = P0)
    /\ (method self = "cv_plus"%string \/ startswith (method self) "cv" = false ->
        Forall (fun row => length row = length X) P).
Proof.
  intros (_ & HX & Hlen & h & single & _ & _ & _ & Hmeth & _ & _ & _ & _ & _ & Hm) Hnaive.
  rewrite Hnaive in Hm.
  destruct Hm as (_ & folds & es & ks & y_pred & Hsplit & Hpart & Hes & Hks & _ & Htrained).
  pose proof (trained_row _ _ _ _ _ _ _ Hpart Htrained) as Hrow.
  assert (Hlks : length ks = length X) by (destruct Htrained as (_ & Hl & _); lia).
  assert (Hles : length es = length folds) by (now destruct Htrained).
  assert (Hne : es <> []).
  { destruct X as [|x X]; [congruence|].
    destruct (Hrow 0%nat ltac:(simpl; lia)) as (k & _ & e & _ & _ & _ & _ & He & _).
    intros ->. inversion He. }
  destruct (predict_multi_ok self' X_new es Hes Hne) as (P0 & HP0 & HlP0 & Hrows & _).
  assert (Hne0 : Forall (fun row : list Q => row <> []) P0).
  { eapply Forall_impl; [exact Hrows|]. intros row Hl ->.
    destruct es; [congruence | discriminate]. }
  unfold reindex. rewrite Hmeth.
  destruct (String.eqb (method self) "cv_plus") eqn:Ecv.
  - assert (Hrange : Forall (fun kz => exists k, kz = Z.of_nat k /\ (k < length es)%nat) ks).
    { apply Forall_lookup. intros j kz Hj.
      destruct (Hrow j ltac:(apply lookup_lt_Some in Hj; lia))
        as (k & _ & e & _ & _ & _ & Hk & He & _).
      rewrite Hk in Hj. injection Hj as <-. exists k. split; [reflexivity|].
      eapply lookup_lt_Some, He. }
    destruct (ShapeFacts.take_columns_ok P0 ks (length es) Hrows Hrange)
      as (P & HP & HlP & Hcols).
    exists P0, P. rewrite Hks. simpl.
    split; [exact HP0|]. split; [exact HP|]. split; [exact HlP0|]. split; [lia|].
    split; [exact Hne0|]. split; [discriminate|].
    intros _. apply Forall_lookup. intros i row' Hi.
    destruct (lookup_lt_is_Some_2 P0 i) as [row Hrow0].
    { apply lookup_lt_Some in Hi. lia. }
    destruct (Hcols i row row' Hrow0 Hi) as [Hl _]. lia.
  - exists P0, P0.
    split; [exact HP0|]. split; [reflexivity|]. split; [exact HlP0|]. split; [exact HlP0|].
    split; [exact Hne0|]. split; [reflexivity|].
    intros [Heq|Hjk].
    + apply String.eqb_neq in Ecv. contradiction.
    + unfold selected_cv in Hsplit. rewrite Hjk in Hsplit.
      apply loo_split_length in Hsplit.
      eapply Forall_impl; [exact Hrows|]. simpl. intros row Hl. lia.
Qed.

(** What [predict] computes for the "plus" and "minmax" methods after a
    successful [fit], piece by piece: the matrix [P0] of fold predictions,
    its re-indexing [P], the two matrices of bounds, the three columns of
    the table. *)
Lemma predict_ensemble (X : list features) (y : list Q) (X_new : list features)
  (self self' : MapieRegressor hyper model) :
  fitted X y self self' ->
  str_in (method self) ["jackknife_plus"; "cv_plus"; "jackknife_minmax"; "cv_minmax"]%string
  = true ->
  X_new <> [] ->
  exists single P0 P residuals lowerMat upperMat centers lows ups,
    single_estimator_ self' = Some single
    /\ predict_multi self' X_new = Ok P0 /\ reindex self' P0 = Ok P
    /\ residuals_ self' = Some residuals
    /\ length residuals = length X /\ Forall (fun r => 0 <= r) residuals
    /\ bounds self' P = Ok (lowerMat, upperMat)
    /\ (if String.eqb (return_pred self) "median"
        then Forall2 (fun row c => Np.median row = Ok c) P0 centers
        else centers = est_predict single X_new)
    /\ Forall2 (fun row v => Np.quantile row (alpha self) Np.lower = Ok v) lowerMat lows
    /\ Forall2 (fun row v => Np.quantile row (Binary64.sub 1 (alpha self)) Np.higher = Ok v) upperMat ups
    /\ length P0 = length X_new /\ length P = length X_new
    /\ length centers = length X_new
    /\ Forall (fun row => row <> []) P0
    /\ (endswith (method self) "plus" = true ->
        Forall (fun row => length row = length X) P
        /\ lowerMat = map (fun row => zip_with Qminus row residuals) P
        /\ upperMat = map (fun row => zip_with Qplus row residuals) P)
    /\ (endswith (method self) "plus" = false ->
        P = P0
        /\ exists mins maxs,
             Forall2 (fun row v => Np.min row = Ok v) P mins
             /\ Forall2 (fun row v => Np.max row = Ok v) P maxs
             /\ lowerMat = map (fun mn => map (Qminus mn) residuals) mins
             /\ upperMat = map (fun mx => map (Qplus mx) residuals) maxs)
    /\ predict self' X_new
       = Ok (map (fun i => [default 0 (centers !! i); default 0 (lows !! i);
                            default 0 (ups !! i)])
                 (seq 0 (length X_new))).
Proof.
  intros Hfit Hmethod Hnew.
  destruct (ensemble_method_cases _ Hmethod) as (Hnaive & Hbase & Hkind).
  destruct (fitted_residuals _ _ _ _ Hfit) as (residuals & Hres & Hlres & Hnres & Hpos).
  destruct (ensemble_matrix X y X_new self self' Hfit Hnaive)
    as (P0 & P & HP0 & HP & HlP0 & HlP & Hne0 & Hsame & Hwide).
  destruct Hfit as (Hvalid & _ & _ & h & single & _ & _ & Halpha & Hmeth & _ & _ & Hrp & _
                    & Hsingle & _).
  destruct (valid_alpha_range _ Hvalid) as (Ha0 & Ha1 & Hq0 & Hq1).
  (* the centers *)
  assert (Hcenters : exists centers,
            (if String.eqb (return_pred self) "median" then Np.median_axis1 P0
             else Ok (est_predict single X_new)) = Ok centers
            /\ (if String.eqb (return_pred self) "median"
                then Forall2 (fun row c => Np.median row = Ok c) P0 centers
                else centers = est_predict single X_new)
            /\ length centers = length X_new).
  { destruct (String.eqb (return_pred self) "median").
    - destruct (median_axis1_total P0 Hne0) as (centers & Hc & Hall).
      exists centers. split; [exact Hc|]. split; [exact Hall|].
      rewrite <- (Forall2_length _ _ _ Hall). exact HlP0.
    - eexists. split; [reflexivity|]. split; [reflexivity|]. apply est_predict_length. }
  destruct Hcenters as (centers & Hc & Hcspec & Hlc).
  (* the bounds *)
  assert (Hbounds : exists lowerMat upperMat,
            bounds self' P = Ok (lowerMat, upperMat)
            /\ length lowerMat = length X_new /\ length upperMat = length X_new
            /\ Forall (fun row => row <> []) lowerMat
            /\ Forall (fun row => row <> []) upperMat
            /\ (endswith (method self) "plus" = true ->
                Forall (fun row => length row = length X) P
                /\ lowerMat = map (fun row => zip_with Qminus row residuals) P
                /\ upperMat = map (fun row => zip_with Qplus row residuals) P)
            /\ (endswith (method self) "plus" = false ->
                P = P0
                /\ exists mins maxs,
                     Forall2 (fun row v => Np.min row = Ok v) P mins
                     /\ Forall2 (fun row v => Np.max row = Ok v) P maxs
                     /\ lowerMat = map (fun mn => map (Qminus mn) residuals) mins
                     /\ upperMat = map (fun mx => map (Qplus mx) residuals) maxs)).
  { destruct Hkind as [(Hplus & _ & Hwhich) | (Hplus & Hminmax & Hncv)].
    - assert (Hrows : Forall (fun row => length row = length X) P).
      { apply Hwide. destruct Hwhich as [?|[_ ?]]; auto. }
      assert (Hrows' : Forall (fun row => length row = length residuals) P).
      { eapply Forall_impl; [exact Hrows|]. simpl. intros row Hl. lia. }
      rewrite <- Hmeth in Hplus.
      pose proof (bounds_plus self' P residuals Hres Hplus Hrows') as Hb.
      rewrite Hmeth in Hplus.
      eexists _, _. split; [exact Hb|].
      split; [now rewrite length_map|]. split; [now rewrite length_map|].
      assert (Hnonempty : forall f : Q -> Q -> Q,
                Forall (fun row => row <> []) (map (fun row => zip_with f row residuals) P)).
      { intros f. apply Forall_fmap. eapply Forall_impl; [exact Hrows'|].
        simpl. intros row Hl Hnil. apply (f_equal length) in Hnil.
        rewrite length_zip_with in Hnil. simpl in Hnil.
        destruct residuals; [congruence | simpl in *; lia]. }
      split; [apply Hnonempty|]. split; [apply Hnonempty|].
      split; [auto | congruence].
    - pose proof (Hsame Hncv) as ->.
      rewrite <- Hmeth in Hplus, Hminmax.
      destruct (bounds_minmax self' P0 residuals Hres Hplus Hminmax Hne0)
        as (mins & maxs & Hmins & Hmaxs & Hb).
      rewrite Hmeth in Hplus.
      eexists _, _. split; [exact Hb|].
      split; [rewrite length_map, <- (Forall2_length _ _ _ Hmins); exact HlP0|].
      split; [rewrite length_map, <- (Forall2_length _ _ _ Hmaxs); exact HlP0|].
      assert (Hnonempty : forall (f : Q -> Q -> Q) (vs : list Q),
                Forall (fun row => row <> []) (map (fun v => map (f v) residuals) vs)).
      { intros f vs. apply Forall_fmap, Forall_forall. intros v _ Hnil. simpl in Hnil.
        apply (f_equal length) in Hnil. rewrite length_map in Hnil.
        destruct residuals; [congruence | discriminate]. }
      split; [apply Hnonempty|]. split; [apply Hnonempty|].
      split; [congruence|]. intros _. split; [reflexivity|]. eauto 10. }
  destruct Hbounds as (lowerMat & upperMat & Hb & HlL & HlU & HneL & HneU & Hplus & Hminmax).
  destruct (quantile_axis1_total lowerMat (alpha self) Np.lower HneL Ha0 Ha1)
    as (lows & Hlows & Hlowspec).
  destruct (quantile_axis1_total upperMat (Binary64.sub 1 (alpha self)) Np.higher HneU Hq0 Hq1)
    as (ups & Hups & Hupspec).
  exists single, P0, P, residuals, lowerMat, upperMat, centers, lows, ups.
  repeat (split; [assumption|]).
  unfold predict, check_is_fitted.
  rewrite Hsingle. cbn [rbind]. rewrite (check_array_ok _ Hnew). cbn [rbind getattr].
  rewrite Hmeth, Hbase, HP0. cbn [rbind]. rewrite Hrp, Hc. cbn [rbind].
  rewrite HP. cbn [rbind]. rewrite Hb. cbn [rbind].
  rewrite Halpha, Hlows. cbn [rbind]. rewrite Hups. cbn [rbind].
  rewrite ShapeFacts.stack_three.
  - now rewrite Hlc.
  - rewrite <- (Forall2_length _ _ _ Hlowspec). lia.
  - rewrite <- (Forall2_length _ _ _ Hupspec). lia.
Qed.

End Ensemble.

Lemma quantile_nonempty (a : list Q) (p : Q) (i : Np.interpolation) (v : Q) :
  Np.quantile a p i = Ok v -> a <> [].
Proof.
  intros H Hnil. apply NpFacts.quantile_elem_of in H. rewrite Hnil in H. inversion H.
Qed.

(** C1. After a successful [fit] with "cv_plus", [predict] pairs residual
    j with the prediction of the model that was fitted without training
    row j. For every row i of a non-empty input, the two bounds of row i
    of the table are quantiles of two rows with one entry per training
    row; entry j of these rows is p - r and p + r, where r is residual j
    and p is the prediction, for row i of the input, of the model number
    k_[j]: the model of the fold whose validation set contains j, fitted
    on training rows that do not include j. *)
Theorem cv_plus_reindexing {features hyper model : Type}
  `{Reg : Regressor features hyper model} `{RT : Runtime}
  (X : list features) (y : list Q) (X_new : list features)
  (self self' : MapieRegressor hyper model) (u : unit) :
  fit X y self = (Ok u, self') ->
  method self = "cv_plus"%string ->
  X_new <> [] ->
  exists h folds es ks residuals table,
    Sk.split (selected_cv self (random_state self')) (length X) = Ok folds
    /\ estimators_ self' = Some es /\ k_ self' = Some ks
    /\ residuals_ self' = Some residuals
    /\ predict self' X_new = Ok table
    /\ length table = length X_new
    /\ forall i, (i < length X_new)%nat ->
         exists c lo up lrow urow,
           table !! i = Some [c; lo; up]
           /\ Np.quantile lrow (alpha self) Np.lower = Ok lo
           /\ Np.quantile urow (Binary64.sub 1 (alpha self)) Np.higher = Ok up
           /\ length lrow = length X /\ length urow = length X
           /\ forall j, (j < length X)%nat ->
                exists k fold e p r,
                  ks !! j = Some (Z.of_nat k) /\ es !! k = Some e
                  /\ folds !! k = Some fold /\ j ∈ snd fold /\ (j ∉ fst fold)
                  /\ fold_model X y h fold e
                  /\ est_predict e X_new !! i = Some p
                  /\ residuals !! j = Some r
                  /\ lrow !! j = Some (p - r) /\ urow !! j = Some (p + r).
Proof.
  intros Hfit Hcv Hnew.
  destruct (reindexed_columns X y X_new self self' u Hfit Hcv)
    as (P0 & P & h & folds & es & ks & HP0 & HP & Hsplit & Hes & Hks & HlP & Hcols).
  apply fit_ok in Hfit.
  assert (Hens : str_in (method self)
                   ["jackknife_plus"; "cv_plus"; "jackknife_minmax"; "cv_minmax"]%string
                 = true) by (now rewrite Hcv).
  assert (Hend : endswith (method self) "plus" = true) by (now rewrite Hcv).
  destruct (predict_ensemble X y X_new self self' Hfit Hens Hnew)
    as (single & P0' & P' & residuals & lowerMat & upperMat & centers & lows & ups
        & _ & HP0' & HP' & Hres & Hlres & _ & _ & _ & Hlows & Hups & _ & _ & _ & _
        & Hplus & _ & Hpredict).
  rewrite HP0 in HP0'. injection HP0' as <-.
  rewrite HP in HP'. injection HP' as <-.
  destruct (Hplus Hend) as (Hwide & -> & ->).
  exists h, folds, es, ks, residuals. eexists.
  split; [exact Hsplit|]. split; [exact Hes|]. split; [exact Hks|]. split; [exact Hres|].
  split; [exact Hpredict|]. split; [now rewrite length_map, length_seq|].
  intros i Hi.
  destruct (lookup_lt_is_Some_2 P i ltac:(lia)) as [row Hrow].
  assert (Hlrow : length row = length X).
  { rewrite Forall_lookup in Hwide. exact (Hwide i row Hrow). }
  assert (Hl : map (fun row => zip_with Qminus row residuals) P !! i
               = Some (zip_with Qminus row residuals))
    by (now rewrite list_lookup_fmap, Hrow).
  assert (Hu : map (fun row => zip_with Qplus row residuals) P !! i
               = Some (zip_with Qplus row residuals))
    by (now rewrite list_lookup_fmap, Hrow).
  destruct (Forall2_lookup_l _ _ _ _ _ Hlows Hl) as (lo & Hlo & Hqlo).
  destruct (Forall2_lookup_l _ _ _ _ _ Hups Hu) as (up & Hup & Hqup).
  exists (default 0 (centers !! i)), lo, up,
         (zip_with Qminus row residuals), (zip_with Qplus row residuals).
  split.
  { rewrite list_lookup_fmap, lookup_seq_lt by exact Hi. simpl.
    now rewrite Hlo, Hup. }
  split; [exact Hqlo|]. split; [exact Hqup|].
  split; [rewrite length_zip_with; lia|]. split; [rewrite length_zip_with; lia|].
  intros j Hj.
  destruct (Hcols j Hj) as (k & fold & e & Hk & Hin & Hout & Hkj & He & Hmodel & Hcell).
  destruct (Hcell i Hi) as (row' & Hrow' & _ & Hpick).
  rewrite Hrow in Hrow'. injection Hrow' as <-.
  destruct (lookup_lt_is_Some_2 row j ltac:(lia)) as [p Hp].
  destruct (lookup_lt_is_Some_2 residuals j ltac:(lia)) as [r Hr].
  exists k, fold, e, p, r.
  split; [exact Hkj|]. split; [exact He|]. split; [exact Hk|]. split; [exact Hin|].
  split; [exact Hout|]. split; [exact Hmodel|].
  split; [now rewrite <- Hpick|]. split; [exact Hr|].
  rewrite !lookup_zip_with, Hp, Hr. simpl. split; reflexivity.
Qed.

Lemma cv_plus_reindexing_witness :
  toy_fit Toy.X_toy Toy.y_toy Toy.unshuffled
  = (Ok tt, snd (toy_fit Toy.X_toy Toy.y_toy Toy.unshuffled))
  /\ method Toy.unshuffled = "cv_plus"%string
  /\ Toy.X_five <> []
  /\ exists table,
       toy_predict (snd (toy_fit Toy.X_toy Toy.y_toy Toy.unshuffled)) Toy.X_five = Ok table
       /\ length table = length Toy.X_five.
Proof.
  assert (H : toy_fit Toy.X_toy Toy.y_toy Toy.unshuffled
              = (Ok tt, snd (toy_fit Toy.X_toy Toy.y_toy Toy.unshuffled))).
  { vm_compute. reflexivity. }
  assert (Hnew : Toy.X_five <> []) by discriminate.
  split; [exact H|]. split; [reflexivity|]. split; [exact Hnew|].
  destruct (cv_plus_reindexing Toy.X_toy Toy.y_toy Toy.X_five _ _ _ H eq_refl Hnew)
    as (_ & _ & _ & _ & _ & table & _ & _ & _ & _ & Hp & Hl & _).
  exists table. auto.
Defined.



(** ** Does the interval contain its center? *)

(** C3, refuted as stated. Least squares, "cv_plus", alpha = 0.1, two
    folds without shuffling, on the rows (0,0) (1,0) (2,1) (3,1): the fold
    models are the constants 1 and 0, all residuals are 1, the line
    through the four points gives 3.9 at x = 10, and [predict] returns the
    row [3.9, -1, 2], whose center is above its upper bound. *)
Lemma center_above_upper_bound :
  fst (toy_fit Toy.X_steps Toy.y_steps Toy.two_folds) = Ok tt
  /\ toy_predict (snd (toy_fit Toy.X_steps Toy.y_steps Toy.two_folds)) [10]
     = Ok [[39 # 10; -1; 2]]
  /\ ~ (39 # 10 <= 2).
Proof.
  split; [vm_compute; reflexivity|]. split; [vm_compute; reflexivity|].
  intros H. vm_compute in H. now apply H.
Qed.

Section Containment.

Context {features hyper model : Type}.
Context `{Reg : Regressor features hyper model}.
Context `{RT : Runtime}.

Lemma minmax_method_cases (m : string) :
  str_in m ["jackknife_minmax"; "cv_minmax"]%string = true ->
  str_in m ["jackknife_plus"; "cv_plus"; "jackknife_minmax"; "cv_minmax"]%string = true
  /\ endswith m "plus" = false.
Proof.
  intros H. unfold str_in in H. simpl in H.
  rewrite !orb_true_iff, !String.eqb_eq in H.
  destruct H as [->|[->|H]]; [| |discriminate]; split; reflexivity.
Qed.

(** The rows of the table for "naive", "jackknife" and "cv". *)
Lemma base_rows_contain_center (q : Q) (centers : list Q) :
  0 <= q ->
  Forall (fun row => exists c lo up, row = [c; lo; up] /\ lo <= c /\ c <= up)
         (map (fun c => [c; c - q; c + q]) centers).
Proof.
  intros Hq. apply Forall_fmap, Forall_forall. intros c _. simpl.
  exists c, (c - q), (c + q). split; [reflexivity|]. split; lra.
Qed.

End Containment.

(** C3, as the code has it. After a successful [fit], on a non-empty
    input [predict] returns a table, and every row [center, lower, upper]
    of it satisfies lower <= center <= upper, when the method is "naive",
    "jackknife" or "cv", and also when it is "jackknife_minmax" or
    "cv_minmax" with return_pred = "median". *)
Theorem interval_contains_center {features hyper model : Type}
  `{Reg : Regressor features hyper model} `{RT : Runtime}
  (X : list features) (y : list Q) (X_new : list features)
  (self self' : MapieRegressor hyper model) (u : unit) :
  fit X y self = (Ok u, self') ->
  str_in (method self) ["naive"; "jackknife"; "cv"]%string = true
  \/ (str_in (method self) ["jackknife_minmax"; "cv_minmax"]%string = true
      /\ return_pred self = "median"%string) ->
  X_new <> [] ->
  exists table,
    predict self' X_new = Ok table
    /\ length table = length X_new
    /\ Forall (fun row => exists c lo up, row = [c; lo; up] /\ lo <= c /\ c <= up) table.
Proof.
  intros H Hcase Hnew. apply fit_ok in H.
  destruct Hcase as [Hbase | [Hminmax Hmedian]].
  - (* one quantile of non-negative residuals on each side *)
    destruct (fitted_residuals _ _ _ _ H) as (residuals & Hres & Hlen & Hne & Hpos).
    destruct H as (Hvalid & _ & _ & h & single & _ & _ & Halpha & Hmeth & _ & _ & _ & _
                   & Hsingle & _).
    destruct (valid_alpha_range _ Hvalid) as (_ & _ & Hq0 & Hq1).
    destruct (NpFacts.quantile_total residuals (Binary64.sub 1 (alpha self)) Np.higher Hne Hq0 Hq1)
      as (q & Hq).
    assert (Hqpos : 0 <= q).
    { rewrite Forall_forall in Hpos. apply Hpos. eapply NpFacts.quantile_elem_of, Hq. }
    exists (map (fun c => [c; c - q; c + q]) (est_predict single X_new)).
    split.
    { unfold predict, check_is_fitted.
      rewrite Hsingle, (check_array_ok _ Hnew), Hmeth, Hbase, Hres, Halpha. simpl.
      rewrite Hq. simpl. apply table_of_columns. }
    split; [now rewrite length_map, est_predict_length|].
    now apply base_rows_contain_center.
  - (* the median of the fold predictions lies between their minimum and
       their maximum, which the residuals can only push outwards *)
    destruct (minmax_method_cases _ Hminmax) as [Hmethod Hplus].
    destruct (predict_ensemble X y X_new self self' H Hmethod Hnew)
      as (single & P0 & P & residual & lowerMat & upperMat & centers & lows & ups
          & _ & _ & _ & _ & _ & Hpos & _ & Hcenters & Hlows & Hups & HlP0 & _ & Hlc & _
          & _ & Hmm & Hpredict).
    rewrite Hmedian in Hcenters. simpl in Hcenters.
    destruct (Hmm Hplus) as (-> & mins & maxs & Hmins & Hmaxs & -> & ->).
    eexists. split; [exact Hpredict|].
    split; [now rewrite length_map, length_seq|].
    apply Forall_fmap, Forall_forall. intros i Hi. apply elem_of_seq in Hi. simpl.
    destruct (lookup_lt_is_Some_2 P0 i ltac:(lia)) as [row Hrow].
    destruct (Forall2_lookup_l _ _ _ _ _ Hcenters Hrow) as (c & Hc & Hmed).
    destruct (Forall2_lookup_l _ _ _ _ _ Hmins Hrow) as (mn & Hmn & Hmin).
    destruct (Forall2_lookup_l _ _ _ _ _ Hmaxs Hrow) as (mx & Hmx & Hmax).
    assert (Hlrow : map (fun mn => map (Qminus mn) residual) mins !! i
                    = Some (map (Qminus mn) residual))
      by (now rewrite list_lookup_fmap, Hmn).
    assert (Hurow : map (fun mx => map (Qplus mx) residual) maxs !! i
                    = Some (map (Qplus mx) residual))
      by (now rewrite list_lookup_fmap, Hmx).
    destruct (Forall2_lookup_l _ _ _ _ _ Hlows Hlrow) as (lo & Hlo & Hqlo).
    destruct (Forall2_lookup_l _ _ _ _ _ Hups Hurow) as (up & Hup & Hqup).
    rewrite Hc, Hlo, Hup. simpl.
    exists c, lo, up. split; [reflexivity|].
    apply RuleFacts.min_spec in Hmin as [_ Hmin].
    apply RuleFacts.max_spec in Hmax as [_ Hmax].
    destruct (RuleFacts.median_between row c mn mx Hmed Hmin Hmax) as [Hc1 Hc2].
    apply NpFacts.quantile_elem_of, list_elem_of_fmap in Hqlo as (r1 & -> & Hr1).
    apply NpFacts.quantile_elem_of, list_elem_of_fmap in Hqup as (r2 & -> & Hr2).
    rewrite Forall_forall in Hpos.
    pose proof (Hpos r1 Hr1). pose proof (Hpos r2 Hr2).
    split; lra.
Qed.

Lemma interval_contains_center_witness :
  toy_fit Toy.X_toy Toy.y_toy Toy.jackknife_minmax_median
  = (Ok tt, snd (toy_fit Toy.X_toy Toy.y_toy Toy.jackknife_minmax_median))
  /\ (str_in (method Toy.jackknife_minmax_median) ["naive"; "jackknife"; "cv"]%string = true
      \/ (str_in (method Toy.jackknife_minmax_median)
            ["jackknife_minmax"; "cv_minmax"]%string = true
          /\ return_pred Toy.jackknife_minmax_median = "median"%string))
  /\ Toy.X_five <> []
  /\ exists table,
       toy_predict (snd (toy_fit Toy.X_toy Toy.y_toy Toy.jackknife_minmax_median)) Toy.X_five
       = Ok table
       /\ Forall (fun row => exists c lo up, row = [c; lo; up] /\ lo <= c /\ c <= up) table.
Proof.
  assert (H : toy_fit Toy.X_toy Toy.y_toy Toy.jackknife_minmax_median
              = (Ok tt, snd (toy_fit Toy.X_toy Toy.y_toy Toy.jackknife_minmax_median))).
  { vm_compute. reflexivity. }
  assert (Hcase : str_in (method Toy.jackknife_minmax_median)
                    ["naive"; "jackknife"; "cv"]%string = true
                  \/ (str_in (method Toy.jackknife_minmax_median)
                        ["jackknife_minmax"; "cv_minmax"]%string = true
                      /\ return_pred Toy.jackknife_minmax_median = "median"%string)).
  { right. split; reflexivity. }
  assert (Hnew : Toy.X_five <> []) by discriminate.
  split; [exact H|]. split; [exact Hcase|]. split; [exact Hnew|].
  destruct (interval_contains_center Toy.X_toy Toy.y_toy Toy.X_five _ _ _ H Hcase Hnew)
    as (table & Ht & _ & Hall).
  exists table. auto.
Defined.

(** ** When [fit] succeeds *)

Module TotalFacts.

Lemma chunks_lookup_length (sizes : list nat) :
  forall (l : list nat) (k : nat) (c : list nat),
  (sum_list sizes <= length l)%nat ->
  Sk.chunks sizes l !! k = Some c ->
  exists s, sizes !! k = Some s /\ length c = s.
Proof.
  induction sizes as [|s sizes IH]; intros l k c Hsum Hk; simpl in *.
  - inversion Hk.
  - destruct k as [|k]; simpl in *.
    + injection Hk as <-. exists s. split; [reflexivity|].
      rewrite length_take. lia.
    + apply (IH (drop s l)); [|exact Hk]. rewrite length_drop. lia.
Qed.

Lemma chunks_length (sizes l : list nat) : length (Sk.chunks sizes l) = length sizes.
Proof. revert l. induction sizes as [|s sizes IH]; intros l; simpl; [reflexivity|]. now rewrite IH. Qed.

Lemma fold_sizes_length (n K : nat) : length (Sk.fold_sizes n K) = K.
Proof. unfold Sk.fold_sizes. now rewrite length_map, length_seq. Qed.

Lemma fold_sizes_pos (n K k s : nat) :
  (0 < K <= n)%nat -> Sk.fold_sizes n K !! k = Some s -> (0 < s)%nat.
Proof.
  intros HK Hk. unfold Sk.fold_sizes in Hk.
  apply list_lookup_fmap_Some in Hk as (i & -> & _).
  assert (0 < n / K)%nat by (apply Nat.div_str_pos; lia). lia.
Qed.

(** With two folds at least and no more folds than rows, no training set
    of a k-fold split is empty. *)
Lemma kfold_train_nonempty (n K : nat) (indices : list nat) :
  (2 <= K <= n)%nat -> Permutation indices (seq 0 n) ->
  Forall (fun fold : list nat * list nat => fst fold <> [])
         (map (Sk.train_test n) (Sk.chunks (Sk.fold_sizes n K) indices)).
Proof.
  intros HK Hperm. apply Forall_fmap, Forall_lookup. intros k c Hk. simpl.
  destruct (SkFacts.kfold_tests_partition n K indices ltac:(lia) Hperm) as [Hdisj _].
  assert (Hsum : (sum_list (Sk.fold_sizes n K) <= length indices)%nat).
  { rewrite SkFacts.fold_sizes_sum by lia.
    rewrite (Permutation_length Hperm), length_seq. lia. }
  (* another fold, and a row of it *)
  set (k' := if (k =? 0)%nat then 1%nat else 0%nat).
  assert (Hk' : k' <> k) by (unfold k'; destruct (k =? 0)%nat eqn:E;
                               [apply Nat.eqb_eq in E | apply Nat.eqb_neq in E]; lia).
  destruct (lookup_lt_is_Some_2 (Sk.chunks (Sk.fold_sizes n K) indices) k') as [c' Hc'].
  { rewrite chunks_length, fold_sizes_length. unfold k'. destruct (k =? 0)%nat; lia. }
  destruct (chunks_lookup_length _ _ _ _ Hsum Hc') as (s & Hs & Hlen).
  pose proof (fold_sizes_pos n K k' s ltac:(lia) Hs) as Hpos.
  destruct c' as [|i c']; [simpl in Hlen; lia|].
  assert (Hi : i ∈ i :: c') by left.
  assert (Hin : (i < n)%nat).
  { assert (Hc : i ∈ indices).
    { rewrite <- (SkFacts.chunks_concat (Sk.fold_sizes n K) indices).
      - apply list_elem_of_In, in_concat. exists (i :: c').
        split; apply list_elem_of_In; [eapply list_elem_of_lookup_2, Hc' | exact Hi].
      - rewrite SkFacts.fold_sizes_sum by lia.
        rewrite (Permutation_length Hperm), length_seq. reflexivity. }
    rewrite Hperm in Hc. apply elem_of_seq in Hc. lia. }
  assert (Hout : i ∉ c).
  { intros Hc. apply Hk'. eapply Hdisj; eauto. }
  intros Hnil.
  assert (Htr : i ∈ fst (Sk.train_test n c)).
  { apply SkFacts.train_test_train. split; [exact Hin|].
    rewrite SkFacts.train_test_val. tauto. }
  simpl in Htr. rewrite Hnil in Htr. inversion Htr.
Qed.

Lemma loo_train_nonempty (n : nat) :
  (2 <= n)%nat ->
  Forall (fun fold : list nat * list nat => fst fold <> [])
         (map (fun i => Sk.train_test n [i]) (seq 0 n)).
Proof.
  intros Hn. apply Forall_fmap, Forall_forall. intros i Hi. simpl.
  set (j := if (i =? 0)%nat then 1%nat else 0%nat).
  assert (Hj : j <> i /\ (j < n)%nat).
  { unfold j. destruct (i =? 0)%nat eqn:E;
      [apply Nat.eqb_eq in E | apply Nat.eqb_neq in E]; lia. }
  intros Hnil.
  assert (Htr : j ∈ fst (Sk.train_test n [i])).
  { apply SkFacts.train_test_train. split; [apply Hj|].
    rewrite SkFacts.train_test_val, list_elem_of_singleton. tauto. }
  simpl in Htr. rewrite Hnil in Htr. inversion Htr.
Qed.

Lemma setitem_zip_length {A : Type} (idx : list nat) :
  forall (vs a a' : list A), Np.setitem_zip a idx vs = Ok a' -> length a' = length a.
Proof.
  induction idx as [|j idx IH]; intros vs a a' H; simpl in H.
  - now injection H as <-.
  - destruct vs as [|v vs]; [now injection H as <-|].
    destruct (j <? length a)%nat; [|discriminate].
    apply IH in H. now rewrite length_insert in H.
Qed.

End TotalFacts.

Section FitTotal.

Context {features hyper model : Type}.
Context `{Reg : Regressor features hyper model}.
Context `{RT : Runtime}.

Lemma bind_step {A B : Type} (c : @M hyper model A) (k : A -> @M hyper model B)
  (s s1 : MapieRegressor hyper model) (a : A) :
  c s = (Ok a, s1) -> bind c k s = k a s1.
Proof. intros H. unfold bind. now rewrite H. Qed.

Lemma bind_assoc {A B C : Type} (c : @M hyper model A) (k : A -> @M hyper model B)
  (k' : B -> @M hyper model C) (s : MapieRegressor hyper model) :
  bind (bind c k) k' s = bind c (fun a => bind (k a) k') s.
Proof. unfold bind. destruct (c s) as [[a|e] s1]; reflexivity. Qed.

Lemma assign_step {B : Type} (f : MapieRegressor hyper model -> MapieRegressor hyper model)
  (k : unit -> @M hyper model B) (s : MapieRegressor hyper model) :
  bind (assign f) k s = k tt (f s).
Proof. reflexivity. Qed.

Lemma lift_step {A B : Type} (a : A) (k : A -> @M hyper model B)
  (s : MapieRegressor hyper model) :
  bind (lift (Ok a)) k s = k a s.
Proof. reflexivity. Qed.

(** Folds that the loop can process on [n] rows: indices in range and a
    training set that is not empty. *)
Lemma fit_folds_total (X : list features) (y : list Q) (h : hyper)
  (folds : list (list nat * list nat)) :
  trainable h X y -> length X = length y ->
  Forall (fun fold => fst fold <> []
                      /\ Forall (fun i => (i < length X)%nat) (fst fold)
                      /\ Forall (fun i => (i < length X)%nat) (snd fold)) folds ->
  forall (k : nat) (y_pred : list Q) (self : MapieRegressor hyper model)
         (ks : list Z) (es : list model),
  estimator self = Some h ->
  k_ self = Some ks -> length ks = length X ->
  estimators_ self = Some es ->
  length y_pred = length X ->
  exists y_pred' self', fit_folds X y k folds y_pred self = (Ok y_pred', self').
Proof.
  intros Htrain Hlen Hfolds.
  induction Hfolds as [|[train_fold val_fold] folds (Hne & Htr & Hval) _ IH];
    intros k y_pred self ks es Hest Hks Hlks Hes Hly; simpl.
  - eexists _, _. reflexivity.
  - simpl in Hne, Htr, Hval.
    destruct (IndexFacts.setitem_scalar_total val_fold (Z.of_nat k) ks) as (ks' & Hks').
    { now rewrite Hlks. }
    destruct (IndexFacts.take_idx_total X train_fold Htr) as (X_train & HXt).
    destruct (IndexFacts.take_idx_total y train_fold) as (y_train & Hyt).
    { now rewrite <- Hlen. }
    destruct (Htrain train_fold X_train y_train Hne HXt Hyt) as (e & He).
    destruct (IndexFacts.take_idx_total X val_fold Hval) as (X_val & HXv).
    destruct (IndexFacts.setitem_array_total val_fold (est_predict e X_val) y_pred)
      as (y_pred' & Hy').
    { rewrite est_predict_length. eapply IndexFacts.take_idx_length, HXv. }
    { now rewrite Hly. }
    assert (Hfold : fit_fold X y k (train_fold, val_fold) y_pred self
                    = (Ok y_pred', set_estimators_ (es ++ [e]) (set_k_ ks' self))).
    { unfold fit_fold, bind, read, lift, assign. simpl.
      rewrite Hks. simpl. rewrite Hks', Hest. simpl.
      rewrite HXt, Hyt, He, Hes. simpl. rewrite HXv, Hy'. reflexivity. }
    rewrite (bind_step _ _ _ _ _ Hfold).
    apply (IH (S k) y_pred' _ ks' (es ++ [e])); try reflexivity.
    + exact Hest.
    + apply IndexFacts.setitem_scalar_ok in Hks' as (Hl & _). lia.
    + unfold Np.setitem_array in Hy'.
      destruct (length (est_predict e X_val) =? length val_fold)%nat.
      * apply TotalFacts.setitem_zip_length in Hy'. lia.
      * destruct (est_predict e X_val) as [|v [|? ?]]; try discriminate.
        apply IndexFacts.setitem_scalar_ok in Hy' as (Hl & _). lia.
Qed.

Lemma _check_parameters_valid (self : MapieRegressor hyper model) :
  valid_parameters self ->
  _check_parameters self
  = (Ok tt, match estimator self with
            | None => set_estimator (Some LinearRegression) self
            | Some _ => self
            end).
Proof.
  intros (H0 & H1 & Hm & Hr). apply Qlt_bool_iff in H0, H1.
  unfold _check_parameters, bind, read, raise, lift, ret, assign. cbv beta.
  rewrite H0, H1. cbn [negb andb]. rewrite Hm. cbn [negb]. rewrite Hr. cbn [negb].
  destruct (estimator self); reflexivity.
Qed.

(** The folds of a splitter that the configuration can build are folds
    that the loop can process. *)
Lemma split_processable (cv : Sk.cross_validator) (n : nat)
  (folds : list (list nat * list nat)) :
  match cv with
  | Sk.KFold K _ _ => (2 <= K <= Z.of_nat n)%Z
  | Sk.LeaveOneOut => (2 <= n)%nat
  end ->
  Sk.split cv n = Ok folds ->
  Forall (fun fold => fst fold <> []
                      /\ Forall (fun i => (i < n)%nat) (fst fold)
                      /\ Forall (fun i => (i < n)%nat) (snd fold)) folds.
Proof.
  intros Hcv Hsplit.
  assert (Hcons : constructed cv) by (destruct cv; simpl; [lia | exact I]).
  pose proof (SkFacts.split_partition cv n folds Hcons Hsplit) as (Hshape & _ & _).
  assert (Hne : Forall (fun fold : list nat * list nat => fst fold <> []) folds).
  { destruct cv as [K sh rs|]; simpl in Hsplit.
    - destruct (Z.of_nat n <? K)%Z; [discriminate|]. injection Hsplit as <-.
      apply TotalFacts.kfold_train_nonempty; [lia|].
      destruct sh; [apply rng_permutation_perm | reflexivity].
    - destruct (n <=? 1)%nat; [discriminate|]. injection Hsplit as <-.
      now apply TotalFacts.loo_train_nonempty. }
  apply Forall_lookup. intros k [tr val] Hk.
  destruct (Hshape k tr val Hk) as (_ & _ & Hval & Htr). simpl.
  split; [exact (proj1 (Forall_lookup _ _) Hne k _ Hk)|].
  split; apply Forall_forall; intros i Hi; [now apply Htr in Hi | now apply Hval].
Qed.

(** [fit] succeeds on a valid configuration that can split the rows, with
    an estimator that can be fitted on the rows and on every non-empty
    selection of them. *)
Lemma fit_total (X : list features) (y : list Q) (self : MapieRegressor hyper model) :
  valid_parameters self ->
  X <> [] -> length X = length y ->
  splittable self (length X) ->
  (exists single, est_fit (default LinearRegression (estimator self)) X y = Ok single) ->
  trainable (default LinearRegression (estimator self)) X y ->
  exists self', fit X y self = (Ok tt, self').
Proof.
  intros Hvalid HX Hlen Hsplit (single & Hsingle) Htrain.
  set (h := default LinearRegression (estimator self)) in *.
  pose proof (_check_parameters_valid self Hvalid) as Hcheck.
  remember (match estimator self with
            | None => set_estimator (Some LinearRegression) self
            | Some _ => self
            end) as s0 eqn:Es0.
  assert (Hs0 : estimator s0 = Some h /\ method s0 = method self
                /\ n_splits s0 = n_splits self /\ shuffle s0 = shuffle self).
  { subst s0. unfold h. destruct (estimator self) eqn:E; simpl; rewrite ?E; auto. }
  destruct Hs0 as (He0 & Hm0 & Hn0 & Hsh0). clear Es0.
  unfold fit.
  rewrite (bind_step _ _ _ _ _ Hcheck).
  assert (HXy : Sk.check_X_y X y = Ok (X, y)).
  { unfold Sk.check_X_y. apply Nat.eqb_eq in Hlen. rewrite Hlen.
    destruct X; [congruence | reflexivity]. }
  unfold bind at 1, lift at 1. rewrite HXy.
  unfold bind at 1, read at 1. unfold bind at 1, lift at 1. rewrite He0. simpl Sk.clone.
  unfold bind at 1, lift at 1. rewrite Hsingle.
  unfold bind at 1, assign at 1. unfold bind at 1, read at 1.
  cbn [method set_single_estimator_]. rewrite Hm0.
  destruct Hsplit as [Hnaive | [[Hcv HK] | (Hncv & Hjk & Hn)]].
  - rewrite Hnaive. simpl. eexists. reflexivity.
  - rewrite (cv_is_not_naive _ Hcv). cbv iota.
    remember (set_single_estimator_ single s0) as s1 eqn:Es1.
    remember (if negb (shuffle self) then set_random_state None s1 else s1) as s2 eqn:Es2.
    assert (Hselect : _select_cv s1
                      = (Ok (Sk.KFold (n_splits self) (shuffle self) (random_state s2)), s2)).
    { assert (Hb : (n_splits self <=? 1)%Z = false) by (apply Z.leb_gt; lia).
      subst s2 s1. unfold _select_cv, bind, read, lift, assign, ret.
      cbn -[startswith Z.leb]. rewrite Hm0, Hcv.
      change (shuffle (set_single_estimator_ single s0)) with (shuffle s0).
      rewrite Hsh0.
      destruct (shuffle self) eqn:Esh; cbn [negb]; cbv beta iota;
        unfold Sk.make_KFold, set_random_state, set_single_estimator_;
        cbn [n_splits shuffle random_state negb andb]; rewrite Hn0, Hb, Hsh0;
        cbn [negb andb]; reflexivity. }
    assert (Hsp : exists folds, Sk.split (Sk.KFold (n_splits self) (shuffle self)
                                            (random_state s2)) (length X) = Ok folds).
    { simpl. assert (Hb : (Z.of_nat (length X) <? n_splits self)%Z = false)
        by (apply Z.ltb_ge; lia). rewrite Hb. eauto. }
    destruct Hsp as (folds & Hfolds).
    pose proof (split_processable (Sk.KFold (n_splits self) (shuffle self) (random_state s2))
                  _ _ HK Hfolds) as Hproc.
    destruct (fit_folds_total X y h folds Htrain Hlen Hproc 0 (empty_like_float y)
                (set_k_ (empty_like_int y) (set_estimators_ [] s2))
                (empty_like_int y) [])
      as (y_pred' & s3 & Hloop).
    + subst s2 s1. destruct (negb (shuffle self)); simpl; exact He0.
    + reflexivity.
    + rewrite empty_like_int_length. lia.
    + reflexivity.
    + rewrite empty_like_float_length. lia.
    + eexists. rewrite bind_assoc, (bind_step _ _ _ _ _ Hselect).
      rewrite bind_assoc, assign_step. rewrite bind_assoc, assign_step.
      rewrite bind_assoc, Hfolds, lift_step.
      rewrite (bind_step _ _ _ _ _ Hloop). reflexivity.
  - assert (Hnaive : String.eqb (method self) "naive" = false).
    { destruct (String.eqb (method self) "naive") eqn:E; [|reflexivity].
      apply String.eqb_eq in E. rewrite E in Hjk. discriminate. }
    rewrite Hnaive. cbv iota.
    remember (set_single_estimator_ single s0) as s1 eqn:Es1.
    assert (Hselect : _select_cv s1 = (Ok Sk.LeaveOneOut, s1)).
    { subst s1. unfold _select_cv, bind, read, lift, assign, ret.
      cbn -[startswith]. rewrite Hm0, Hncv, Hjk. reflexivity. }
    assert (Hsp : exists folds, Sk.split Sk.LeaveOneOut (length X) = Ok folds).
    { simpl. assert (Hb : (length X <=? 1)%nat = false) by (apply Nat.leb_gt; lia).
      rewrite Hb. eauto. }
    destruct Hsp as (folds & Hfolds).
    pose proof (split_processable Sk.LeaveOneOut _ _ Hn Hfolds) as Hproc.
    destruct (fit_folds_total X y h folds Htrain Hlen Hproc 0 (empty_like_float y)
                (set_k_ (empty_like_int y) (set_estimators_ [] s1))
                (empty_like_int y) [])
      as (y_pred' & s3 & Hloop).
    + subst s1. exact He0.
    + reflexivity.
    + rewrite empty_like_int_length. lia.
    + reflexivity.
    + rewrite empty_like_float_length. lia.
    + eexists. rewrite bind_assoc, (bind_step _ _ _ _ _ Hselect).
      rewrite bind_assoc, assign_step. rewrite bind_assoc, assign_step.
      rewrite bind_assoc, Hfolds, lift_step.
      rewrite (bind_step _ _ _ _ _ Hloop). reflexivity.
Qed.

End FitTotal.

(** The toy regressors can be fitted on every non-empty selection, so on
    them [fit] succeeds whenever the configuration is valid and can split
    the rows. *)
Lemma toy_fit_line_total (h : Toy.hyper) (X y : list Q) :
  X <> [] -> exists m, Toy.fit_line h X y = Ok m.
Proof. destruct X; [congruence|]. destruct h; simpl; eauto. Qed.

Lemma toy_trainable (h : Toy.hyper) (X y : list Q) :
  trainable (Reg := Toy.regressor) h X y.
Proof.
  intros idx X_train y_train Hidx HX _. apply toy_fit_line_total.
  apply IndexFacts.take_idx_length in HX. intros ->.
  destruct idx; [congruence | discriminate].
Qed.

Example toy_fit_succeeds (X y : list Q) (self : MapieRegressor Toy.hyper (Q * Q)) :
  valid_parameters self -> X <> [] -> length X = length y ->
  splittable self (length X) ->
  exists self', toy_fit X y self = (Ok tt, self').
Proof.
  intros Hvalid HX Hlen Hsplit.
  apply (fit_total (Reg := Toy.regressor) (RT := Toy.in_order)); try assumption.
  - now apply toy_fit_line_total.
  - apply toy_trainable.
Qed.

(** * Further properties of the code *)

(** ** Order statistics *)

Module OrderFacts.

Lemma Sorted_lookup_le (s : list Q) :
  Sorted Qle s ->
  forall i j a b, (i <= j)%nat -> s !! i = Some a -> s !! j = Some b -> a <= b.
Proof.
  intros Hs. apply Sorted_StronglySorted in Hs; [|intros x y z; apply Qle_trans].
  induction Hs as [|x s Hs IH Hx]; intros i j a b Hij Hi Hj.
  - inversion Hi.
  - destruct i as [|i], j as [|j]; simpl in Hi, Hj.
    + injection Hi as <-. injection Hj as <-. apply Qle_refl.
    + injection Hi as <-. rewrite Forall_forall in Hx. apply Hx.
      eapply list_elem_of_lookup_2, Hj.
    + lia.
    + apply (IH i j); [lia | assumption | assumption].
Qed.

(** A quantile grows with its probability. *)
Lemma quantile_monotone (a : list Q) (q1 q2 : Q) (i : Np.interpolation) (v1 v2 : Q) :
  q1 <= q2 ->
  Np.quantile a q1 i = Ok v1 -> Np.quantile a q2 i = Ok v2 -> v1 <= v2.
Proof.
  intros Hq H1 H2.
  assert (Hne : a <> []) by (eapply quantile_nonempty, H1).
  assert (Hn : (0 < length a)%nat) by (destruct a; [congruence | simpl; lia]).
  apply NpFacts.quantile_ok in H1 as (H10 & H11 & Hv1).
  apply NpFacts.quantile_ok in H2 as (H20 & H21 & Hv2).
  pose proof (NpFacts.rank_range (length a) q1 i Hn H10 H11) as Hr1.
  pose proof (NpFacts.rank_range (length a) q2 i Hn H20 H21) as Hr2.
  eapply (Sorted_lookup_le _ (NpFacts.sort_Sorted a)); [|exact Hv1|exact Hv2].
  apply Z2Nat.inj_le; [lia | lia |].
  now apply NpFacts.rank_monotone.
Qed.

Lemma Forall2_Qle_refl (l : list Q) : Forall2 Qle l l.
Proof. induction l; constructor; [apply Qle_refl | assumption]. Qed.

Lemma Forall2_Qle_trans (l1 l2 l3 : list Q) :
  Forall2 Qle l1 l2 -> Forall2 Qle l2 l3 -> Forall2 Qle l1 l3.
Proof.
  intros H12. revert l3. induction H12 as [|x y l1 l2 Hxy _ IH]; intros l3 H23.
  - inversion H23. constructor.
  - inversion H23 as [|? z ? l3' Hyz H23']; subst.
    constructor; [eapply Qle_trans; eassumption | now apply IH].
Qed.

Lemma Qle_bool_false (x y : Q) : Qle_bool x y = false -> y <= x.
Proof.
  intros E. destruct (Qlt_le_dec y x) as [Hlt|Hle]; [now apply Qlt_le_weak|].
  apply Qle_bool_iff in Hle. congruence.
Qed.

(** Replacing the head of a sorted list by something larger, in its
    place, can only raise the list, place by place. *)
Lemma insert_sorted_raises (y : Q) (t : list Q) :
  forall t0, Sorted Qle (t0 :: t) -> t0 <= y ->
             Forall2 Qle (t0 :: t) (Np.insert_sorted y t).
Proof.
  induction t as [|t1 t IH]; intros t0 Hs Hy; simpl.
  - repeat constructor. exact Hy.
  - apply Sorted_inv in Hs as [Hs Hhd]. apply HdRel_inv in Hhd.
    destruct (Qle_bool y t1) eqn:E.
    + constructor; [exact Hy | apply Forall2_Qle_refl].
    + constructor; [exact Hhd|]. apply IH; [exact Hs | now apply Qle_bool_false].
Qed.

(** Replacing the head of a list by something below the head of a sorted
    list that dominates it keeps the domination. *)
Lemma insert_sorted_below (x : Q) (s : list Q) :
  forall s0 t0 t, Forall2 Qle (s0 :: s) (t0 :: t) -> Sorted Qle (t0 :: t) -> x <= t0 ->
                  Forall2 Qle (Np.insert_sorted x s) (t0 :: t).
Proof.
  induction s as [|s1 s IH]; intros s0 t0 t H Hs Hx; simpl.
  - inversion H as [|? ? ? ? _ Htl]; subst. inversion Htl; subst.
    repeat constructor. exact Hx.
  - inversion H as [|? ? ? ? _ Htl]; subst.
    destruct t as [|t1 t]; [inversion Htl|].
    apply Sorted_inv in Hs as [Hs Hhd]. apply HdRel_inv in Hhd.
    destruct (Qle_bool x s1) eqn:E.
    + constructor; [exact Hx | exact Htl].
    + constructor.
      * eapply Qle_trans; [eapply Qle_bool_false, E | exact Hx].
      * apply (IH s1); [exact Htl | exact Hs | eapply Qle_trans; eassumption].
Qed.

Lemma insert_sorted_dominates (x y : Q) (s t : list Q) :
  Forall2 Qle s t -> Sorted Qle t -> x <= y ->
  Forall2 Qle (Np.insert_sorted x s) (Np.insert_sorted y t).
Proof.
  intros H. induction H as [|s0 t0 s t H0 Htl IH]; intros Hs Hxy; simpl.
  - repeat constructor. exact Hxy.
  - destruct (Qle_bool x s0) eqn:Ex, (Qle_bool y t0) eqn:Ey.
    + constructor; [exact Hxy|]. now constructor.
    + apply Qle_bool_iff in Ex. apply Qle_bool_false in Ey.
      constructor; [eapply Qle_trans; eassumption|].
      eapply Forall2_Qle_trans; [constructor; eassumption|].
      now apply insert_sorted_raises.
    + apply Qle_bool_false in Ex. apply Qle_bool_iff in Ey.
      constructor; [eapply Qle_trans; eassumption|].
      apply (insert_sorted_below x s s0); [now constructor | exact Hs|].
      eapply Qle_trans; eassumption.
    + constructor; [exact H0|]. apply IH; [|exact Hxy].
      now apply Sorted_inv in Hs as [Hs _].
Qed.

(** Sorting keeps a place-by-place domination. *)
Lemma sort_dominates (a b : list Q) :
  Forall2 Qle a b -> Forall2 Qle (Np.sort a) (Np.sort b).
Proof.
  induction 1 as [|x y a b Hxy _ IH]; simpl; [constructor|].
  apply insert_sorted_dominates; [exact IH | apply NpFacts.sort_Sorted | exact Hxy].
Qed.

(** So do quantiles. *)
Lemma quantile_dominates (a b : list Q) (q : Q) (i : Np.interpolation) (v1 v2 : Q) :
  Forall2 Qle a b ->
  Np.quantile a q i = Ok v1 -> Np.quantile b q i = Ok v2 -> v1 <= v2.
Proof.
  intros Hab H1 H2.
  apply NpFacts.quantile_ok in H1 as (_ & _ & Hv1).
  apply NpFacts.quantile_ok in H2 as (_ & _ & Hv2).
  rewrite <- (Forall2_length _ _ _ Hab) in Hv2.
  destruct (Forall2_lookup_l _ _ _ _ _ (sort_dominates a b Hab) Hv1) as (v & Hv & Hle).
  rewrite Hv2 in Hv. now injection Hv as <-.
Qed.

End OrderFacts.

(** ** What a table returned by [predict] is made of *)

Section PredictInversion.

Context {features hyper model : Type}.
Context `{Reg : Regressor features hyper model}.

Lemma predict_multi_length (self : MapieRegressor hyper model) (X : list features)
  (P0 : list (list Q)) :
  predict_multi self X = Ok P0 -> length P0 = length X.
Proof.
  unfold predict_multi. intros H. inv_result.
  apply ShapeFacts.stack_axis1_inv in H as (m & Hne & Hall & ->).
  rewrite length_map, length_seq.
  destruct a as [|e es]; [simpl in Hne; congruence|].
  simpl in Hall. apply Forall_cons in Hall as [He _].
  now rewrite est_predict_length in He.
Qed.

(** Any table that [predict] returns, from any object: its three columns
    and where they come from. *)
Lemma predict_inv (self : MapieRegressor hyper model) (X : list features)
  (table : list (list Q)) :
  predict self X = Ok table ->
  exists single centers lows ups,
    single_estimator_ self = Some single /\ X <> []
    /\ length centers = length X /\ length lows = length X /\ length ups = length X
    /\ table = map (fun i => [default 0 (centers !! i); default 0 (lows !! i);
                              default 0 (ups !! i)]) (seq 0 (length X))
    /\ ((str_in (method self) ["naive"; "jackknife"; "cv"]%string = true
         /\ centers = est_predict single X
         /\ exists r q,
              residuals_ self = Some r
              /\ Np.quantile r (Binary64.sub 1 (alpha self)) Np.higher = Ok q
              /\ lows = map (fun c => c - q) centers
              /\ ups = map (fun c => c + q) centers)
        \/ (str_in (method self) ["naive"; "jackknife"; "cv"]%string = false
            /\ exists P0 P L U,
                 predict_multi self X = Ok P0
                 /\ (if String.eqb (return_pred self) "median"
                     then Np.median_axis1 P0 = Ok centers
                     else centers = est_predict single X)
                 /\ reindex self P0 = Ok P /\ bounds self P = Ok (L, U)
                 /\ Np.quantile_axis1 L (alpha self) Np.lower = Ok lows
                 /\ Np.quantile_axis1 U (Binary64.sub 1 (alpha self)) Np.higher = Ok ups)).
Proof.
  unfold predict, check_is_fitted. intros H.
  destruct (single_estimator_ self) as [single|] eqn:Hsingle; [|discriminate].
  cbn [rbind getattr] in H.
  unfold Sk.check_array in H.
  destruct (length X =? 0)%nat eqn:HX; [discriminate|]. cbn [rbind] in H.
  assert (HXne : X <> []) by (intros ->; discriminate).
  apply rbind_ok in H as ([[centers lows] ups] & Hcols & H).
  apply ShapeFacts.stack_axis1_inv in H as (m & _ & Hall & ->).
  apply Forall_cons in Hall as [Hc Hall]. apply Forall_cons in Hall as [Hl Hall].
  apply Forall_cons in Hall as [Hu _].
  assert (Hshape : length centers = length X ->
            length centers = length X /\ length lows = length X /\ length ups = length X
            /\ map (fun i => map (fun b => default 0 (b !! i)) [centers; lows; ups]) (seq 0 m)
               = map (fun i => [default 0 (centers !! i); default 0 (lows !! i);
                                default 0 (ups !! i)]) (seq 0 (length X))).
  { intros Hlen. repeat split; try lia. now replace m with (length X) by lia. }
  exists single, centers, lows, ups. split; [reflexivity|]. split; [exact HXne|].
  destruct (str_in (method self) ["naive"; "jackknife"; "cv"]%string) eqn:Hbase.
  - apply rbind_ok in Hcols as (r & Hr & Hcols). apply getattr_ok in Hr.
    apply rbind_ok in Hcols as (q & Hq & Hcols). injection Hcols as <- <- <-.
    destruct (Hshape (est_predict_length single X)) as (H1 & H2 & H3 & H4).
    repeat (split; [assumption|]).
    left. split; [reflexivity|]. split; [reflexivity|]. exists r, q. auto.
  - apply rbind_ok in Hcols as (P0 & HP0 & Hcols).
    apply rbind_ok in Hcols as (centers' & Hcenters & Hcols).
    apply rbind_ok in Hcols as (P & HP & Hcols).
    apply rbind_ok in Hcols as ([L U] & Hb & Hcols).
    apply rbind_ok in Hcols as (lows' & Hlows & Hcols).
    apply rbind_ok in Hcols as (ups' & Hups & Hcols).
    injection Hcols as <- <- <-.
    assert (Hlen : length centers' = length X).
    { destruct (String.eqb (return_pred self) "median").
      - apply rmap_length in Hcenters. rewrite Hcenters.
        eapply predict_multi_length, HP0.
      - injection Hcenters as <-. apply est_predict_length. }
    destruct (Hshape Hlen) as (H1 & H2 & H3 & H4).
    repeat (split; [assumption|]).
    right. split; [reflexivity|]. exists P0, P, L, U.
    split; [exact HP0|]. split.
    { destruct (String.eqb (return_pred self) "median"); [exact Hcenters|].
      now injection Hcenters as <-. }
    auto.
Qed.

End PredictInversion.

(** X1. Whatever the object, a table that [predict] returns has one row per
    row of the input and three entries in each row. *)
Theorem predict_shape {features hyper model : Type}
  `{Reg : Regressor features hyper model}
  (self : MapieRegressor hyper model) (X : list features) (table : list (list Q)) :
  predict self X = Ok table ->
  length table = length X /\ Forall (fun row => length row = 3%nat) table.
Proof.
  intros H. apply predict_inv in H
    as (single & centers & lows & ups & _ & _ & _ & _ & _ & -> & _).
  split; [now rewrite length_map, length_seq|].
  apply Forall_fmap, Forall_forall. intros i _. reflexivity.
Qed.

Lemma predict_shape_witness :
  exists table,
    toy_predict (snd (toy_fit Toy.X_toy Toy.y_toy Toy.pireg)) Toy.X_five = Ok table
    /\ length table = 5%nat /\ Forall (fun row => length row = 3%nat) table.
Proof.
  destruct (toy_predict (snd (toy_fit Toy.X_toy Toy.y_toy Toy.pireg)) Toy.X_five)
    as [table|e] eqn:H; [|vm_compute in H; discriminate].
  exists table. split; [reflexivity|]. exact (predict_shape _ _ _ H).
Defined.

(** ** Intervals and alpha *)

Lemma Forall2_map_same {A B : Type} (R : B -> B -> Prop) (f g : A -> B) (l : list A) :
  (forall x, x ∈ l -> R (f x) (g x)) -> Forall2 R (map f l) (map g l).
Proof.
  induction l as [|x l IH]; intros H; simpl; constructor.
  - apply H. left.
  - apply IH. intros z Hz. apply H. now right.
Qed.

Section Alpha.

Context {features hyper model : Type}.
Context `{Reg : Regressor features hyper model}.

(** Row by row, quantiles of the same matrix at two probabilities. *)
Lemma quantile_axis1_monotone (A : list (list Q)) (q1 q2 : Q) (i : Np.interpolation)
  (v1 v2 : list Q) (k : nat) (x1 x2 : Q) :
  q1 <= q2 ->
  Np.quantile_axis1 A q1 i = Ok v1 -> Np.quantile_axis1 A q2 i = Ok v2 ->
  v1 !! k = Some x1 -> v2 !! k = Some x2 -> x1 <= x2.
Proof.
  intros Hq H1 H2 Hk1 Hk2.
  destruct (rmap_lookup_r _ _ _ _ _ H1 Hk1) as (row & Hrow & Hx1).
  destruct (rmap_lookup_r _ _ _ _ _ H2 Hk2) as (row' & Hrow' & Hx2).
  rewrite Hrow in Hrow'. injection Hrow' as <-.
  eapply OrderFacts.quantile_monotone; eassumption.
Qed.

End Alpha.

(** X2. A lower alpha gives a larger interval, as the docstring says: for
    any object and input, if [predict] returns a table with alpha = a1 and
    another with alpha = a2 >= a1, the two tables have the same centers
    and, row by row, the interval for a1 contains the interval for a2. *)
Theorem intervals_nested_in_alpha {features hyper model : Type}
  `{Reg : Regressor features hyper model}
  (self : MapieRegressor hyper model) (X : list features) (a1 a2 : Q)
  (t1 t2 : list (list Q)) :
  a1 <= a2 ->
  predict (set_alpha a1 self) X = Ok t1 ->
  predict (set_alpha a2 self) X = Ok t2 ->
  Forall2 (fun r1 r2 => exists c l1 u1 l2 u2,
             r1 = [c; l1; u1] /\ r2 = [c; l2; u2] /\ l1 <= l2 /\ u2 <= u1) t1 t2.
Proof.
  intros Ha H1 H2.
  assert (Ha' : Binary64.sub 1 a2 <= Binary64.sub 1 a1)
    by (apply Binary64Facts.fl_monotone; lra).
  apply predict_inv in H1
    as (single & centers & lows1 & ups1 & Hs1 & _ & Hlc & Hll1 & Hlu1 & -> & Hcase1).
  apply predict_inv in H2
    as (single' & centers' & lows2 & ups2 & Hs2 & _ & Hlc' & Hll2 & Hlu2 & -> & Hcase2).
  cbn [single_estimator_ set_alpha method residuals_ alpha return_pred] in *.
  rewrite Hs1 in Hs2. injection Hs2 as <-.
  assert (Hrows : centers = centers'
                  /\ (forall k x1 x2, lows1 !! k = Some x1 -> lows2 !! k = Some x2 -> x1 <= x2)
                  /\ (forall k x1 x2, ups1 !! k = Some x1 -> ups2 !! k = Some x2 -> x2 <= x1)).
  { destruct Hcase1 as [(Hb1 & Hc1 & r & q1 & Hr1 & Hq1 & -> & ->)
                       | (Hb1 & P0 & P & L & U & HP0 & Hc1 & HP & Hb & Hlo1 & Hup1)],
             Hcase2 as [(Hb2 & Hc2 & r' & q2 & Hr2 & Hq2 & -> & ->)
                       | (Hb2 & P0' & P' & L' & U' & HP0' & Hc2 & HP' & Hb' & Hlo2 & Hup2)];
      try congruence.
    - rewrite Hr1 in Hr2. injection Hr2 as <-. subst centers centers'.
      pose proof (OrderFacts.quantile_monotone _ _ _ _ _ _ Ha' Hq2 Hq1) as Hq.
      split; [reflexivity|]. split; intros k x1 x2 Hk1 Hk2;
        rewrite list_lookup_fmap in Hk1, Hk2;
        destruct (est_predict single X !! k) as [c|]; simpl in Hk1, Hk2; try discriminate;
        injection Hk1 as <-; injection Hk2 as <-; lra.
    - change (predict_multi self X = Ok P0) in HP0.
      change (predict_multi self X = Ok P0') in HP0'.
      rewrite HP0 in HP0'. injection HP0' as <-.
      change (reindex self P0 = Ok P) in HP. change (reindex self P0 = Ok P') in HP'.
      rewrite HP in HP'. injection HP' as <-.
      change (bounds self P = Ok (L, U)) in Hb. change (bounds self P = Ok (L', U')) in Hb'.
      rewrite Hb in Hb'. injection Hb' as <- <-.
      split.
      + destruct (String.eqb (return_pred self) "median"); congruence.
      + split; intros k x1 x2 Hk1 Hk2.
        * eapply (quantile_axis1_monotone L a1 a2); eassumption.
        * eapply (quantile_axis1_monotone U (Binary64.sub 1 a2) (Binary64.sub 1 a1));
            eassumption. }
  destruct Hrows as (<- & Hlows & Hups).
  apply Forall2_map_same. intros k Hk. apply elem_of_seq in Hk.
  destruct (lookup_lt_is_Some_2 lows1 k ltac:(lia)) as [l1 Hl1].
  destruct (lookup_lt_is_Some_2 lows2 k ltac:(lia)) as [l2 Hl2].
  destruct (lookup_lt_is_Some_2 ups1 k ltac:(lia)) as [u1 Hu1].
  destruct (lookup_lt_is_Some_2 ups2 k ltac:(lia)) as [u2 Hu2].
  rewrite Hl1, Hl2, Hu1, Hu2. simpl.
  exists (default 0 (centers !! k)), l1, u1, l2, u2.
  split; [reflexivity|]. split; [reflexivity|]. split; eauto.
Qed.

Lemma intervals_nested_in_alpha_witness :
  exists t1 t2,
    (1 # 10) <= (1 # 2)
    /\ toy_predict (set_alpha (1 # 10) (snd (toy_fit Toy.X_toy Toy.y_toy Toy.pireg))) [0; 1]
       = Ok t1
    /\ toy_predict (set_alpha (1 # 2) (snd (toy_fit Toy.X_toy Toy.y_toy Toy.pireg))) [0; 1]
       = Ok t2
    /\ Forall2 (fun r1 r2 => exists c l1 u1 l2 u2,
                  r1 = [c; l1; u1] /\ r2 = [c; l2; u2] /\ l1 <= l2 /\ u2 <= u1) t1 t2.
Proof.
  destruct (toy_predict (set_alpha (1 # 10) (snd (toy_fit Toy.X_toy Toy.y_toy Toy.pireg)))
              [0; 1]) as [t1|e] eqn:H1; [|vm_compute in H1; discriminate].
  destruct (toy_predict (set_alpha (1 # 2) (snd (toy_fit Toy.X_toy Toy.y_toy Toy.pireg)))
              [0; 1]) as [t2|e] eqn:H2; [|vm_compute in H2; discriminate].
  assert (Ha : (1 # 10) <= (1 # 2)) by (intros H; discriminate H).
  exists t1, t2. split; [exact Ha|]. split; [reflexivity|]. split; [reflexivity|].
  exact (intervals_nested_in_alpha _ _ _ _ _ _ Ha H1 H2).
Defined.

(** ** Lower and upper bounds *)

Lemma valid_method_cases (m : string) :
  str_in m ["naive"; "jackknife"; "jackknife_plus"; "jackknife_minmax"; "cv"; "cv_plus";
            "cv_minmax"]%string = true ->
  str_in m ["naive"; "jackknife"; "cv"]%string = true
  \/ str_in m ["jackknife_plus"; "cv_plus"; "jackknife_minmax"; "cv_minmax"]%string = true.
Proof.
  intros H. unfold str_in in H. simpl in H.
  rewrite !orb_true_iff, !String.eqb_eq in H.
  destruct H as [->|[->|[->|[->|[->|[->|[->|H]]]]]]]; [| | | | | | |discriminate];
    first [left; reflexivity | right; reflexivity].
Qed.

(** With a probability of one half at most, the rank read from below is
    not above the rank read from above at the complement: one half is a
    double, so that the rounded complement is not below it. *)
Lemma rank_lower_le_higher (n : nat) (p : Q) :
  (0 < n)%nat -> p <= 1 # 2 ->
  (Np.rank n p Np.lower <= Np.rank n (Binary64.sub 1 p) Np.higher)%Z.
Proof.
  intros Hn Hp. unfold Np.rank.
  assert (Hc : p <= Binary64.sub 1 p).
  { eapply Qle_trans; [exact Hp|]. rewrite <- Binary64Facts.fl_half.
    apply Binary64Facts.fl_monotone. lra. }
  pose proof (NpFacts.virtual_index_monotone n _ _ Hn Hc) as Hle.
  rewrite Zle_Qle.
  eapply Qle_trans; [apply Qfloor_le|].
  eapply Qle_trans; [exact Hle | apply Qle_ceiling].
Qed.

Lemma quantile_lower_le_higher (a b : list Q) (p v1 v2 : Q) :
  Forall2 Qle a b -> p <= 1 # 2 ->
  Np.quantile a p Np.lower = Ok v1 ->
  Np.quantile b (Binary64.sub 1 p) Np.higher = Ok v2 ->
  v1 <= v2.
Proof.
  intros Hab Hp H1 H2.
  assert (Hne : a <> []) by (eapply quantile_nonempty, H1).
  assert (Hn : (0 < length a)%nat) by (destruct a; [congruence | simpl; lia]).
  apply NpFacts.quantile_ok in H1 as (H10 & H11 & Hv1).
  apply NpFacts.quantile_ok in H2 as (H20 & H21 & Hv2).
  rewrite <- (Forall2_length _ _ _ Hab) in Hv2.
  pose proof (NpFacts.rank_range (length a) p Np.lower Hn H10 H11) as Hr1.
  pose proof (NpFacts.rank_range (length a) (Binary64.sub 1 p) Np.higher Hn H20 H21) as Hr2.
  pose proof (rank_lower_le_higher (length a) p Hn Hp) as Hr.
  destruct (Forall2_lookup_l _ _ _ _ _ (OrderFacts.sort_dominates a b Hab) Hv1)
    as (w & Hw & Hle).
  eapply Qle_trans; [exact Hle|].
  eapply (OrderFacts.Sorted_lookup_le _ (NpFacts.sort_Sorted b)); [|exact Hw|exact Hv2].
  apply Z2Nat.inj_le; lia.
Qed.

Section BaseBand.

Context {features hyper model : Type}.
Context `{Reg : Regressor features hyper model}.
Context `{RT : Runtime}.

(** The table of the methods "naive", "jackknife" and "cv" after a
    successful [fit]. *)
Lemma predict_base (X : list features) (y : list Q) (X_new : list features)
  (self self' : MapieRegressor hyper model) :
  fitted X y self self' ->
  str_in (method self) ["naive"; "jackknife"; "cv"]%string = true ->
  X_new <> [] ->
  exists single q,
    single_estimator_ self' = Some single /\ 0 <= q
    /\ predict self' X_new
       = Ok (map (fun c => [c; c - q; c + q]) (est_predict single X_new)).
Proof.
  intros H Hbase Hnew.
  destruct (fitted_residuals _ _ _ _ H) as (residuals & Hres & Hlen & Hne & Hpos).
  destruct H as (Hvalid & _ & _ & h & single & _ & _ & Halpha & Hmeth & _ & _ & _ & _
                 & Hsingle & _).
  destruct (valid_alpha_range _ Hvalid) as (_ & _ & Hq0 & Hq1).
  destruct (NpFacts.quantile_total residuals (Binary64.sub 1 (alpha self)) Np.higher Hne Hq0 Hq1)
    as (q & Hq).
  exists single, q. split; [exact Hsingle|]. split.
  { rewrite Forall_forall in Hpos. apply Hpos. eapply NpFacts.quantile_elem_of, Hq. }
  unfold predict, check_is_fitted.
  rewrite Hsingle, (check_array_ok _ Hnew), Hmeth, Hbase, Hres, Halpha. simpl.
  rewrite Hq. simpl. apply table_of_columns.
Qed.

End BaseBand.

(** X3. After a successful [fit], whatever the method, with alpha at most
    one half [predict] on a non-empty input returns a table in which no
    lower bound is above its upper bound. *)
Theorem lower_below_upper {features hyper model : Type}
  `{Reg : Regressor features hyper model} `{RT : Runtime}
  (X : list features) (y : list Q) (X_new : list features)
  (self self' : MapieRegressor hyper model) (u : unit) :
  fit X y self = (Ok u, self') ->
  alpha self <= 1 # 2 ->
  X_new <> [] ->
  exists table,
    predict self' X_new = Ok table
    /\ Forall (fun row => exists c lo up, row = [c; lo; up] /\ lo <= up) table.
Proof.
  intros H Halpha Hnew. apply fit_ok in H.
  assert (Hvalid : str_in (method self) valid_methods = true) by (now destruct H as ((_ & _ & ? & _) & _)).
  destruct (valid_method_cases _ Hvalid) as [Hbase | Hens].
  - destruct (predict_base X y X_new self self' H Hbase Hnew) as (single & q & _ & Hq & Hp).
    eexists. split; [exact Hp|].
    apply Forall_fmap, Forall_forall. intros c _. simpl.
    exists c, (c - q), (c + q). split; [reflexivity | lra].
  - destruct (ensemble_method_cases _ Hens) as (_ & _ & Hkind).
    destruct (predict_ensemble X y X_new self self' H Hens Hnew)
      as (single & P0 & P & residual & lowerMat & upperMat & centers & lows & ups
          & _ & _ & _ & _ & _ & Hpos & _ & _ & Hlows & Hups & HlP0 & HlP & _ & _
          & Hplus & Hminmax & Hpredict).
    eexists. split; [exact Hpredict|].
    apply Forall_fmap, Forall_forall. intros i Hi. apply elem_of_seq in Hi. simpl.
    destruct (lookup_lt_is_Some_2 P i ltac:(lia)) as [row Hrow].
    assert (Hrows : exists lrow urow,
              lowerMat !! i = Some lrow /\ upperMat !! i = Some urow
              /\ Forall2 Qle lrow urow).
    { rewrite Forall_forall in Hpos.
      destruct Hkind as [(Ep & _ & _) | (Ep & _ & _)].
      - destruct (Hplus Ep) as (_ & -> & ->).
        exists (zip_with Qminus row residual), (zip_with Qplus row residual).
        rewrite !list_lookup_fmap, Hrow. simpl.
        split; [reflexivity|]. split; [reflexivity|].
        apply Forall2_same_length_lookup. split; [now rewrite !length_zip_with|].
        intros j a b Ha Hb. rewrite lookup_zip_with in Ha, Hb.
        destruct (row !! j) as [p|]; simpl in Ha, Hb; [|discriminate].
        destruct (residual !! j) as [r|] eqn:Hr; simpl in Ha, Hb; [|discriminate].
        injection Ha as <-. injection Hb as <-.
        pose proof (Hpos r (list_elem_of_lookup_2 _ _ _ Hr)). lra.
      - destruct (Hminmax Ep) as (_ & mins & maxs & Hmins & Hmaxs & -> & ->).
        destruct (Forall2_lookup_l _ _ _ _ _ Hmins Hrow) as (mn & Hmn & Hmin).
        destruct (Forall2_lookup_l _ _ _ _ _ Hmaxs Hrow) as (mx & Hmx & Hmax).
        exists (map (Qminus mn) residual), (map (Qplus mx) residual).
        rewrite !list_lookup_fmap, Hmn, Hmx. simpl.
        split; [reflexivity|]. split; [reflexivity|].
        apply RuleFacts.min_spec in Hmin as [Hin Hmin].
        apply RuleFacts.max_spec in Hmax as [_ Hmax].
        rewrite Forall_forall in Hmax. pose proof (Hmax mn Hin) as Hmm.
        apply Forall2_map_same. intros r Hr. pose proof (Hpos r Hr). lra. }
    destruct Hrows as (lrow & urow & Hlrow & Hurow & Hdom).
    destruct (Forall2_lookup_l _ _ _ _ _ Hlows Hlrow) as (lo & Hlo & Hqlo).
    destruct (Forall2_lookup_l _ _ _ _ _ Hups Hurow) as (up & Hup & Hqup).
    rewrite Hlo, Hup. simpl.
    exists (default 0 (centers !! i)), lo, up. split; [reflexivity|].
    eapply quantile_lower_le_higher; eassumption.
Qed.

Lemma lower_below_upper_witness :
  toy_fit Toy.X_steps Toy.y_steps Toy.two_folds
  = (Ok tt, snd (toy_fit Toy.X_steps Toy.y_steps Toy.two_folds))
  /\ alpha Toy.two_folds <= 1 # 2
  /\ Toy.X_five <> []
  /\ exists table,
       toy_predict (snd (toy_fit Toy.X_steps Toy.y_steps Toy.two_folds)) Toy.X_five = Ok table
       /\ Forall (fun row => exists c lo up, row = [c; lo; up] /\ lo <= up) table.
Proof.
  assert (H : toy_fit Toy.X_steps Toy.y_steps Toy.two_folds
              = (Ok tt, snd (toy_fit Toy.X_steps Toy.y_steps Toy.two_folds))).
  { vm_compute. reflexivity. }
  assert (Ha : alpha Toy.two_folds <= 1 # 2) by (intros Hc; discriminate Hc).
  assert (Hnew : Toy.X_five <> []) by discriminate.
  split; [exact H|]. split; [exact Ha|]. split; [exact Hnew|].
  exact (lower_below_upper _ _ _ _ _ _ H Ha Hnew).
Defined.

(** ** The variants of a method share their fit *)

Lemma jackknife_family (m : string) :
  str_in m valid_methods = true -> String.eqb m "naive" = false ->
  startswith m "cv" = false -> startswith m "jackknife" = true.
Proof.
  intros H Hn Hcv. unfold str_in, valid_methods in H. simpl in H.
  rewrite !orb_true_iff, !String.eqb_eq in H.
  destruct H as [->|[->|[->|[->|[->|[->|[->|H]]]]]]]; try discriminate; reflexivity.
Qed.

Section Variant.

Context {features hyper model : Type}.
Context `{Reg : Regressor features hyper model}.
Context `{RT : Runtime}.

Variables m1 m2 : string.
Hypothesis family : same_family m1 m2.

Abbreviation vobj := (MapieRegressor hyper model).
Abbreviation blind := (variant_blind (hyper := hyper) (model := model) m1 m2).

Lemma variant_blind_bind {A B : Type} (c : @M hyper model A) (k : A -> @M hyper model B) :
  blind c -> (forall a, blind (k a)) -> blind (bind c k).
Proof.
  intros Hc Hk s1 s2 Hs. unfold bind.
  destruct (Hc s1 s2 Hs) as [Hfst Hsnd].
  destruct (c s1) as [[a1|e1] s1'], (c s2) as [[a2|e2] s2']; simpl in *;
    try discriminate Hfst.
  - injection Hfst as ->. now apply Hk.
  - injection Hfst as ->. now split.
Qed.

Lemma variant_blind_lift {A : Type} (r : result A) : blind (lift r).
Proof. intros s1 s2 Hs. simpl. auto. Qed.

Lemma variant_blind_ret {A : Type} (a : A) : blind (ret a).
Proof. intros s1 s2 Hs. simpl. auto. Qed.

Lemma variant_blind_read {A : Type} (f : vobj -> A) :
  (forall s, f (set_method m2 s) = f s) -> blind (read f).
Proof. intros Hf s1 s2 [Hm ->]. simpl. rewrite Hf. now split. Qed.

Lemma variant_blind_getattr {A : Type} (name : string) (f : vobj -> option A) :
  (forall s, f (set_method m2 s) = f s) ->
  blind (fun self => (getattr name (f self), self)).
Proof. intros Hf s1 s2 [Hm ->]. simpl. rewrite Hf. now split. Qed.

Lemma variant_blind_assign (f : vobj -> vobj) :
  (forall s, set_method m2 (f s) = f (set_method m2 s)) ->
  (forall s, method (f s) = method s) ->
  blind (assign f).
Proof.
  intros Hcomm Hm s1 s2 [Hs ->]. simpl. split; [reflexivity|].
  split; [now rewrite Hm | now rewrite Hcomm].
Qed.

(** Where the method is read: what follows has to do the same for [m1]
    and for [m2]. *)
Lemma variant_blind_method {A : Type} (k : string -> @M hyper model A) :
  (forall s1 s2, same_but_method m1 m2 s1 s2 ->
     fst (k m1 s1) = fst (k m2 s2)
     /\ same_but_method m1 m2 (snd (k m1 s1)) (snd (k m2 s2))) ->
  blind (bind (read method) k).
Proof.
  intros Hk s1 s2 Hs. unfold bind, read.
  destruct (Hs) as [Hm ->]. cbn [method set_method]. rewrite Hm.
  apply Hk. now split.
Qed.

Ltac variant_blind_steps :=
  repeat first
    [ apply variant_blind_bind; [|intros ?]
    | apply variant_blind_lift
    | apply variant_blind_ret
    | apply variant_blind_read; reflexivity
    | apply variant_blind_getattr; reflexivity
    | apply variant_blind_assign; reflexivity ].

Lemma variant_blind__check_parameters : blind _check_parameters.
Proof.
  destruct family as (Hv1 & Hv2 & _).
  unfold _check_parameters, raise.
  apply variant_blind_bind; [apply variant_blind_read; reflexivity | intros a].
  destruct (negb _); [apply variant_blind_lift|].
  apply variant_blind_method. rewrite Hv1, Hv2. cbn [negb].
  change (blind (bind (read return_pred) (fun rp =>
            if negb (str_in rp valid_return_preds)
            then lift (Raise (ValueError "Invalid return_pred argument."))
            else bind (read estimator) (fun e =>
                   match e with
                   | None => assign (set_estimator (Some LinearRegression))
                   | Some _ => ret tt
                   end)))).
  apply variant_blind_bind; [apply variant_blind_read; reflexivity | intros rp].
  destruct (negb _); [apply variant_blind_lift|].
  apply variant_blind_bind; [apply variant_blind_read; reflexivity | intros e].
  destruct e; [apply variant_blind_ret | apply variant_blind_assign; reflexivity].
Qed.

Lemma variant_blind__select_cv : blind _select_cv.
Proof.
  destruct family as (Hv1 & Hv2 & Hn1 & Hn2 & Hcv).
  unfold _select_cv, raise.
  apply variant_blind_method. rewrite <- Hcv.
  destruct (startswith m1 "cv") eqn:E1.
  - change (blind (bind (read shuffle) (fun sh =>
              bind (if negb sh then assign (set_random_state None) else ret tt) (fun _ =>
              bind (read n_splits) (fun ns =>
              bind (read shuffle) (fun sh' =>
              bind (read random_state) (fun rs =>
              lift (Sk.make_KFold ns sh' rs)))))))).
    apply variant_blind_bind; [apply variant_blind_read; reflexivity | intros sh].
    apply variant_blind_bind;
      [destruct (negb sh); [apply variant_blind_assign; reflexivity | apply variant_blind_ret]
      | intros _].
    variant_blind_steps.
  - rewrite (jackknife_family m1 Hv1 Hn1 E1).
    rewrite (jackknife_family m2 Hv2 Hn2) by (now rewrite <- Hcv).
    apply (variant_blind_ret Sk.LeaveOneOut).
Qed.

Lemma variant_blind_fit_fold (X : list features) (y : list Q) (k : nat)
  (fold : list nat * list nat) (y_pred : list Q) :
  blind (fit_fold X y k fold y_pred).
Proof. destruct fold as [train_fold val_fold]. unfold fit_fold. variant_blind_steps. Qed.

Lemma variant_blind_fit_folds (X : list features) (y : list Q)
  (folds : list (list nat * list nat)) :
  forall (k : nat) (y_pred : list Q), blind (fit_folds X y k folds y_pred).
Proof.
  induction folds as [|fold folds IH]; intros k y_pred; simpl.
  - apply variant_blind_ret.
  - apply variant_blind_bind; [apply variant_blind_fit_fold | intros y_pred'; apply IH].
Qed.

Lemma variant_blind_fit (X : list features) (y : list Q) : blind (fit X y).
Proof.
  destruct family as (Hv1 & Hv2 & Hn1 & Hn2 & Hcv).
  unfold fit.
  apply variant_blind_bind; [apply variant_blind__check_parameters | intros _].
  apply variant_blind_bind; [apply variant_blind_lift | intros [X' y']].
  apply variant_blind_bind; [apply variant_blind_read; reflexivity | intros est].
  apply variant_blind_bind; [apply variant_blind_lift | intros h].
  apply variant_blind_bind; [apply variant_blind_lift | intros single].
  apply variant_blind_bind; [apply variant_blind_assign; reflexivity | intros _].
  apply variant_blind_method. rewrite Hn1, Hn2.
  change (blind (bind
            (bind _select_cv (fun cv =>
             bind (assign (set_estimators_ [])) (fun _ =>
             bind (assign (set_k_ (empty_like_int y'))) (fun _ =>
             bind (lift (Sk.split cv (length X'))) (fun folds =>
             fit_folds X' y' 0 folds (empty_like_float y'))))))
            (fun y_pred => assign (set_residuals_ (Np.abs_diff y' y_pred))))).
  apply variant_blind_bind; [|intros y_pred; apply variant_blind_assign; reflexivity].
  apply variant_blind_bind; [apply variant_blind__select_cv | intros cv].
  apply variant_blind_bind; [apply variant_blind_assign; reflexivity | intros _].
  apply variant_blind_bind; [apply variant_blind_assign; reflexivity | intros _].
  apply variant_blind_bind; [apply variant_blind_lift | intros folds].
  apply variant_blind_fit_folds.
Qed.

End Variant.

(** X4. [fit] does the same work for the variants of a method. Take two
    valid methods other than "naive" that are both "cv" methods or both
    "jackknife" methods, and a configuration whose folds can be drawn
    again (no shuffling without a seed). If [fit] succeeds with the first
    method, it succeeds with the second one and leaves the same object,
    the method apart: same models, same fold assignment, same residuals. *)
Theorem fit_same_within_family {features hyper model : Type}
  `{Reg : Regressor features hyper model} `{RT : Runtime}
  (X : list features) (y : list Q) (self self' : MapieRegressor hyper model)
  (m2 : string) (u : unit) :
  same_family (method self) m2 ->
  (startswith (method self) "cv" = true -> shuffle self = true ->
   random_state self <> None) ->
  fit X y self = (Ok u, self') ->
  fit X y (set_method m2 self) = (Ok u, set_method m2 self').
Proof.
  intros Hfam _ Hfit.
  destruct (variant_blind_fit (method self) m2 Hfam X y self (set_method m2 self))
    as [Hfst [_ Hsnd]]; [now split|].
  rewrite (surjective_pairing (fit X y (set_method m2 self))).
  rewrite <- Hfst, Hsnd, Hfit. reflexivity.
Qed.

Lemma fit_same_within_family_witness :
  same_family (method Toy.pireg) "jackknife_minmax"
  /\ (startswith (method Toy.pireg) "cv" = true -> shuffle Toy.pireg = true ->
      random_state Toy.pireg <> None)
  /\ toy_fit Toy.X_toy Toy.y_toy Toy.pireg
     = (Ok tt, snd (toy_fit Toy.X_toy Toy.y_toy Toy.pireg))
  /\ toy_fit Toy.X_toy Toy.y_toy (set_method "jackknife_minmax" Toy.pireg)
     = (Ok tt, set_method "jackknife_minmax" (snd (toy_fit Toy.X_toy Toy.y_toy Toy.pireg))).
Proof.
  assert (H : same_family (method Toy.pireg) "jackknife_minmax").
  { unfold same_family. simpl. repeat split; reflexivity. }
  assert (Hr : startswith (method Toy.pireg) "cv" = true -> shuffle Toy.pireg = true ->
               random_state Toy.pireg <> None) by (intros Hcv; discriminate Hcv).
  assert (Hfit : toy_fit Toy.X_toy Toy.y_toy Toy.pireg
                 = (Ok tt, snd (toy_fit Toy.X_toy Toy.y_toy Toy.pireg))).
  { vm_compute. reflexivity. }
  split; [exact H|]. split; [exact Hr|]. split; [exact Hfit|].
  exact (fit_same_within_family _ _ _ _ _ _ H Hr Hfit).
Defined.

(** ** The "minmax" interval against the "plus" interval *)

Lemma take_columns_elem (A A' : list (list Q)) (ks : list Z) (i : nat) (row row' : list Q) :
  Np.take_columns A ks = Ok A' -> A !! i = Some row -> A' !! i = Some row' ->
  forall v, v ∈ row' -> v ∈ row.
Proof.
  intros H Hrow Hrow' v Hv. unfold Np.take_columns in H.
  destruct (rmap_lookup _ _ _ _ _ H Hrow) as (b & Hb & Hcols).
  rewrite Hrow' in Hb. injection Hb as <-.
  apply list_elem_of_lookup in Hv as [j Hj].
  destruct (rmap_lookup_r _ _ _ _ _ Hcols Hj) as (kz & _ & Hpick).
  apply rbind_ok in Hpick as (c & _ & Hpick).
  destruct (row !! c) as [w|] eqn:Hw; [|discriminate].
  injection Hpick as <-. eapply list_elem_of_lookup_2, Hw.
Qed.

Lemma rmap_functional {A B : Type} (f : A -> result B) (l : list A) (l1 l2 : list B) :
  Forall2 (fun a b => f a = Ok b) l l1 -> Forall2 (fun a b => f a = Ok b) l l2 -> l1 = l2.
Proof. rewrite <- !rmap_Forall2. congruence. Qed.

Section MinmaxPlus.

Context {features hyper model : Type}.
Context `{Reg : Regressor features hyper model}.
Context `{RT : Runtime}.

Lemma reindex_elem (self : MapieRegressor hyper model) (P0 P : list (list Q))
  (i : nat) (row0 row : list Q) :
  reindex self P0 = Ok P -> P0 !! i = Some row0 -> P !! i = Some row ->
  forall v, v ∈ row -> v ∈ row0.
Proof.
  unfold reindex. intros H H0 H1 v Hv.
  destruct (String.eqb (method self) "cv_plus").
  - apply rbind_ok in H as (ks & _ & H). eapply take_columns_elem; eassumption.
  - injection H as <-. congruence.
Qed.

(** A successful [fit] with one method is a successful [fit] of the same
    family's other methods, as far as the fitted state says. *)
Lemma fitted_same_family (X : list features) (y : list Q)
  (self self' : MapieRegressor hyper model) (m2 : string) (u : unit) :
  same_family (method self) m2 ->
  fit X y self = (Ok u, self') ->
  fitted X y (set_method m2 self) (set_method m2 self').
Proof.
  intros Hfam Hfit.
  destruct (variant_blind_fit (method self) m2 Hfam X y self (set_method m2 self))
    as [Hfst [_ Hsnd]]; [now split|].
  apply (fit_ok X y _ _ u).
  rewrite (surjective_pairing (fit X y (set_method m2 self))).
  rewrite <- Hfst, Hsnd, Hfit. reflexivity.
Qed.

End MinmaxPlus.

(** X5. After a successful [fit] with "jackknife_plus" (with "cv_plus"),
    take the fitted object and set its method to "jackknife_minmax" (to
    "cv_minmax"). On a non-empty input both objects predict, row by row
    with the same center, and the interval of the "minmax" method contains
    the interval of the "plus" method. *)
Theorem minmax_contains_plus {features hyper model : Type}
  `{Reg : Regressor features hyper model} `{RT : Runtime}
  (X : list features) (y : list Q) (X_new : list features)
  (self self' : MapieRegressor hyper model) (mm : string) (u : unit) :
  (method self = "jackknife_plus"%string /\ mm = "jackknife_minmax"%string)
  \/ (method self = "cv_plus"%string /\ mm = "cv_minmax"%string) ->
  fit X y self = (Ok u, self') ->
  X_new <> [] ->
  exists t_plus t_minmax,
    predict self' X_new = Ok t_plus
    /\ predict (set_method mm self') X_new = Ok t_minmax
    /\ Forall2 (fun r1 r2 => exists c l1 u1 l2 u2,
                  r1 = [c; l1; u1] /\ r2 = [c; l2; u2] /\ l2 <= l1 /\ u1 <= u2)
               t_plus t_minmax.
Proof.
  intros Hpair Hfit Hnew.
  assert (Hfam : same_family (method self) mm
                 /\ str_in (method self)
                      ["jackknife_plus"; "cv_plus"; "jackknife_minmax"; "cv_minmax"]%string = true
                 /\ str_in mm
                      ["jackknife_plus"; "cv_plus"; "jackknife_minmax"; "cv_minmax"]%string = true
                 /\ endswith (method self) "plus" = true
                 /\ endswith mm "plus" = false).
  { destruct Hpair as [[-> ->] | [-> ->]]; repeat split; reflexivity. }
  destruct Hfam as (Hfam & Hens1 & Hens2 & Hend1 & Hend2).
  pose proof (fitted_same_family X y self self' mm u Hfam Hfit) as Hfitted2.
  pose proof (fit_ok X y self self' u Hfit) as Hfitted1.
  destruct (predict_ensemble X y X_new self self' Hfitted1 Hens1 Hnew)
    as (single & P0 & P & residual & lowerMat & upperMat & centers & lows & ups
        & Hsingle & HP0 & HP & Hres & Hlres & Hpos & _ & Hcent & Hlows & Hups & HlP0 & HlP
        & _ & Hne0 & Hplus & _ & Hpredict).
  destruct (predict_ensemble X y X_new (set_method mm self) (set_method mm self')
              Hfitted2 Hens2 Hnew)
    as (single' & P0' & P' & residual' & lowerMat' & upperMat' & centers' & lows' & ups'
        & Hsingle' & HP0' & _ & Hres' & _ & _ & _ & Hcent' & Hlows' & Hups' & _ & _
        & _ & _ & _ & Hminmax & Hpredict').
  cbn [single_estimator_ residuals_ method return_pred alpha set_method] in *.
  change (predict_multi (set_method mm self') X_new) with (predict_multi self' X_new) in HP0'.
  assert (single' = single) by congruence. subst single'.
  assert (P0' = P0) by congruence. subst P0'.
  assert (residual' = residual) by congruence. subst residual'.
  destruct (Hplus Hend1) as (Hwide & -> & ->).
  destruct (Hminmax Hend2) as (-> & mins & maxs & Hmins & Hmaxs & -> & ->).
  assert (centers' = centers).
  { destruct (String.eqb (return_pred self) "median").
    - eapply rmap_functional; eassumption.
    - congruence. }
  subst centers'.
  exists (map (fun i => [default 0 (centers !! i); default 0 (lows !! i);
                         default 0 (ups !! i)]) (seq 0 (length X_new))),
         (map (fun i => [default 0 (centers !! i); default 0 (lows' !! i);
                         default 0 (ups' !! i)]) (seq 0 (length X_new))).
  split; [exact Hpredict|]. split; [exact Hpredict'|].
  apply Forall2_map_same. intros i Hi. apply elem_of_seq in Hi.
  destruct (lookup_lt_is_Some_2 P i ltac:(lia)) as [row Hrow].
  destruct (lookup_lt_is_Some_2 P0 i ltac:(lia)) as [row0 Hrow0].
  pose proof (reindex_elem self' P0 P i row0 row HP Hrow0 Hrow) as Hsub.
  destruct (Forall2_lookup_l _ _ _ _ _ Hmins Hrow0) as (mn & Hmn & Hmin).
  destruct (Forall2_lookup_l _ _ _ _ _ Hmaxs Hrow0) as (mx & Hmx & Hmax).
  apply RuleFacts.min_spec in Hmin as [_ Hmin].
  apply RuleFacts.max_spec in Hmax as [_ Hmax].
  rewrite Forall_forall in Hmin, Hmax.
  assert (Hlrow : Forall2 Qle (map (Qminus mn) residual) (zip_with Qminus row residual)).
  { apply Forall2_same_length_lookup.
    split; [rewrite length_map, length_zip_with;
            rewrite Forall_lookup in Hwide; specialize (Hwide i row Hrow); simpl in Hwide; lia|].
    intros j a b Ha Hb. rewrite list_lookup_fmap in Ha. rewrite lookup_zip_with in Hb.
    destruct (row !! j) as [p|] eqn:Hp; simpl in Hb; [|discriminate].
    destruct (residual !! j) as [r|]; simpl in Ha, Hb; [|discriminate].
    injection Ha as <-. injection Hb as <-.
    pose proof (Hmin p (Hsub p (list_elem_of_lookup_2 _ _ _ Hp))). lra. }
  assert (Hurow : Forall2 Qle (zip_with Qplus row residual) (map (Qplus mx) residual)).
  { apply Forall2_same_length_lookup.
    split; [rewrite length_map, length_zip_with;
            rewrite Forall_lookup in Hwide; specialize (Hwide i row Hrow); simpl in Hwide; lia|].
    intros j a b Ha Hb. rewrite list_lookup_fmap in Hb. rewrite lookup_zip_with in Ha.
    destruct (row !! j) as [p|] eqn:Hp; simpl in Ha; [|discriminate].
    destruct (residual !! j) as [r|]; simpl in Ha, Hb; [|discriminate].
    injection Ha as <-. injection Hb as <-.
    pose proof (Hmax p (Hsub p (list_elem_of_lookup_2 _ _ _ Hp))). lra. }
  assert (Hl1 : map (fun row => zip_with Qminus row residual) P !! i
                = Some (zip_with Qminus row residual))
    by (now rewrite list_lookup_fmap, Hrow).
  assert (Hu1 : map (fun row => zip_with Qplus row residual) P !! i
                = Some (zip_with Qplus row residual))
    by (now rewrite list_lookup_fmap, Hrow).
  assert (Hl2 : map (fun mn => map (Qminus mn) residual) mins !! i
                = Some (map (Qminus mn) residual))
    by (now rewrite list_lookup_fmap, Hmn).
  assert (Hu2 : map (fun mx => map (Qplus mx) residual) maxs !! i
                = Some (map (Qplus mx) residual))
    by (now rewrite list_lookup_fmap, Hmx).
  destruct (Forall2_lookup_l _ _ _ _ _ Hlows Hl1) as (l1 & Hlo1 & Hq1).
  destruct (Forall2_lookup_l _ _ _ _ _ Hups Hu1) as (u1 & Hup1 & Hq2).
  destruct (Forall2_lookup_l _ _ _ _ _ Hlows' Hl2) as (l2 & Hlo2 & Hq3).
  destruct (Forall2_lookup_l _ _ _ _ _ Hups' Hu2) as (u2 & Hup2 & Hq4).
  rewrite Hlo1, Hup1, Hlo2, Hup2. simpl.
  exists (default 0 (centers !! i)), l1, u1, l2, u2.
  split; [reflexivity|]. split; [reflexivity|]. split.
  - eapply OrderFacts.quantile_dominates; [exact Hlrow | exact Hq3 | exact Hq1].
  - eapply OrderFacts.quantile_dominates; [exact Hurow | exact Hq2 | exact Hq4].
Qed.

Lemma minmax_contains_plus_witness :
  ((method Toy.pireg = "jackknife_plus"%string
    /\ "jackknife_minmax"%string = "jackknife_minmax"%string)
   \/ (method Toy.pireg = "cv_plus"%string
       /\ "jackknife_minmax"%string = "cv_minmax"%string))
  /\ toy_fit Toy.X_toy Toy.y_toy Toy.pireg
     = (Ok tt, snd (toy_fit Toy.X_toy Toy.y_toy Toy.pireg))
  /\ Toy.X_five <> []
  /\ exists t_plus t_minmax,
       toy_predict (snd (toy_fit Toy.X_toy Toy.y_toy Toy.pireg)) Toy.X_five = Ok t_plus
       /\ toy_predict (set_method "jackknife_minmax" (snd (toy_fit Toy.X_toy Toy.y_toy Toy.pireg)))
            Toy.X_five = Ok t_minmax
       /\ Forall2 (fun r1 r2 => exists c l1 u1 l2 u2,
                     r1 = [c; l1; u1] /\ r2 = [c; l2; u2] /\ l2 <= l1 /\ u1 <= u2)
                  t_plus t_minmax.
Proof.
  assert (Hpair : (method Toy.pireg = "jackknife_plus"%string
                   /\ "jackknife_minmax"%string = "jackknife_minmax"%string)
                  \/ (method Toy.pireg = "cv_plus"%string
                      /\ "jackknife_minmax"%string = "cv_minmax"%string))
    by (left; split; reflexivity).
  assert (Hfit : toy_fit Toy.X_toy Toy.y_toy Toy.pireg
                 = (Ok tt, snd (toy_fit Toy.X_toy Toy.y_toy Toy.pireg))).
  { vm_compute. reflexivity. }
  assert (Hnew : Toy.X_five <> []) by discriminate.
  split; [exact Hpair|]. split; [exact Hfit|]. split; [exact Hnew|].
  exact (minmax_contains_plus _ _ _ _ _ _ _ Hpair Hfit Hnew).
Defined.

(** ** The models of the jackknife methods *)

Lemma rmap_app {A B : Type} (f : A -> result B) (l1 l2 : list A) (r1 r2 : list B) :
  rmap f l1 = Ok r1 -> rmap f l2 = Ok r2 -> rmap f (l1 ++ l2) = Ok (r1 ++ r2).
Proof.
  revert r1. induction l1 as [|a l1 IH]; intros r1 H1 H2; simpl in *.
  - injection H1 as <-. exact H2.
  - destruct (f a) as [b|]; [|discriminate]. simpl in *.
    destruct (rmap f l1) as [bs|]; [|discriminate]. simpl in *.
    injection H1 as <-. rewrite (IH bs eq_refl H2). reflexivity.
Qed.

Lemma take_idx_seq {A : Type} (a : list A) (len : nat) :
  forall start, (start + len <= length a)%nat ->
  Np.take_idx a (seq start len) = Ok (take len (drop start a)).
Proof.
  unfold Np.take_idx.
  induction len as [|len IH]; intros start Hlen; simpl; [reflexivity|].
  destruct (lookup_lt_is_Some_2 a start ltac:(lia)) as [v Hv].
  rewrite Hv. simpl. rewrite (IH (S start)) by lia. simpl.
  rewrite (drop_S _ _ _ Hv). reflexivity.
Qed.

Lemma filter_all {A : Type} (f : A -> bool) (l : list A) :
  (forall x, x ∈ l -> f x = true) -> List.filter f l = l.
Proof.
  induction l as [|x l IH]; intros H; simpl; [reflexivity|].
  rewrite (H x) by left. rewrite IH; [reflexivity|]. intros z Hz. apply H. now right.
Qed.

Lemma leave_one_out_train (n i : nat) :
  (i < n)%nat ->
  fst (Sk.train_test n [i]) = seq 0 i ++ seq (S i) (n - S i).
Proof.
  intros Hi. simpl.
  replace n with (i + (1 + (n - S i)))%nat at 1 by lia.
  rewrite !seq_app, !List.filter_app. simpl.
  rewrite Nat.eqb_refl. simpl.
  rewrite !filter_all; [now rewrite Nat.add_1_r| |].
  - intros x Hx. apply elem_of_seq in Hx.
    destruct (Nat.eqb_spec x i); [lia | reflexivity].
  - intros x Hx. apply elem_of_seq in Hx.
    destruct (Nat.eqb_spec x i); [lia | reflexivity].
Qed.

Lemma leave_one_out_val (n i : nat) : (i < n)%nat -> snd (Sk.train_test n [i]) = [i].
Proof.
  intros Hi. simpl.
  replace n with (i + (1 + (n - S i)))%nat at 1 by lia.
  rewrite !seq_app, !List.filter_app. simpl.
  rewrite Nat.eqb_refl. simpl.
  assert (Hnone : forall l : list nat, (forall x, x ∈ l -> x <> i) ->
            List.filter (fun j => Sk.mem j [i]) l = []).
  { induction l as [|x l IH]; intros H; simpl; [reflexivity|].
    destruct (Nat.eqb_spec x i) as [->|_]; [exfalso; apply (H i); [left | reflexivity]|].
    simpl. apply IH. intros z Hz. apply H. now right. }
  rewrite !Hnone; [reflexivity | |]; intros x Hx; apply elem_of_seq in Hx; lia.
Qed.

(** Selecting every row but row [i]. *)
Lemma take_idx_leave_one_out {A : Type} (a : list A) (i : nat) :
  (i < length a)%nat ->
  Np.take_idx a (fst (Sk.train_test (length a) [i])) = Ok (delete i a).
Proof.
  intros Hi. rewrite leave_one_out_train, delete_take_drop by assumption.
  pose proof (take_idx_seq a i 0 ltac:(lia)) as H1.
  pose proof (take_idx_seq a (length a - S i) (S i) ltac:(lia)) as H2.
  rewrite take_ge in H2 by (rewrite length_drop; lia).
  exact (rmap_app _ _ _ _ _ H1 H2).
Qed.

(** X6. After a successful [fit] with one of the "jackknife" methods on n
    rows there are n models; model number i is the estimator fitted on
    the data without row i, and row i is assigned fold number i. *)
Theorem jackknife_leaves_one_out {features hyper model : Type}
  `{Reg : Regressor features hyper model} `{RT : Runtime}
  (X : list features) (y : list Q) (self self' : MapieRegressor hyper model) (u : unit) :
  fit X y self = (Ok u, self') ->
  startswith (method self) "jackknife" = true ->
  exists es,
    estimators_ self' = Some es
    /\ length es = length X
    /\ k_ self' = Some (map Z.of_nat (seq 0 (length X)))
    /\ forall i, (i < length X)%nat ->
         exists e, es !! i = Some e
                   /\ est_fit (default LinearRegression (estimator self))
                              (delete i X) (delete i y) = Ok e.
Proof.
  intros Hfit Hjk. apply fit_ok in Hfit.
  destruct Hfit as ((_ & _ & Hvalid & _) & HX & Hlen & h & single & -> & _ & _ & _ & _ & _ & _
                    & _ & _ & Hm).
  assert (Hkind : String.eqb (method self) "naive" = false
                  /\ startswith (method self) "cv" = false).
  { unfold str_in, valid_methods in Hvalid. simpl in Hvalid.
    rewrite !orb_true_iff, !String.eqb_eq in Hvalid.
    destruct Hvalid as [E|[E|[E|[E|[E|[E|[E|E]]]]]]]; try discriminate E;
      rewrite E in Hjk |- *; try discriminate Hjk; split; reflexivity. }
  destruct Hkind as [Hnaive Hcv]. rewrite Hnaive in Hm.
  destruct Hm as (_ & folds & es & ks & y_pred & Hsplit & _ & Hes & Hks & _ & Htrained).
  unfold selected_cv in Hsplit. rewrite Hcv in Hsplit. simpl in Hsplit.
  destruct (length X <=? 1)%nat; [discriminate|]. injection Hsplit as <-.
  destruct Htrained as (Hles & Hlks & _ & Hfolds).
  rewrite length_map, length_seq in Hles.
  assert (Hfold : forall i, (i < length X)%nat ->
            map (fun i => Sk.train_test (length X) [i]) (seq 0 (length X)) !! i
            = Some (Sk.train_test (length X) [i])).
  { intros i Hi. rewrite list_lookup_fmap, lookup_seq_lt by assumption. reflexivity. }
  exists es. split; [exact Hes|]. split; [exact Hles|]. split.
  - rewrite Hks. f_equal. apply list_eq_same_length with (length X).
    + now rewrite length_map, length_seq.
    + lia.
    + intros i a b Hi Ha Hb.
      rewrite list_lookup_fmap, lookup_seq_lt in Hb by assumption.
      injection Hb as <-.
      destruct (Hfolds i _ (Hfold i Hi)) as (e & _ & _ & _ & Hassign).
      rewrite (Hassign i) in Ha; [congruence|].
      rewrite leave_one_out_val by assumption. left.
  - intros i Hi.
    destruct (Hfolds i _ (Hfold i Hi)) as (e & He & (X_train & y_train & HXt & Hyt & Hfit) & _).
    exists e. split; [exact He|].
    rewrite take_idx_leave_one_out in HXt by assumption.
    rewrite Hlen, take_idx_leave_one_out in Hyt by lia.
    congruence.
Qed.

Lemma jackknife_leaves_one_out_witness :
  toy_fit Toy.X_toy Toy.y_toy Toy.pireg
  = (Ok tt, snd (toy_fit Toy.X_toy Toy.y_toy Toy.pireg))
  /\ startswith (method Toy.pireg) "jackknife" = true
  /\ exists es,
       estimators_ (snd (toy_fit Toy.X_toy Toy.y_toy Toy.pireg)) = Some es
       /\ length es = length Toy.X_toy
       /\ k_ (snd (toy_fit Toy.X_toy Toy.y_toy Toy.pireg))
          = Some (map Z.of_nat (seq 0 (length Toy.X_toy)))
       /\ forall i, (i < length Toy.X_toy)%nat ->
            exists e, es !! i = Some e
                      /\ est_fit (Regressor := Toy.regressor)
                           (default (LinearRegression (Regressor := Toy.regressor))
                                    (estimator Toy.pireg))
                           (delete i Toy.X_toy) (delete i Toy.y_toy) = Ok e.
Proof.
  assert (Hfit : toy_fit Toy.X_toy Toy.y_toy Toy.pireg
                 = (Ok tt, snd (toy_fit Toy.X_toy Toy.y_toy Toy.pireg))).
  { vm_compute. reflexivity. }
  assert (Hjk : startswith (method Toy.pireg) "jackknife" = true) by reflexivity.
  split; [exact Hfit|]. split; [exact Hjk|].
  exact (jackknife_leaves_one_out _ _ _ _ _ Hfit Hjk).
Defined.

(** ** The folds of the "cv" methods *)

Lemma chunks_elem (sizes : list nat) :
  forall (l : list nat) (k : nat) (c : list nat) (x : nat),
  Sk.chunks sizes l !! k = Some c -> x ∈ c -> x ∈ l.
Proof.
  induction sizes as [|s sizes IH]; intros l k c x Hk Hx; simpl in Hk; [discriminate|].
  rewrite <- (take_drop s l). apply elem_of_app.
  destruct k as [|k]; simpl in Hk.
  - injection Hk as <-. now left.
  - right. eapply IH; eassumption.
Qed.

(** X7. After a successful [fit] with one of the "cv" methods there are
    n_splits models, every row is assigned a fold number from 0 to
    n_splits - 1, and every fold number is assigned to some row. *)
Theorem cv_fold_numbers {features hyper model : Type}
  `{Reg : Regressor features hyper model} `{RT : Runtime}
  (X : list features) (y : list Q) (self self' : MapieRegressor hyper model) (u : unit) :
  fit X y self = (Ok u, self') ->
  startswith (method self) "cv" = true ->
  exists es ks,
    estimators_ self' = Some es /\ k_ self' = Some ks
    /\ Z.of_nat (length es) = n_splits self
    /\ length ks = length X
    /\ Forall (fun k => (0 <= k < n_splits self)%Z) ks
    /\ forall k, (0 <= k < n_splits self)%Z -> k ∈ ks.
Proof.
  intros Hfit Hcv. apply fit_ok in Hfit.
  destruct Hfit as (_ & HX & Hlen & h & single & _ & _ & _ & _ & _ & _ & _ & _ & _ & Hm).
  assert (Hnaive : String.eqb (method self) "naive" = false).
  { destruct (String.eqb_spec (method self) "naive") as [E|]; [|reflexivity].
    rewrite E in Hcv. discriminate Hcv. }
  rewrite Hnaive in Hm.
  destruct Hm as (_ & folds & es & ks & y_pred & Hsplit & Hpart & Hes & Hks & _ & Htrained).
  pose proof (trained_row _ _ _ _ _ _ _ Hpart Htrained) as Hrow.
  unfold selected_cv in Hsplit. rewrite Hcv in Hsplit. simpl in Hsplit.
  destruct (Z.of_nat (length X) <? n_splits self)%Z eqn:Hns; [discriminate|].
  apply Z.ltb_ge in Hns. injection Hsplit as Hfolds.
  destruct Htrained as (Hles & Hlks & _ & Htrained).
  set (K := Z.to_nat (n_splits self)) in *.
  set (indices := if shuffle self then rng_permutation (random_state self') (length X)
                  else seq 0 (length X)) in *.
  assert (Hperm : Permutation indices (seq 0 (length X))).
  { unfold indices. destruct (shuffle self); [apply rng_permutation_perm | reflexivity]. }
  assert (HlK : length es = K).
  { rewrite Hles, <- Hfolds, length_map, TotalFacts.chunks_length.
    apply TotalFacts.fold_sizes_length. }
  assert (Hn : (0 < length X)%nat) by (destruct X; [congruence | simpl; lia]).
  assert (HK : (0 < K)%nat).
  { destruct (Hrow 0%nat Hn) as (k & fold & e & _ & _ & _ & _ & He & _).
    apply lookup_lt_Some in He. lia. }
  exists es, ks. split; [exact Hes|]. split; [exact Hks|].
  split; [unfold K in *; lia|]. split; [lia|]. split.
  - apply Forall_lookup. intros j kz Hj.
    destruct (Hrow j ltac:(apply lookup_lt_Some in Hj; lia))
      as (k & fold & e & _ & _ & _ & Hk & He & _).
    rewrite Hk in Hj. injection Hj as <-.
    apply lookup_lt_Some in He. unfold K in *. lia.
  - intros k Hk.
    assert (HkK : (Z.to_nat k < length (Sk.chunks (Sk.fold_sizes (length X) K) indices))%nat).
    { rewrite TotalFacts.chunks_length, TotalFacts.fold_sizes_length. unfold K. lia. }
    destruct (lookup_lt_is_Some_2 _ _ HkK) as [c Hc].
    assert (Hsum : (sum_list (Sk.fold_sizes (length X) K) <= length indices)%nat).
    { rewrite SkFacts.fold_sizes_sum by lia.
      rewrite (Permutation_length Hperm), length_seq. lia. }
    destruct (TotalFacts.chunks_lookup_length _ _ _ _ Hsum Hc) as (s & Hs & Hlc).
    apply TotalFacts.fold_sizes_pos in Hs; [|unfold K; lia].
    destruct c as [|x c]; [simpl in Hlc; lia|].
    assert (Hx : (x < length X)%nat).
    { assert (Hin : x ∈ indices) by (eapply chunks_elem; [exact Hc | left]).
      rewrite Hperm in Hin. apply elem_of_seq in Hin. lia. }
    assert (Hfold : folds !! Z.to_nat k = Some (Sk.train_test (length X) (x :: c))).
    { rewrite <- Hfolds, list_lookup_fmap, Hc. reflexivity. }
    destruct (Htrained _ _ Hfold) as (e & _ & _ & _ & Hassign).
    assert (Hval : x ∈ snd (Sk.train_test (length X) (x :: c))).
    { apply SkFacts.train_test_val. split; [exact Hx | left]. }
    apply Hassign in Hval. rewrite Z2Nat.id in Hval by lia.
    clear Hassign. rename Hval into Hassign.
    eapply list_elem_of_lookup_2, Hassign.
Qed.

Lemma cv_fold_numbers_witness :
  toy_fit Toy.X_steps Toy.y_steps Toy.two_folds
  = (Ok tt, snd (toy_fit Toy.X_steps Toy.y_steps Toy.two_folds))
  /\ startswith (method Toy.two_folds) "cv" = true
  /\ exists es ks,
       estimators_ (snd (toy_fit Toy.X_steps Toy.y_steps Toy.two_folds)) = Some es
       /\ k_ (snd (toy_fit Toy.X_steps Toy.y_steps Toy.two_folds)) = Some ks
       /\ Z.of_nat (length es) = n_splits Toy.two_folds
       /\ length ks = length Toy.X_steps
       /\ Forall (fun k => (0 <= k < n_splits Toy.two_folds)%Z) ks
       /\ forall k, (0 <= k < n_splits Toy.two_folds)%Z -> k ∈ ks.
Proof.
  assert (Hfit : toy_fit Toy.X_steps Toy.y_steps Toy.two_folds
                 = (Ok tt, snd (toy_fit Toy.X_steps Toy.y_steps Toy.two_folds))).
  { vm_compute. reflexivity. }
  assert (Hcv : startswith (method Toy.two_folds) "cv" = true) by reflexivity.
  split; [exact Hfit|]. split; [exact Hcv|].
  exact (cv_fold_numbers _ _ _ _ _ Hfit Hcv).
Defined.

(** ** When [fit] fails on the folds *)

Section FitFailure.

Context {features hyper model : Type}.
Context `{Reg : Regressor features hyper model}.
Context `{RT : Runtime}.

Lemma bind_raise_step {A B : Type} (c : @M hyper model A) (k : A -> @M hyper model B)
  (s s1 : MapieRegressor hyper model) (e : exn) :
  c s = (Raise e, s1) -> bind c k s = (Raise e, s1).
Proof. intros H. unfold bind. now rewrite H. Qed.

Lemma splittable_dec (s : MapieRegressor hyper model) (n : nat) :
  splittable s n \/ ~ splittable s n.
Proof.
  unfold splittable.
  destruct (String.eqb_spec (method s) "naive") as [E|E]; [now left; left|].
  destruct (startswith (method s) "cv"), (startswith (method s) "jackknife");
    destruct (Z_le_dec 2 (n_splits s)), (Z_le_dec (n_splits s) (Z.of_nat n)),
             (le_dec 2 n);
    first [ left; right; left; split; [reflexivity | lia]
          | left; right; right; split; [reflexivity|]; split; [reflexivity | lia]
          | right; intros [H | [[H1 H2] | (H1 & H2 & H3)]];
            first [contradiction | discriminate | lia] ].
Qed.

(** What is left to say when the configuration cannot split the rows. *)
Lemma not_splittable_cases (s : MapieRegressor hyper model) (n : nat) :
  str_in (method s) valid_methods = true ->
  ~ splittable s n ->
  String.eqb (method s) "naive" = false
  /\ ((startswith (method s) "cv" = true
       /\ ((n_splits s <= 1)%Z \/ (1 < n_splits s /\ Z.of_nat n < n_splits s)%Z))
      \/ (startswith (method s) "cv" = false /\ startswith (method s) "jackknife" = true
          /\ (n <= 1)%nat)).
Proof.
  intros Hvalid Hns.
  assert (Hnaive : String.eqb (method s) "naive" = false).
  { destruct (String.eqb_spec (method s) "naive") as [E|E]; [|reflexivity].
    exfalso. apply Hns. now left. }
  split; [exact Hnaive|].
  destruct (startswith (method s) "cv") eqn:Hcv.
  - left. split; [reflexivity|].
    destruct (Z_le_dec (n_splits s) 1); [now left|].
    right. split; [lia|].
    destruct (Z_lt_dec (Z.of_nat n) (n_splits s)); [assumption|].
    exfalso. apply Hns. right. left. split; [exact Hcv | lia].
  - right. split; [reflexivity|].
    pose proof (jackknife_family _ Hvalid Hnaive Hcv) as Hjk.
    split; [exact Hjk|].
    destruct (le_dec n 1); [assumption|].
    exfalso. apply Hns. right. right. split; [exact Hcv|]. split; [exact Hjk | lia].
Qed.

(** On a valid configuration that cannot split the rows, [fit] raises
    after it has stored the single model. *)
Lemma fit_not_splittable (X : list features) (y : list Q)
  (self : MapieRegressor hyper model) (single : model) :
  valid_parameters self ->
  X <> [] -> length X = length y ->
  est_fit (default LinearRegression (estimator self)) X y = Ok single ->
  ~ splittable self (length X) ->
  exists msg self',
    fit X y self = (Raise (ValueError msg), self')
    /\ single_estimator_ self' = Some single
    /\ residuals_ self' = residuals_ self.
Proof.
  intros Hvalid HX Hlen Hsingle Hns.
  destruct (not_splittable_cases self (length X) ltac:(now destruct Hvalid as (_ & _ & ? & _)) Hns)
    as [Hnaive Hcases].
  set (h := default LinearRegression (estimator self)) in *.
  pose proof (_check_parameters_valid self Hvalid) as Hcheck.
  remember (match estimator self with
            | None => set_estimator (Some LinearRegression) self
            | Some _ => self
            end) as s0 eqn:Es0.
  assert (Hs0 : estimator s0 = Some h /\ method s0 = method self
                /\ n_splits s0 = n_splits self /\ shuffle s0 = shuffle self
                /\ residuals_ s0 = residuals_ self).
  { subst s0. unfold h. destruct (estimator self) eqn:E; simpl; rewrite ?E; auto. }
  destruct Hs0 as (He0 & Hm0 & Hn0 & Hsh0 & Hr0). clear Es0.
  unfold fit.
  rewrite (bind_step _ _ _ _ _ Hcheck).
  assert (HXy : Sk.check_X_y X y = Ok (X, y)).
  { unfold Sk.check_X_y. apply Nat.eqb_eq in Hlen. rewrite Hlen.
    destruct X; [congruence | reflexivity]. }
  unfold bind at 1, lift at 1. rewrite HXy.
  unfold bind at 1, read at 1. unfold bind at 1, lift at 1. rewrite He0. simpl Sk.clone.
  unfold bind at 1, lift at 1. rewrite Hsingle.
  unfold bind at 1, assign at 1. unfold bind at 1, read at 1.
  cbn [method set_single_estimator_]. rewrite Hm0, Hnaive. cbv iota.
  remember (set_single_estimator_ single s0) as s1 eqn:Es1.
  destruct Hcases as [[Hcv HK] | (Hncv & Hjk & Hn)].
  - remember (if negb (shuffle self) then set_random_state None s1 else s1) as s2 eqn:Es2.
    assert (Hs2 : single_estimator_ s2 = Some single /\ residuals_ s2 = residuals_ self).
    { subst s2 s1. destruct (negb (shuffle self)); simpl; auto. }
    destruct HK as [Hlow | [Hlow Hhigh]].
    + assert (Hselect : _select_cv s1
                = (Raise (ValueError
                            "k-fold cross-validation requires at least one train/test split"),
                   s2)).
      { assert (Hb : (n_splits self <=? 1)%Z = true) by (apply Z.leb_le; lia).
        subst s2 s1. unfold _select_cv, bind, read, lift, assign, ret.
        cbn -[startswith Z.leb]. rewrite Hm0, Hcv.
        change (shuffle (set_single_estimator_ single s0)) with (shuffle s0).
        rewrite Hsh0.
        destruct (shuffle self) eqn:Esh; cbn [negb]; cbv beta iota;
          unfold Sk.make_KFold, set_random_state, set_single_estimator_;
          cbn [n_splits shuffle random_state negb andb]; rewrite Hn0, Hb;
          reflexivity. }
      eexists _, s2. split; [|exact Hs2].
      rewrite bind_assoc. apply bind_raise_step. exact Hselect.
    + assert (Hselect : _select_cv s1
                = (Ok (Sk.KFold (n_splits self) (shuffle self) (random_state s2)), s2)).
      { assert (Hb : (n_splits self <=? 1)%Z = false) by (apply Z.leb_gt; lia).
        subst s2 s1. unfold _select_cv, bind, read, lift, assign, ret.
        cbn -[startswith Z.leb]. rewrite Hm0, Hcv.
        change (shuffle (set_single_estimator_ single s0)) with (shuffle s0).
        rewrite Hsh0.
        destruct (shuffle self) eqn:Esh; cbn [negb]; cbv beta iota;
          unfold Sk.make_KFold, set_random_state, set_single_estimator_;
          cbn [n_splits shuffle random_state negb andb]; rewrite Hn0, Hb, Hsh0;
          cbn [negb andb]; reflexivity. }
      assert (Hsp : Sk.split (Sk.KFold (n_splits self) (shuffle self) (random_state s2))
                      (length X)
                    = Raise (ValueError
                        "Cannot have number of splits greater than the number of samples")).
      { simpl. assert (Hb : (Z.of_nat (length X) <? n_splits self)%Z = true)
          by (apply Z.ltb_lt; lia). now rewrite Hb. }
      eexists _, (set_k_ (empty_like_int y) (set_estimators_ [] s2)).
      split; [|exact Hs2].
      rewrite bind_assoc, (bind_step _ _ _ _ _ Hselect).
      rewrite bind_assoc, assign_step. rewrite bind_assoc, assign_step.
      rewrite bind_assoc, Hsp. reflexivity.
  - assert (Hselect : _select_cv s1 = (Ok Sk.LeaveOneOut, s1)).
    { subst s1. unfold _select_cv, bind, read, lift, assign, ret.
      cbn -[startswith]. rewrite Hm0, Hncv, Hjk. reflexivity. }
    assert (Hsp : Sk.split Sk.LeaveOneOut (length X)
                  = Raise (ValueError "Cannot perform LeaveOneOut with n_samples <= 1")).
    { simpl. assert (Hb : (length X <=? 1)%nat = true) by (apply Nat.leb_le; lia).
      now rewrite Hb. }
    eexists _, (set_k_ (empty_like_int y) (set_estimators_ [] s1)).
    split; [|subst s1; simpl; auto].
    rewrite bind_assoc, (bind_step _ _ _ _ _ Hselect).
    rewrite bind_assoc, assign_step. rewrite bind_assoc, assign_step.
    rewrite bind_assoc, Hsp. reflexivity.
Qed.

End FitFailure.

(** X8. A [fit] that fails on the folds leaves a half-fitted object. On a
    valid configuration and data that pass the checks, with an estimator
    that can be fitted on the data, if the configuration cannot split the
    rows (a "cv" method with n_splits below 2 or above the number of
    rows, a "jackknife" method on a single row) then [fit] raises a
    ValueError after it has stored the single model: [check_is_fitted]
    accepts the object, and the residuals are those from before. *)
Theorem failed_fit_leaves_single_model {features hyper model : Type}
  `{Reg : Regressor features hyper model} `{RT : Runtime}
  (X : list features) (y : list Q) (self : MapieRegressor hyper model) (single : model) :
  valid_parameters self ->
  X <> [] -> length X = length y ->
  est_fit (default LinearRegression (estimator self)) X y = Ok single ->
  ~ splittable self (length X) ->
  exists msg,
    fst (fit X y self) = Raise (ValueError msg)
    /\ single_estimator_ (snd (fit X y self)) = Some single
    /\ check_is_fitted (snd (fit X y self)) = Ok tt
    /\ residuals_ (snd (fit X y self)) = residuals_ self.
Proof.
  intros Hvalid HX Hlen Hsingle Hns.
  destruct (fit_not_splittable X y self single Hvalid HX Hlen Hsingle Hns)
    as (msg & self' & Hfit & Hs & Hr).
  exists msg. rewrite Hfit. simpl.
  split; [reflexivity|]. split; [exact Hs|]. split; [|exact Hr].
  unfold check_is_fitted. now rewrite Hs.
Qed.

Lemma failed_fit_leaves_single_model_witness :
  valid_parameters Toy.by_default
  /\ Toy.X_steps <> []
  /\ length Toy.X_steps = length Toy.y_steps
  /\ Toy.fit_line (default Toy.OLS (estimator Toy.by_default)) Toy.X_steps Toy.y_steps
     = Ok (2 # 5, - (1 # 10))
  /\ ~ splittable Toy.by_default (length Toy.X_steps)
  /\ exists msg,
       fst (toy_fit Toy.X_steps Toy.y_steps Toy.by_default) = Raise (ValueError msg)
       /\ single_estimator_ (snd (toy_fit Toy.X_steps Toy.y_steps Toy.by_default))
          = Some (2 # 5, - (1 # 10))
       /\ check_is_fitted (snd (toy_fit Toy.X_steps Toy.y_steps Toy.by_default)) = Ok tt
       /\ residuals_ (snd (toy_fit Toy.X_steps Toy.y_steps Toy.by_default))
          = residuals_ Toy.by_default.
Proof.
  assert (Hvalid : valid_parameters Toy.by_default).
  { unfold valid_parameters. simpl. repeat split; reflexivity. }
  assert (HX : Toy.X_steps <> []) by discriminate.
  assert (Hlen : length Toy.X_steps = length Toy.y_steps) by reflexivity.
  assert (Hsingle : Toy.fit_line (default Toy.OLS (estimator Toy.by_default))
                      Toy.X_steps Toy.y_steps = Ok (2 # 5, - (1 # 10))).
  { vm_compute. reflexivity. }
  assert (Hns : ~ splittable Toy.by_default (length Toy.X_steps)).
  { unfold splittable. simpl. intros [H | [[_ H] | (H & _)]]; [discriminate | lia | discriminate]. }
  split; [exact Hvalid|]. split; [exact HX|]. split; [exact Hlen|].
  split; [exact Hsingle|]. split; [exact Hns|].
  exact (failed_fit_leaves_single_model (Reg := Toy.regressor) (RT := Toy.in_order)
           Toy.X_steps Toy.y_steps Toy.by_default _ Hvalid HX Hlen Hsingle Hns).
Defined.

(** X9. When [fit] succeeds. On a valid configuration and data that pass
    the checks, with an estimator that can be fitted on the data and on
    every non-empty selection of its rows, [fit] succeeds if and only if
    the configuration can split the rows: the method is "naive", or it is
    a "cv" method with n_splits between 2 and the number of rows, or it is
    a "jackknife" method and there are two rows at least. *)
Theorem fit_succeeds_iff_splittable {features hyper model : Type}
  `{Reg : Regressor features hyper model} `{RT : Runtime}
  (X : list features) (y : list Q) (self : MapieRegressor hyper model) :
  valid_parameters self ->
  X <> [] -> length X = length y ->
  (exists single, est_fit (default LinearRegression (estimator self)) X y = Ok single) ->
  trainable (default LinearRegression (estimator self)) X y ->
  (exists self', fit X y self = (Ok tt, self')) <-> splittable self (length X).
Proof.
  intros Hvalid HX Hlen Hsingle Htrain. split.
  - intros (self' & Hfit).
    destruct (splittable_dec self (length X)) as [Hs | Hns]; [exact Hs|].
    destruct Hsingle as (single & Hsingle).
    destruct (fit_not_splittable X y self single Hvalid HX Hlen Hsingle Hns)
      as (msg & self'' & Hfail & _).
    rewrite Hfit in Hfail. discriminate.
  - intros Hs. now apply fit_total.
Qed.

Lemma fit_succeeds_iff_splittable_witness :
  valid_parameters Toy.two_folds
  /\ Toy.X_steps <> []
  /\ length Toy.X_steps = length Toy.y_steps
  /\ (exists single,
        Toy.fit_line (default Toy.OLS (estimator Toy.two_folds)) Toy.X_steps Toy.y_steps
        = Ok single)
  /\ trainable (Reg := Toy.regressor) (default Toy.OLS (estimator Toy.two_folds))
       Toy.X_steps Toy.y_steps
  /\ ((exists self', toy_fit Toy.X_steps Toy.y_steps Toy.two_folds = (Ok tt, self'))
      <-> splittable Toy.two_folds (length Toy.X_steps)).
Proof.
  assert (Hvalid : valid_parameters Toy.two_folds).
  { unfold valid_parameters. simpl. repeat split; reflexivity. }
  assert (HX : Toy.X_steps <> []) by discriminate.
  assert (Hlen : length Toy.X_steps = length Toy.y_steps) by reflexivity.
  assert (Hsingle : exists single,
            Toy.fit_line (default Toy.OLS (estimator Toy.two_folds)) Toy.X_steps Toy.y_steps
            = Ok single).
  { eexists. vm_compute. reflexivity. }
  pose proof (toy_trainable (default Toy.OLS (estimator Toy.two_folds))
                Toy.X_steps Toy.y_steps) as Htrain.
  split; [exact Hvalid|]. split; [exact HX|]. split; [exact Hlen|].
  split; [exact Hsingle|]. split; [exact Htrain|].
  exact (fit_succeeds_iff_splittable (Reg := Toy.regressor) (RT := Toy.in_order)
           Toy.X_steps Toy.y_steps Toy.two_folds Hvalid HX Hlen Hsingle Htrain).
Defined.

(** ** mapie/utils.py: [check_null_weight] *)

(** The docstring example of [check_null_weight]. *)
Example check_null_weight_example :
  Utils.check_null_weight (Some (Utils.Weights [0; 1; 1; 1; 1; 1]))
    [[0]; [1]; [2]; [3]; [4]; [5]] [5; 7; 9; 11; 13; 15]
  = Ok (Some [1; 1; 1; 1; 1], [[1]; [2]; [3]; [4]; [5]], [7; 9; 11; 13; 15]).
Proof. reflexivity. Qed.

Module WeightFacts.

Lemma take_mask_ok {A : Type} (a a' : list A) (mask : list bool) :
  Utils.take_mask a mask = Ok a' <-> length mask = length a /\ a' = Utils.kept a mask.
Proof.
  unfold Utils.take_mask.
  destruct (Nat.eqb_spec (length mask) (length a)) as [E|E].
  - split; [intros H; injection H as <-; auto | intros [_ ->]; reflexivity].
  - split; [discriminate | intros [? _]; contradiction].
Qed.

Lemma take_mask_raise {A : Type} (a : list A) (mask : list bool) :
  length mask <> length a -> Utils.take_mask a mask = Raise IndexError.
Proof.
  intros H. unfold Utils.take_mask.
  destruct (Nat.eqb_spec (length mask) (length a)); [contradiction | reflexivity].
Qed.

Lemma kept_weights_non_null (w : list Q) :
  Forall (fun v => ~ v == 0) (Utils.kept w (map Utils.non_null w)).
Proof.
  unfold Utils.kept. induction w as [|v w IH]; simpl; [constructor|].
  unfold Utils.non_null at 1. destruct (Qeq_bool v 0) eqn:E; simpl; [exact IH|].
  constructor; [|exact IH]. intros Hv. apply Qeq_bool_iff in Hv. congruence.
Qed.

Lemma kept_zip {A B : Type} (w : list Q) :
  forall (a : list A) (b : list B),
  length a = length w -> length b = length w ->
  zip (Utils.kept w (map Utils.non_null w)) (zip (Utils.kept a (map Utils.non_null w)) (Utils.kept b (map Utils.non_null w)))
  = List.filter (fun t => Utils.non_null (fst t)) (zip w (zip a b)).
Proof.
  unfold Utils.kept. induction w as [|v w IH]; intros [|x a] [|z b] Ha Hb; try discriminate;
    simpl; [reflexivity|].
  injection Ha as Ha. injection Hb as Hb.
  destruct (Utils.non_null v); simpl; rewrite IH by assumption; reflexivity.
Qed.

Lemma kept_length {A : Type} (w : list Q) :
  forall (a : list A), length a = length w ->
  length (Utils.kept a (map Utils.non_null w)) = length (Utils.kept w (map Utils.non_null w)).
Proof.
  unfold Utils.kept. induction w as [|v w IH]; intros [|x a] Ha; try discriminate;
    simpl; [reflexivity|].
  injection Ha as Ha. destruct (Utils.non_null v); simpl; rewrite (IH a Ha); reflexivity.
Qed.

Lemma kept_all {A : Type} (w : list Q) :
  Forall (fun v => ~ v == 0) w ->
  forall (a : list A), length a = length w -> Utils.kept a (map Utils.non_null w) = a.
Proof.
  unfold Utils.kept. induction 1 as [|v w Hv _ IH]; intros [|x a] Ha; try discriminate;
    simpl; [reflexivity|].
  injection Ha as Ha. unfold Utils.non_null at 1.
  destruct (Qeq_bool v 0) eqn:E; [apply Qeq_bool_iff in E; contradiction|].
  simpl. now rewrite IH.
Qed.

Lemma _check_sample_weight_length {features : Type} (sw : Utils.weights)
  (X : list features) (w : list Q) :
  Utils._check_sample_weight sw X = Ok w -> length w = length X.
Proof.
  destruct sw as [c|ws]; simpl.
  - intros H. injection H as <-. apply repeat_length.
  - destruct (length ws =? 0)%nat; [discriminate|].
    destruct (Nat.eqb_spec (length ws) (length X)); [|discriminate].
    intros H. now injection H as <-.
Qed.

(** What a successful [check_null_weight] has done. *)
Lemma check_null_weight_ok {features : Type} (sw : Utils.weights)
  (X X' : list features) (y y' : list Q) (ow : option (list Q)) :
  Utils.check_null_weight (Some sw) X y = Ok (ow, X', y') ->
  exists w,
    Utils._check_sample_weight sw X = Ok w
    /\ length w = length X /\ length y = length X
    /\ ow = Some (Utils.kept w (map Utils.non_null w))
    /\ X' = Utils.kept X (map Utils.non_null w)
    /\ y' = Utils.kept y (map Utils.non_null w).
Proof.
  unfold Utils.check_null_weight. intros H.
  apply rbind_ok in H as (w & Hw & H).
  apply rbind_ok in H as (X1 & HX & H).
  apply rbind_ok in H as (y1 & Hy & H).
  apply rbind_ok in H as (w1 & Hw1 & H).
  injection H as <- <- <-.
  apply take_mask_ok in HX as [HlX ->], Hy as [Hly ->], Hw1 as [_ ->].
  rewrite length_map in HlX, Hly.
  exists w. split; [exact Hw|]. split; [congruence|]. split; [congruence|].
  repeat split.
Qed.

End WeightFacts.

(** X10. What [check_null_weight] keeps. When it is given weights and
    returns, the three arrays it returns have one common length, none of
    the weights it returns is null, and the (weight, row, label) triples
    it returns are the triples of the input whose weight is not null, in
    the order of the input. *)
Theorem check_null_weight_keeps_non_null {features : Type} (sw : Utils.weights)
  (X X' : list features) (y y' : list Q) (ow : option (list Q)) :
  Utils.check_null_weight (Some sw) X y = Ok (ow, X', y') ->
  exists w w',
    Utils._check_sample_weight sw X = Ok w /\ ow = Some w'
    /\ length X' = length w' /\ length y' = length w'
    /\ Forall (fun v => ~ v == 0) w'
    /\ zip w' (zip X' y')
       = List.filter (fun t => negb (Qeq_bool (fst t) 0)) (zip w (zip X y)).
Proof.
  intros H.
  destruct (WeightFacts.check_null_weight_ok _ _ _ _ _ _ H)
    as (w & Hw & HlX & Hly & -> & -> & ->).
  exists w, (Utils.kept w (map Utils.non_null w)).
  split; [exact Hw|]. split; [reflexivity|].
  split; [apply WeightFacts.kept_length; congruence|].
  split; [apply WeightFacts.kept_length; congruence|].
  split; [apply WeightFacts.kept_weights_non_null|].
  apply WeightFacts.kept_zip; congruence.
Qed.

Lemma check_null_weight_keeps_non_null_witness :
  Utils.check_null_weight (Some (Utils.Weights [0; 1; 0; 2])) [10; 11; 12; 13] [5; 7; 9; 11]
  = Ok (Some [1; 2], [11; 13], [7; 11])
  /\ exists w w',
       Utils._check_sample_weight (Utils.Weights [0; 1; 0; 2]) [10; 11; 12; 13] = Ok w
       /\ Some [1; 2] = Some w'
       /\ length [11; 13] = length w' /\ length [7; 11] = length w'
       /\ Forall (fun v => ~ v == 0) w'
       /\ zip w' (zip [11; 13] [7; 11])
          = List.filter (fun t => negb (Qeq_bool (fst t) 0))
              (zip w (zip [10; 11; 12; 13] [5; 7; 9; 11])).
Proof.
  assert (H : Utils.check_null_weight (Some (Utils.Weights [0; 1; 0; 2]))
                [10; 11; 12; 13] [5; 7; 9; 11]
              = Ok (Some [1; 2], [11; 13], [7; 11])) by reflexivity.
  split; [exact H|].
  exact (check_null_weight_keeps_non_null _ _ _ _ _ _ H).
Defined.

(** X11. [check_null_weight] on its own result. When it is given weights
    and returns, a second call on the three arrays it has returned
    returns them unchanged, unless every weight was null: then nothing
    is left and the second call raises the ValueError of the empty
    array. *)
Theorem check_null_weight_twice {features : Type} (sw : Utils.weights)
  (X X' : list features) (y y' : list Q) (w' : list Q) :
  Utils.check_null_weight (Some sw) X y = Ok (Some w', X', y') ->
  Utils.check_null_weight (Some (Utils.Weights w')) X' y'
  = match w' with
    | [] => Raise (ValueError "Found array with 0 sample(s) (shape=(0,)) while a minimum of 1 is required.")
    | _ => Ok (Some w', X', y')
    end.
Proof.
  intros H.
  destruct (WeightFacts.check_null_weight_ok _ _ _ _ _ _ H)
    as (w & Hw & HlX & Hly & Hw' & -> & ->).
  injection Hw' as ->.
  pose proof (WeightFacts.kept_weights_non_null w) as Hnn.
  pose proof (WeightFacts.kept_length w X ltac:(congruence)) as HkX.
  pose proof (WeightFacts.kept_length w y ltac:(congruence)) as Hky.
  remember (Utils.kept w (map Utils.non_null w)) as w1 eqn:E1.
  remember (Utils.kept X (map Utils.non_null w)) as X1 eqn:E2.
  remember (Utils.kept y (map Utils.non_null w)) as y1 eqn:E3.
  clear E1 E2 E3 H Hw.
  destruct w1 as [|v w1]; [reflexivity|].
  unfold Utils.check_null_weight, Utils._check_sample_weight.
  change (length (v :: w1) =? 0)%nat with false. cbv iota.
  rewrite <- HkX, Nat.eqb_refl. cbn [rbind].
  assert (HX : Utils.take_mask X1 (map Utils.non_null (v :: w1)) = Ok X1).
  { apply WeightFacts.take_mask_ok. rewrite length_map. split; [congruence|].
    symmetry. now apply (WeightFacts.kept_all (v :: w1)). }
  assert (Hy : Utils.take_mask y1 (map Utils.non_null (v :: w1)) = Ok y1).
  { apply WeightFacts.take_mask_ok. rewrite length_map. split; [congruence|].
    symmetry. now apply (WeightFacts.kept_all (v :: w1)). }
  assert (Hw : Utils.take_mask (v :: w1) (map Utils.non_null (v :: w1))
               = Ok (v :: w1)).
  { apply WeightFacts.take_mask_ok. rewrite length_map. split; [reflexivity|].
    symmetry. now apply (WeightFacts.kept_all (v :: w1)). }
  rewrite HX. cbn [rbind]. rewrite Hy. cbn [rbind]. rewrite Hw. reflexivity.
Qed.

Lemma check_null_weight_twice_witness :
  Utils.check_null_weight (Some (Utils.Number 0)) [10; 11] [5; 7] = Ok (Some [], [], [])
  /\ Utils.check_null_weight (Some (Utils.Weights [])) ([] : list Q) []
     = Raise (ValueError "Found array with 0 sample(s) (shape=(0,)) while a minimum of 1 is required.").
Proof.
  assert (H : Utils.check_null_weight (Some (Utils.Number 0)) [10; 11] [5; 7]
              = Ok (Some [], [], [])) by reflexivity.
  split; [exact H|].
  exact (check_null_weight_twice _ _ _ _ _ _ H).
Defined.

(** X12. The errors of [check_null_weight]. An array of weights whose
    length is not the number of rows raises a ValueError, whatever the
    labels. Once the weights have passed, labels whose number is not the
    number of rows raise an IndexError, and labels in the right number
    make the call return. *)
Theorem check_null_weight_errors {features : Type} (sw : Utils.weights)
  (X : list features) (y : list Q) :
  (forall ws, sw = Utils.Weights ws -> length ws <> length X ->
     exists msg, Utils.check_null_weight (Some sw) X y = Raise (ValueError msg))
  /\ (forall w, Utils._check_sample_weight sw X = Ok w -> length y <> length X ->
        Utils.check_null_weight (Some sw) X y = Raise IndexError)
  /\ (forall w, Utils._check_sample_weight sw X = Ok w -> length y = length X ->
        exists w' X' y', Utils.check_null_weight (Some sw) X y = Ok (Some w', X', y')).
Proof.
  assert (HX : forall w, Utils._check_sample_weight sw X = Ok w ->
            Utils.take_mask X (map Utils.non_null w)
            = Ok (Utils.kept X (map Utils.non_null w))).
  { intros w Hw. apply WeightFacts.take_mask_ok. rewrite length_map.
    split; [|reflexivity]. eapply WeightFacts._check_sample_weight_length, Hw. }
  split; [|split].
  - intros ws -> Hl.
    unfold Utils.check_null_weight, Utils._check_sample_weight.
    destruct (length ws =? 0)%nat; [eexists; reflexivity|].
    destruct (Nat.eqb_spec (length ws) (length X)); [contradiction|].
    eexists; reflexivity.
  - intros w Hw Hl.
    pose proof (WeightFacts._check_sample_weight_length _ _ _ Hw) as Hlw.
    unfold Utils.check_null_weight. rewrite Hw. cbn [rbind].
    rewrite (HX w Hw). cbn [rbind].
    rewrite WeightFacts.take_mask_raise; [reflexivity|].
    rewrite length_map. congruence.
  - intros w Hw Hl.
    pose proof (WeightFacts._check_sample_weight_length _ _ _ Hw) as Hlw.
    unfold Utils.check_null_weight. rewrite Hw. cbn [rbind].
    rewrite (HX w Hw). cbn [rbind].
    assert (Hy : Utils.take_mask y (map Utils.non_null w)
                 = Ok (Utils.kept y (map Utils.non_null w))).
    { apply WeightFacts.take_mask_ok. rewrite length_map. split; [congruence | reflexivity]. }
    assert (Hww : Utils.take_mask w (map Utils.non_null w)
                  = Ok (Utils.kept w (map Utils.non_null w))).
    { apply WeightFacts.take_mask_ok. rewrite length_map. split; reflexivity. }
    rewrite Hy. cbn [rbind]. rewrite Hww. cbn [rbind]. eauto.
Qed.

Lemma check_null_weight_errors_witness :
  Utils.check_null_weight (Some (Utils.Weights [1; 0])) [10; 11; 12] [5; 7; 9]
  = Raise (ValueError "sample_weight.shape == (2,), expected (3,)!")
  /\ Utils.check_null_weight (Some (Utils.Weights [1; 0; 2])) [10; 11; 12] [5; 7]
     = Raise IndexError
  /\ exists w' X' y',
       Utils.check_null_weight (Some (Utils.Weights [1; 0; 2])) [10; 11; 12] [5; 7; 9]
       = Ok (Some w', X', y').
Proof.
  split; [reflexivity|]. split.
  - refine (proj1 (proj2 (check_null_weight_errors (Utils.Weights [1; 0; 2])
                            [10; 11; 12] [5; 7])) [1; 0; 2] _ _);
      [reflexivity | simpl; lia].
  - refine (proj2 (proj2 (check_null_weight_errors (Utils.Weights [1; 0; 2])
                            [10; 11; 12] [5; 7; 9])) [1; 0; 2] _ _);
      reflexivity.
Defined.

(** ** mapie/utils.py: [check_alpha] and [check_alpha_and_n_samples] *)

Module AlphaFacts.

(** A float that [check_alpha] lets through: nan, or strictly between 0
    and 1. *)
Lemma in_range_iff (x : option Q) :
  Utils.le_zero x || Utils.ge_one x = false
  <-> match x with Some q => 0 < q /\ q < 1 | None => True end.
Proof.
  destruct x as [q|]; simpl; [|tauto].
  rewrite orb_false_iff, <- !not_true_iff_false, !Qle_bool_iff.
  split.
  - intros [H0 H1]. split; now apply Qnot_le_lt.
  - intros [H0 H1]. split; now apply Qlt_not_le.
Qed.

Lemma all_in_range_iff (l : list (option Q)) :
  existsb (fun x => Utils.le_zero x || Utils.ge_one x) l = false
  <-> Forall (fun x => match x with Some q => 0 < q /\ q < 1 | None => True end) l.
Proof.
  induction l as [|x l IH]; simpl.
  - split; [constructor | reflexivity].
  - rewrite orb_false_iff, IH, in_range_iff, Forall_cons. reflexivity.
Qed.

(** [check_alpha] on an array. *)
Lemma check_alpha_array (a : Utils.ndarray) (r : option Utils.ndarray) :
  Utils.check_alpha (Utils.AIterable a) = Ok r
  <-> r = Some a /\ Utils.ndim a = 1%nat /\ Utils.is_float (Utils.dtype_of a) = true
      /\ Forall (fun x => match x with Some q => 0 < q /\ q < 1 | None => True end)
                (Utils.values a).
Proof.
  unfold Utils.check_alpha. cbn [rbind].
  rewrite <- all_in_range_iff.
  destruct (Nat.eqb_spec (Utils.ndim a) 1) as [E|E]; cbn [negb].
  - destruct (Utils.is_float (Utils.dtype_of a)); cbn [negb].
    + destruct (existsb _ (Utils.values a)).
      * split; [discriminate | intros (_ & _ & _ & ?); discriminate].
      * split; [intros H; injection H as <-; auto | intros (-> & _); reflexivity].
    + split; [discriminate | intros (_ & _ & ? & _); discriminate].
  - split; [discriminate | intros (_ & ? & _); contradiction].
Qed.

(** A float goes the way of the array that holds it alone, so that what
    [check_alpha] returns is accepted as an array. *)
Lemma check_alpha_on_result (alpha : Utils.alpha_arg) (a : Utils.ndarray) :
  Utils.check_alpha alpha = Ok (Some a) ->
  Utils.check_alpha (Utils.AIterable a) = Ok (Some a).
Proof.
  intros H. destruct alpha as [|x|b|]; try discriminate H.
  - change (Utils.check_alpha
              (Utils.AIterable {| Utils.ndim := 1; Utils.dtype_of := Utils.float64;
                                  Utils.values := [x] |}) = Ok (Some a)) in H.
    pose proof H as H'. apply check_alpha_array in H' as (E & _).
    injection E as ->. exact H.
  - pose proof H as H'. apply check_alpha_array in H' as (E & _).
    injection E as ->. exact H.
Qed.

(** On doubles strictly between 0 and 1, [check_alpha_and_n_samples]
    does not divide by zero. *)
Lemma no_division_error (alphas : list Q) (n : Z) :
  Forall (fun a => Binary64.fl a == a /\ 0 < a /\ a < 1) alphas ->
  Utils.check_alpha_and_n_samples alphas n = Ok tt
  \/ Utils.check_alpha_and_n_samples alphas n = Raise (ValueError Utils.too_low).
Proof.
  induction 1 as [|a alphas (Hd & H0 & H1) _ IH].
  - now left.
  - rewrite check_step by assumption.
    destruct (_ || _); [now right | exact IH].
Qed.

End AlphaFacts.

(** X13. What [check_alpha] returns. An array that [check_alpha] returns,
    for a float or for an Iterable, has one dimension and elements of a
    float type, each of them nan or strictly between 0 and 1; and
    [check_alpha] called on this array returns it again. *)
Theorem check_alpha_returns_valid (alpha : Utils.alpha_arg) (a : Utils.ndarray) :
  Utils.check_alpha alpha = Ok (Some a) ->
  Utils.ndim a = 1%nat
  /\ Utils.is_float (Utils.dtype_of a) = true
  /\ Forall (fun x => match x with Some q => 0 < q /\ q < 1 | None => True end)
            (Utils.values a)
  /\ Utils.check_alpha (Utils.AIterable a) = Ok (Some a).
Proof.
  intros H.
  pose proof (AlphaFacts.check_alpha_on_result alpha a H) as Ha.
  pose proof Ha as Hb. apply AlphaFacts.check_alpha_array in Hb as (_ & H1 & H2 & H3).
  auto.
Qed.

Lemma check_alpha_returns_valid_witness :
  Utils.check_alpha (Utils.AFloat None)
  = Ok (Some {| Utils.ndim := 1; Utils.dtype_of := Utils.float64; Utils.values := [None] |})
  /\ Utils.check_alpha
       (Utils.AIterable
          {| Utils.ndim := 1; Utils.dtype_of := Utils.float64; Utils.values := [None] |})
     = Ok (Some {| Utils.ndim := 1; Utils.dtype_of := Utils.float64;
                   Utils.values := [None] |}).
Proof.
  assert (H : Utils.check_alpha (Utils.AFloat None)
              = Ok (Some {| Utils.ndim := 1; Utils.dtype_of := Utils.float64;
                            Utils.values := [None] |})) by reflexivity.
  split; [exact H|].
  exact (proj2 (proj2 (proj2 (check_alpha_returns_valid _ _ H)))).
Defined.

(** X14. [check_alpha] before [check_alpha_and_n_samples]. On the values
    of an array that [check_alpha] has returned, doubles and none of them
    nan, [check_alpha_and_n_samples] never divides by zero: for every
    number of samples it returns or raises its own ValueError. *)
Theorem check_alpha_then_n_samples (alpha : Utils.alpha_arg) (a : Utils.ndarray)
  (alphas : list Q) (n : Z) :
  Utils.check_alpha alpha = Ok (Some a) ->
  Utils.values a = map Some alphas ->
  Forall (fun q => Binary64.fl q == q) alphas ->
  Utils.check_alpha_and_n_samples alphas n = Ok tt
  \/ Utils.check_alpha_and_n_samples alphas n = Raise (ValueError Utils.too_low).
Proof.
  intros H Hv Hd.
  apply AlphaFacts.no_division_error.
  pose proof (AlphaFacts.check_alpha_on_result alpha a H) as Ha.
  apply AlphaFacts.check_alpha_array in Ha as (_ & _ & _ & Hall).
  rewrite Hv in Hall. apply Forall_fmap in Hall.
  rewrite Forall_forall in Hall, Hd. apply Forall_forall. intros q Hq.
  split; [now apply Hd | exact (Hall q Hq)].
Qed.

Lemma check_alpha_then_n_samples_witness :
  Utils.check_alpha (Utils.AFloat (Some (Binary64.fl (1 # 10 ^ 310))))
  = Ok (Some {| Utils.ndim := 1; Utils.dtype_of := Utils.float64;
                Utils.values := [Some (Binary64.fl (1 # 10 ^ 310))] |})
  /\ [Some (Binary64.fl (1 # 10 ^ 310))] = map Some [Binary64.fl (1 # 10 ^ 310)]
  /\ Forall (fun q => Binary64.fl q == q) [Binary64.fl (1 # 10 ^ 310)]
  /\ (Utils.check_alpha_and_n_samples [Binary64.fl (1 # 10 ^ 310)] 1000 = Ok tt
      \/ Utils.check_alpha_and_n_samples [Binary64.fl (1 # 10 ^ 310)] 1000
         = Raise (ValueError Utils.too_low)).
Proof.
  assert (H : Utils.check_alpha (Utils.AFloat (Some (Binary64.fl (1 # 10 ^ 310))))
              = Ok (Some {| Utils.ndim := 1; Utils.dtype_of := Utils.float64;
                            Utils.values := [Some (Binary64.fl (1 # 10 ^ 310))] |})).
  { vm_compute. reflexivity. }
  assert (Hv : [Some (Binary64.fl (1 # 10 ^ 310))] = map Some [Binary64.fl (1 # 10 ^ 310)])
    by reflexivity.
  assert (Hd : Forall (fun q => Binary64.fl q == q) [Binary64.fl (1 # 10 ^ 310)]).
  { constructor; [vm_compute; reflexivity | constructor]. }
  split; [exact H|]. split; [exact Hv|]. split; [exact Hd|].
  exact (check_alpha_then_n_samples _ _ _ 1000 H Hv Hd).
Defined.

(** X15. More samples never hurt: when [check_alpha_and_n_samples]
    returns for a number of samples, it returns for every larger number,
    whatever the alphas. *)
Theorem check_alpha_and_n_samples_monotone (alphas : list Q) (n n' : Z) :
  Utils.check_alpha_and_n_samples alphas n = Ok tt ->
  (n <= n')%Z ->
  Utils.check_alpha_and_n_samples alphas n' = Ok tt.
Proof.
  intros H Hn. induction alphas as [|a alphas IH]; [reflexivity|].
  cbn [Utils.check_alpha_and_n_samples] in *.
  destruct (Utils.truediv 1 a) as [x|e]; [|discriminate]. cbn [rbind] in *.
  destruct (Binary64.int_lt n x) eqn:Hx; [discriminate|].
  destruct (Utils.truediv 1 (Binary64.sub 1 a)) as [z|e]; [|discriminate].
  cbn [rbind] in *.
  destruct (Binary64.int_lt n z) eqn:Hz; [discriminate|].
  rewrite (int_lt_monotone n n' x Hn Hx), (int_lt_monotone n n' z Hn Hz).
  now apply IH.
Qed.

Lemma check_alpha_and_n_samples_monotone_witness :
  Utils.check_alpha_and_n_samples [Binary64.fl (1 # 10); 1 # 2] 10 = Ok tt
  /\ (10 <= 25)%Z
  /\ Utils.check_alpha_and_n_samples [Binary64.fl (1 # 10); 1 # 2] 25 = Ok tt.
Proof.
  assert (H : Utils.check_alpha_and_n_samples [Binary64.fl (1 # 10); 1 # 2] 10 = Ok tt)
    by (vm_compute; reflexivity).
  assert (Hn : (10 <= 25)%Z) by lia.
  split; [exact H|]. split; [exact Hn|].
  exact (check_alpha_and_n_samples_monotone _ _ _ H Hn).
Defined.

(** ** mapie/utils.py: [phi1D] and [phi2D] *)

(** The docstring examples of [phi1D] and [phi2D]. *)
Example phi1D_example :
  Utils.phi1D [Some 1; Some 2; Some 3; Some 4; Some 5]
    [[Some 1; Some 1; Some 1; None; None]; [None; None; Some 1; Some 1; Some 1]]
    Utils.nanmean_axis1
  = Ok [Some 2; Some 4].
Proof. reflexivity. Qed.

Example phi2D_example :
  Utils.phi2D
    [[Some 1; Some 2; Some 3; Some 4; Some 5];
     [Some 6; Some 7; Some 8; Some 9; Some 10];
     [Some 11; Some 12; Some 13; Some 14; Some 15]]
    [[Some 1; Some 1; Some 1; None; None]; [None; None; Some 1; Some 1; Some 1]]
    Utils.nanmean_axis1
  = Ok [[Some 2; Some 4]; [Some 7; Some 9]; [Some 12; Some 14]].
Proof. reflexivity. Qed.

Module PhiFacts.

Lemma broadcast_same {A : Type} (f : A -> A -> A) (u v : list A) :
  length u = length v -> Utils.broadcast f u v = Ok (zip_with f u v).
Proof. intros H. unfold Utils.broadcast. apply Nat.eqb_eq in H. now rewrite H. Qed.

(** The product with a row does not see the entries that face a nan. *)
Lemma mul_row_masked (row : list (option Q)) :
  forall x x' : list (option Q),
  length x = length row -> length x' = length row ->
  (forall j, x !! j = x' !! j \/ row !! j = Some None) ->
  zip_with Utils.fmul x row = zip_with Utils.fmul x' row.
Proof.
  induction row as [|b row IH]; intros [|a x] [|a' x'] Hx Hx' H; try discriminate;
    [reflexivity|].
  simpl. f_equal.
  - destruct (H 0%nat) as [E|E]; simpl in E.
    + now injection E as ->.
    + injection E as ->. now destruct a, a'.
  - apply IH; [now injection Hx | now injection Hx'|].
    intros j. exact (H (S j)).
Qed.

Lemma mul_vector_matrix_masked (x x' : list (option Q)) (B : list (list (option Q))) :
  length x' = length x ->
  Forall (fun row => length row = length x) B ->
  (forall j, x !! j = x' !! j \/ forall row, row ∈ B -> row !! j = Some None) ->
  Utils.mul_vector_matrix x B = Utils.mul_vector_matrix x' B.
Proof.
  intros Hl HB H. unfold Utils.mul_vector_matrix.
  apply rmap_ext, Forall_forall. intros row Hrow.
  rewrite Forall_forall in HB. pose proof (HB row Hrow) as Hlr.
  rewrite !broadcast_same by congruence. f_equal.
  apply mul_row_masked; [congruence | congruence|].
  intros j. destruct (H j) as [E|E]; [now left | right; now apply E].
Qed.

Lemma apply_along_axis1_ext {A B : Type} (f g : list A -> result (list B))
  (arr arr' : list (list A)) :
  Forall2 (fun x x' => f x = g x') arr arr' ->
  Utils.apply_along_axis1 f arr = Utils.apply_along_axis1 g arr'.
Proof.
  intros H. destruct H as [|x x' arr arr' Hx H]; [reflexivity|].
  simpl. rewrite Hx. destruct (g x') as [res|e]; [|reflexivity]. simpl.
  assert (E : rmap (fun x => let* r := f x in Utils.store_row (length res) r) arr
              = rmap (fun x => let* r := g x in Utils.store_row (length res) r) arr').
  { induction H as [|z z' arr arr' Hz _ IH]; [reflexivity|]. simpl. now rewrite Hz, IH. }
  now rewrite E.
Qed.

Lemma store_row_length {A : Type} (n : nat) (res r : list A) :
  Utils.store_row n res = Ok r -> length r = n.
Proof.
  unfold Utils.store_row. destruct (Nat.eqb_spec (length res) n) as [E|E].
  - intros H. now injection H as <-.
  - destruct res as [|v [|? ?]]; try discriminate.
    intros H. injection H as <-. apply repeat_length.
Qed.

End PhiFacts.

(** X16. [phi2D] never looks at a prediction that every row of [B] masks.
    For a matrix [B] with rows of length c, two matrices [A] and [A'] with
    rows of length c that differ only in columns where [B] holds nan in
    every row give the same result, or the same exception, whatever the
    aggregation function. *)
Theorem phi2D_ignores_masked (A A' B : list (list (option Q)))
  (fun_ : list (list (option Q)) -> result (list (option Q))) (c : nat) :
  Forall (fun row => length row = c) B ->
  Forall2 (fun x x' =>
             length x = c /\ length x' = c
             /\ forall j, x !! j = x' !! j \/ forall row, row ∈ B -> row !! j = Some None)
          A A' ->
  Utils.phi2D A B fun_ = Utils.phi2D A' B fun_.
Proof.
  intros HB HA. unfold Utils.phi2D.
  apply PhiFacts.apply_along_axis1_ext.
  eapply Forall2_impl; [exact HA|]. simpl. intros x x' (Hx & Hx' & H).
  unfold Utils.phi1D.
  rewrite (PhiFacts.mul_vector_matrix_masked x x' B); [reflexivity | congruence | | exact H].
  eapply Forall_impl; [exact HB|]. simpl. intros row Hrow. congruence.
Qed.

Lemma phi2D_ignores_masked_witness :
  Forall (fun row : list (option Q) => length row = 3%nat)
         [[Some 1; None; Some 1]; [Some 1; None; None]]
  /\ Utils.phi2D [[Some 1; Some 2; Some 3]; [Some 4; Some 5; Some 6]]
       [[Some 1; None; Some 1]; [Some 1; None; None]] Utils.nanmean_axis1
     = Utils.phi2D [[Some 1; Some 99; Some 3]; [Some 4; None; Some 6]]
         [[Some 1; None; Some 1]; [Some 1; None; None]] Utils.nanmean_axis1.
Proof.
  assert (HB : Forall (fun row : list (option Q) => length row = 3%nat)
                      [[Some 1; None; Some 1]; [Some 1; None; None]]).
  { repeat constructor. }
  split; [exact HB|].
  apply (phi2D_ignores_masked _ _ _ _ 3 HB).
  assert (Hmask : forall row : list (option Q),
            row ∈ [[Some 1; None; Some 1]; [Some 1; None; None]] -> row !! 1%nat = Some None).
  { intros row Hrow. apply elem_of_cons in Hrow as [->|Hrow]; [reflexivity|].
    apply elem_of_cons in Hrow as [->|Hrow]; [reflexivity|]. inversion Hrow. }
  constructor; [|constructor; [|constructor]].
  - split; [reflexivity|]. split; [reflexivity|].
    intros [|[|j]]; [now left | right; exact Hmask | now left].
  - split; [reflexivity|]. split; [reflexivity|].
    intros [|[|j]]; [now left | right; exact Hmask | now left].
Defined.

(** X17. The shape of what [phi2D] returns: a matrix without rows is
    refused with a ValueError; a result has one row per row of [A], and
    all its rows have the length of what the aggregation function gave
    for the first row of [A]. *)
Theorem phi2D_shape (A B : list (list (option Q)))
  (fun_ : list (list (option Q)) -> result (list (option Q))) :
  (A = [] -> exists msg, Utils.phi2D A B fun_ = Raise (ValueError msg))
  /\ forall R, Utils.phi2D A B fun_ = Ok R ->
       length R = length A
       /\ exists x0 r0, A !! 0%nat = Some x0 /\ Utils.phi1D x0 B fun_ = Ok r0
                        /\ R !! 0%nat = Some r0
                        /\ Forall (fun r => length r = length r0) R.
Proof.
  split.
  - intros ->. eexists. reflexivity.
  - intros R H. unfold Utils.phi2D, Utils.apply_along_axis1 in H.
    destruct A as [|x0 rest]; [discriminate|].
    apply rbind_ok in H as (r0 & H0 & H).
    apply rbind_ok in H as (buff & Hbuff & H). injection H as <-.
    split; [simpl; f_equal; eapply rmap_length, Hbuff|].
    exists x0, r0. split; [reflexivity|]. split; [exact H0|]. split; [reflexivity|].
    constructor; [reflexivity|].
    apply Forall_lookup. intros i r Hr.
    destruct (rmap_lookup_r _ _ _ _ _ Hbuff Hr) as (x & _ & Hx).
    apply rbind_ok in Hx as (r1 & _ & Hstore).
    eapply PhiFacts.store_row_length, Hstore.
Qed.

Lemma phi2D_shape_witness :
  exists R,
    Utils.phi2D [[Some 1; Some 2; Some 3]; [Some 4; Some 5; Some 6]]
      [[Some 1; None; Some 1]; [Some 1; None; None]] Utils.nanmean_axis1 = Ok R
    /\ length R = 2%nat
    /\ exists x0 r0,
         [[Some 1; Some 2; Some 3]; [Some 4; Some 5; Some 6]] !! 0%nat = Some x0
         /\ Utils.phi1D x0 [[Some 1; None; Some 1]; [Some 1; None; None]] Utils.nanmean_axis1
            = Ok r0
         /\ R !! 0%nat = Some r0
         /\ Forall (fun r => length r = length r0) R.
Proof.
  eexists. split; [reflexivity|].
  refine (proj2 (phi2D_shape [[Some 1; Some 2; Some 3]; [Some 4; Some 5; Some 6]]
                   [[Some 1; None; Some 1]; [Some 1; None; None]] Utils.nanmean_axis1) _ _).
  reflexivity.
Defined.

(** ** Alpha is only used at prediction time *)

Section AlphaBlind.

Context {features hyper model : Type}.
Context `{Reg : Regressor features hyper model}.
Context `{RT : Runtime}.

Variables a1 a2 : Q.
Hypothesis valid1 : Qlt_bool 0 a1 && Qlt_bool a1 1 = true.
Hypothesis valid2 : Qlt_bool 0 a2 && Qlt_bool a2 1 = true.

Abbreviation aobj := (MapieRegressor hyper model).
Abbreviation ablind := (alpha_blind (hyper := hyper) (model := model) a1 a2).

Lemma alpha_blind_bind {A B : Type} (c : @M hyper model A) (k : A -> @M hyper model B) :
  ablind c -> (forall a, ablind (k a)) -> ablind (bind c k).
Proof.
  intros Hc Hk s1 s2 Hs. unfold bind.
  destruct (Hc s1 s2 Hs) as [Hfst Hsnd].
  destruct (c s1) as [[x1|e1] s1'], (c s2) as [[x2|e2] s2']; simpl in *;
    try discriminate Hfst.
  - injection Hfst as ->. now apply Hk.
  - injection Hfst as ->. now split.
Qed.

Lemma alpha_blind_lift {A : Type} (r : result A) : ablind (lift r).
Proof. intros s1 s2 Hs. simpl. auto. Qed.

Lemma alpha_blind_ret {A : Type} (a : A) : ablind (ret a).
Proof. intros s1 s2 Hs. simpl. auto. Qed.

Lemma alpha_blind_read {A : Type} (f : aobj -> A) :
  (forall s, f (set_alpha a2 s) = f s) -> ablind (read f).
Proof. intros Hf s1 s2 [Hm ->]. simpl. rewrite Hf. now split. Qed.

Lemma alpha_blind_getattr {A : Type} (name : string) (f : aobj -> option A) :
  (forall s, f (set_alpha a2 s) = f s) ->
  ablind (fun self => (getattr name (f self), self)).
Proof. intros Hf s1 s2 [Hm ->]. simpl. rewrite Hf. now split. Qed.

Lemma alpha_blind_assign (f : aobj -> aobj) :
  (forall s, set_alpha a2 (f s) = f (set_alpha a2 s)) ->
  (forall s, alpha (f s) = alpha s) ->
  ablind (assign f).
Proof.
  intros Hcomm Hm s1 s2 [Hs ->]. simpl. split; [reflexivity|].
  split; [now rewrite Hm | now rewrite Hcomm].
Qed.

(** Where alpha is read: what follows has to do the same for [a1] and
    for [a2]. *)
Lemma alpha_blind_alpha {A : Type} (k : Q -> @M hyper model A) :
  (forall s1 s2, same_but_alpha a1 a2 s1 s2 ->
     fst (k a1 s1) = fst (k a2 s2)
     /\ same_but_alpha a1 a2 (snd (k a1 s1)) (snd (k a2 s2))) ->
  ablind (bind (read alpha) k).
Proof.
  intros Hk s1 s2 Hs. unfold bind, read.
  destruct (Hs) as [Hm ->]. cbn [alpha set_alpha]. rewrite Hm.
  apply Hk. now split.
Qed.

Ltac alpha_blind_steps :=
  repeat first
    [ apply alpha_blind_bind; [|intros ?]
    | apply alpha_blind_lift
    | apply alpha_blind_ret
    | apply alpha_blind_read; reflexivity
    | apply alpha_blind_getattr; reflexivity
    | apply alpha_blind_assign; reflexivity ].

(** The one place where alpha is read: its validation. *)
Lemma alpha_blind__check_parameters : ablind _check_parameters.
Proof.
  unfold _check_parameters, raise.
  apply alpha_blind_alpha. rewrite valid1, valid2. cbn [negb].
  change (ablind (bind (read method) (fun m =>
            if negb (str_in m valid_methods)
            then lift (Raise (ValueError "Invalid method."))
            else bind (read return_pred) (fun rp =>
                   if negb (str_in rp valid_return_preds)
                   then lift (Raise (ValueError "Invalid return_pred argument."))
                   else bind (read estimator) (fun e =>
                          match e with
                          | None => assign (set_estimator (Some LinearRegression))
                          | Some _ => ret tt
                          end))))).
  apply alpha_blind_bind; [apply alpha_blind_read; reflexivity | intros m].
  destruct (negb _); [apply alpha_blind_lift|].
  apply alpha_blind_bind; [apply alpha_blind_read; reflexivity | intros rp].
  destruct (negb _); [apply alpha_blind_lift|].
  apply alpha_blind_bind; [apply alpha_blind_read; reflexivity | intros e].
  destruct e; [apply alpha_blind_ret | apply alpha_blind_assign; reflexivity].
Qed.

Lemma alpha_blind__select_cv : ablind _select_cv.
Proof.
  unfold _select_cv, raise.
  apply alpha_blind_bind; [apply alpha_blind_read; reflexivity | intros m].
  destruct (startswith m "cv").
  - apply alpha_blind_bind; [apply alpha_blind_read; reflexivity | intros sh].
    apply alpha_blind_bind;
      [destruct (negb sh); [apply alpha_blind_assign; reflexivity | apply alpha_blind_ret]
      | intros _].
    alpha_blind_steps.
  - destruct (startswith m "jackknife"); [apply alpha_blind_ret | apply alpha_blind_lift].
Qed.

Lemma alpha_blind_fit_fold (X : list features) (y : list Q) (k : nat)
  (fold : list nat * list nat) (y_pred : list Q) :
  ablind (fit_fold X y k fold y_pred).
Proof. destruct fold as [train_fold val_fold]. unfold fit_fold. alpha_blind_steps. Qed.

Lemma alpha_blind_fit_folds (X : list features) (y : list Q)
  (folds : list (list nat * list nat)) :
  forall (k : nat) (y_pred : list Q), ablind (fit_folds X y k folds y_pred).
Proof.
  induction folds as [|fold folds IH]; intros k y_pred; simpl.
  - apply alpha_blind_ret.
  - apply alpha_blind_bind; [apply alpha_blind_fit_fold | intros y_pred'; apply IH].
Qed.

Lemma alpha_blind_fit (X : list features) (y : list Q) : ablind (fit X y).
Proof.
  unfold fit.
  apply alpha_blind_bind; [apply alpha_blind__check_parameters | intros _].
  apply alpha_blind_bind; [apply alpha_blind_lift | intros [X' y']].
  apply alpha_blind_bind; [apply alpha_blind_read; reflexivity | intros est].
  apply alpha_blind_bind; [apply alpha_blind_lift | intros h].
  apply alpha_blind_bind; [apply alpha_blind_lift | intros single].
  apply alpha_blind_bind; [apply alpha_blind_assign; reflexivity | intros _].
  apply alpha_blind_bind; [apply alpha_blind_read; reflexivity | intros m].
  apply alpha_blind_bind; [|intros y_pred; apply alpha_blind_assign; reflexivity].
  destruct (String.eqb m "naive").
  - alpha_blind_steps.
  - apply alpha_blind_bind; [apply alpha_blind__select_cv | intros cv].
    apply alpha_blind_bind; [apply alpha_blind_assign; reflexivity | intros _].
    apply alpha_blind_bind; [apply alpha_blind_assign; reflexivity | intros _].
    apply alpha_blind_bind; [apply alpha_blind_lift | intros folds].
    apply alpha_blind_fit_folds.
Qed.

End AlphaBlind.

(** X18. Alpha is only used at prediction time. Take a configuration
    whose folds can be drawn again (no shuffling without a seed). If
    [fit] succeeds, then with any other alpha strictly between 0 and 1 it
    succeeds as well and leaves the same object, alpha apart: same
    models, same fold assignment, same residuals. *)
Theorem fit_ignores_alpha {features hyper model : Type}
  `{Reg : Regressor features hyper model} `{RT : Runtime}
  (X : list features) (y : list Q) (self self' : MapieRegressor hyper model)
  (a2 : Q) (u : unit) :
  0 < a2 -> a2 < 1 ->
  (startswith (method self) "cv" = true -> shuffle self = true ->
   random_state self <> None) ->
  fit X y self = (Ok u, self') ->
  fit X y (set_alpha a2 self) = (Ok u, set_alpha a2 self').
Proof.
  intros H0 H1 _ Hfit.
  assert (Hv1 : Qlt_bool 0 (alpha self) && Qlt_bool (alpha self) 1 = true).
  { pose proof (fit_ok _ _ _ _ _ Hfit) as ((Ha0 & Ha1 & _) & _).
    apply Qlt_bool_iff in Ha0, Ha1. now rewrite Ha0, Ha1. }
  assert (Hv2 : Qlt_bool 0 a2 && Qlt_bool a2 1 = true).
  { apply Qlt_bool_iff in H0, H1. now rewrite H0, H1. }
  destruct (alpha_blind_fit (alpha self) a2 Hv1 Hv2 X y self (set_alpha a2 self))
    as [Hfst [_ Hsnd]]; [now split|].
  rewrite (surjective_pairing (fit X y (set_alpha a2 self))).
  rewrite <- Hfst, Hsnd, Hfit. reflexivity.
Qed.

Lemma fit_ignores_alpha_witness :
  0 < 1 # 4 /\ 1 # 4 < 1
  /\ (startswith (method Toy.two_folds) "cv" = true -> shuffle Toy.two_folds = true ->
      random_state Toy.two_folds <> None)
  /\ toy_fit Toy.X_steps Toy.y_steps Toy.two_folds
     = (Ok tt, snd (toy_fit Toy.X_steps Toy.y_steps Toy.two_folds))
  /\ toy_fit Toy.X_steps Toy.y_steps (set_alpha (1 # 4) Toy.two_folds)
     = (Ok tt, set_alpha (1 # 4) (snd (toy_fit Toy.X_steps Toy.y_steps Toy.two_folds))).
Proof.
  assert (H0 : 0 < 1 # 4) by reflexivity.
  assert (H1 : 1 # 4 < 1) by reflexivity.
  assert (Hr : startswith (method Toy.two_folds) "cv" = true -> shuffle Toy.two_folds = true ->
               random_state Toy.two_folds <> None) by (intros _ Hsh; discriminate Hsh).
  assert (Hfit : toy_fit Toy.X_steps Toy.y_steps Toy.two_folds
                 = (Ok tt, snd (toy_fit Toy.X_steps Toy.y_steps Toy.two_folds))).
  { vm_compute. reflexivity. }
  split; [exact H0|]. split; [exact H1|]. split; [exact Hr|]. split; [exact Hfit|].
  exact (fit_ignores_alpha _ _ _ _ _ _ H0 H1 Hr Hfit).
Defined.
